(** * Knowledge layer: note store, link graph and search index

    A shallow embedding of [KnowledgeServiceImpl]
    (ados-extensions/knowledge-layer/src/node/knowledge-service-impl.ts).

    The service keeps three relations in one SQLite file, opened through
    better-sqlite3 -- [notes], [links] and the FTS5 table [notes_fts] -- and
    a directory of Markdown files mirroring the notes.  Every statement is
    run on its own (the service never opens a transaction), so each one
    commits as soon as it has run; an exception thrown later does not undo
    it.  The embedding therefore threads the whole store through every
    operation and returns the store reached together with the value or
    the exception.

    What the code takes from its environment is made explicit:
    - the value of [new Date()] is the argument [now] of the operations
      that read the clock;
    - the file system refuses a call on the paths held in [faulty];
    - the rows an accepted FTS5 query selects, their rank, and whether
      the fixed limits of the FTS5 engine leave room for a query, are the
      section variables [hits], [rank] and [fits] of [search];
    - foreign keys are enforced or not according to [foreign_keys].

    Strings are byte strings; the character classes of the JavaScript
    regular expressions and of [toLowerCase] are given on ASCII, and
    paths are POSIX paths.  A number is an integer-valued JavaScript
    number, given by its value.  A field of a request that is left out
    is [None]. *)

From Stdlib Require Import ZArith Ascii String List Lia Bool.
From stdpp Require Import base option list strings gmap.
Import ListNotations.

Local Open Scope Z_scope.

(* ================================================================== *)
(** * Strings *)

Module Str.

Definition code (c : ascii) : N := N_of_ascii c.

(** [\s] of a JavaScript regular expression, ASCII part:
    TAB, LF, VT, FF, CR and SPACE. *)
Definition is_space (c : ascii) : bool :=
  ((9 <=? code c) && (code c <=? 13))%N || (code c =? 32)%N.

Definition is_upper (c : ascii) : bool :=
  ((65 <=? code c) && (code c <=? 90))%N.

Definition lower_char (c : ascii) : ascii :=
  if is_upper c then ascii_of_N (code c + 32) else c.

(** [String.prototype.toLowerCase]. *)
Fixpoint toLowerCase (s : string) : string :=
  match s with
  | EmptyString => EmptyString
  | String c t => String (lower_char c) (toLowerCase t)
  end.

(** [s.replace(/\s+/g, '-')]: every maximal run of white space becomes
    one hyphen.  [in_run] tells that the previous character was white
    space, whose hyphen is already out. *)
Fixpoint replace_spaces (in_run : bool) (s : string) : string :=
  match s with
  | EmptyString => EmptyString
  | String c t =>
      if is_space c
      then (if in_run then replace_spaces true t
            else String "-" (replace_spaces true t))
      else String c (replace_spaces false t)
  end.

Fixpoint starts_with (p s : string) : bool :=
  match p, s with
  | EmptyString, _ => true
  | String a p', String b s' => Ascii.eqb a b && starts_with p' s'
  | String _ _, EmptyString => false
  end.

Definition is_empty (s : string) : bool :=
  match s with EmptyString => true | String _ _ => false end.

(** [parts.join(sep)]. *)
Fixpoint join (sep : string) (parts : list string) : string :=
  match parts with
  | [] => ""
  | [p] => p
  | p :: rest => p +:+ sep +:+ join sep rest
  end.

(** [s.split(c)] for a one-character separator: never the empty list. *)
Fixpoint split (sep : ascii) (s : string) : list string :=
  match s with
  | EmptyString => [""]
  | String c t =>
      if Ascii.eqb c sep then "" :: split sep t
      else match split sep t with
           | h :: r => String c h :: r
           | [] => [String c ""]
           end
  end.

(** [s.substring(0, n)]. *)
Definition prefix (n : nat) (s : string) : string := String.substring 0 n s.

Definition last_char (s : string) : option ascii :=
  match String.length s with
  | O => None
  | S n => String.get n s
  end.

End Str.

(** The id of a note: [title.toLowerCase().replace(/\s+/g, '-')]. *)
Definition slug (title : string) : string :=
  Str.replace_spaces false (Str.toLowerCase title).

(* ================================================================== *)
(** * [path.join] (POSIX) *)

Module Path.

(** [normalizeString]: the segments are walked from left to right;
    empty segments and [.] are dropped, [..] removes the segment before
    it when there is one that is not itself [..], and is kept only when
    the path is relative.  [acc] holds the segments kept so far, last
    one first. *)
Fixpoint walk (allowAboveRoot : bool) (acc : list string) (segs : list string)
  : list string :=
  match segs with
  | [] => rev acc
  | seg :: rest =>
      if String.eqb seg "" || String.eqb seg "." then walk allowAboveRoot acc rest
      else if String.eqb seg ".." then
        match acc with
        | top :: acc' =>
            if String.eqb top ".."
            then walk allowAboveRoot (if allowAboveRoot then seg :: acc else acc) rest
            else walk allowAboveRoot acc' rest
        | [] => walk allowAboveRoot (if allowAboveRoot then [seg] else []) rest
        end
      else walk allowAboveRoot (seg :: acc) rest
  end.

Definition normalize (p : string) : string :=
  if Str.is_empty p then "."
  else
    let isAbsolute := Str.starts_with "/" p in
    let trailingSeparator :=
      match Str.last_char p with Some c => Ascii.eqb c "/" | None => false end in
    let body := Str.join "/" (walk (negb isAbsolute) [] (Str.split "/" p)) in
    if Str.is_empty body then
      (if isAbsolute then "/" else if trailingSeparator then "./" else ".")
    else
      let body := if trailingSeparator then body +:+ "/" else body in
      if isAbsolute then "/" +:+ body else body.

(** [path.join(a, b)]. *)
Definition join (a b : string) : string :=
  match Str.is_empty a, Str.is_empty b with
  | true, true => "."
  | true, false => normalize b
  | false, true => normalize a
  | false, false => normalize (a +:+ "/" +:+ b)
  end.

End Path.

(* ================================================================== *)
(** * [JSON.stringify] and [JSON.parse] on arrays of strings

    The [tags] column holds [JSON.stringify(note.tags)]; [readNote] gets
    the tags back with [JSON.parse], and [search] unfolds the column with
    [json_each].  Only arrays of strings are written, so the reader given
    here accepts arrays of strings and rejects every other text. *)

Module JSON.

Definition dquote : ascii := ascii_of_N 34.
Definition backslash : ascii := ascii_of_N 92.

Definition hex_digit (n : N) : ascii :=
  if (n <? 10)%N then ascii_of_N (48 + n) else ascii_of_N (87 + n).

Definition hex_value (c : ascii) : option N :=
  let k := Str.code c in
  if ((48 <=? k) && (k <=? 57))%N then Some (k - 48)%N
  else if ((97 <=? k) && (k <=? 102))%N then Some (k - 87)%N
  else if ((65 <=? k) && (k <=? 70))%N then Some (k - 55)%N
  else None.

(** [QuoteJSONString], one character: the quote and the backslash are
    escaped, the control characters below U+0020 are written with their
    short escape or as [\u00xx], every other character stands for itself. *)
Definition escape_char (c : ascii) : string :=
  let k := Str.code c in
  if (k =? 34)%N then String backslash (String dquote "")
  else if (k =? 92)%N then String backslash (String backslash "")
  else if (k =? 8)%N then String backslash "b"
  else if (k =? 12)%N then String backslash "f"
  else if (k =? 10)%N then String backslash "n"
  else if (k =? 13)%N then String backslash "r"
  else if (k =? 9)%N then String backslash "t"
  else if (k <? 32)%N then
    String backslash
      (String "u" (String "0" (String "0"
         (String (hex_digit (k / 16)) (String (hex_digit (k mod 16)) "")))))
  else String c "".

Fixpoint escape (s : string) : string :=
  match s with
  | EmptyString => EmptyString
  | String c t => escape_char c +:+ escape t
  end.

Definition quote (s : string) : string :=
  String dquote (escape s +:+ String dquote "").

(** [JSON.stringify(tags)] for [tags : string[]]. *)
Definition stringify (tags : list string) : string :=
  "[" +:+ Str.join "," (map quote tags) +:+ "]".

(** The bytes of a UTF-16 code unit written as [\uXXXX]
    (one, two or three bytes). *)
Definition utf8 (n : N) : string :=
  if (n <? 128)%N then String (ascii_of_N n) ""
  else if (n <? 2048)%N then
    String (ascii_of_N (192 + n / 64)) (String (ascii_of_N (128 + n mod 64)) "")
  else
    String (ascii_of_N (224 + n / 4096))
      (String (ascii_of_N (128 + (n / 64) mod 64))
         (String (ascii_of_N (128 + n mod 64)) "")).

Definition hex4 (a b c d : ascii) : option N :=
  match hex_value a, hex_value b, hex_value c, hex_value d with
  | Some x, Some y, Some z, Some w => Some (((x * 16 + y) * 16 + z) * 16 + w)%N
  | _, _, _, _ => None
  end.

Definition unescape (e : ascii) : option ascii :=
  let k := Str.code e in
  if (k =? 34)%N then Some dquote
  else if (k =? 92)%N then Some backslash
  else if (k =? 47)%N then Some "/"%char
  else if (k =? 98)%N then Some (ascii_of_N 8)
  else if (k =? 102)%N then Some (ascii_of_N 12)
  else if (k =? 110)%N then Some (ascii_of_N 10)
  else if (k =? 114)%N then Some (ascii_of_N 13)
  else if (k =? 116)%N then Some (ascii_of_N 9)
  else None.

(** The characters of a string literal, read after its opening quote: the
    string denoted and the text left after the closing quote. *)
Fixpoint parse_chars (s : string) : option (string * string) :=
  match s with
  | EmptyString => None
  | String c t =>
      if (Str.code c =? 34)%N then Some ("", t)
      else if (Str.code c =? 92)%N then
        match t with
        | EmptyString => None
        | String e t1 =>
            if (Str.code e =? 117)%N then
              match t1 with
              | String h1 (String h2 (String h3 (String h4 t2))) =>
                  match hex4 h1 h2 h3 h4, parse_chars t2 with
                  | Some n, Some (r, rest) => Some (utf8 n +:+ r, rest)
                  | _, _ => None
                  end
              | _ => None
              end
            else
              match unescape e, parse_chars t1 with
              | Some ch, Some (r, rest) => Some (String ch r, rest)
              | _, _ => None
              end
        end
      else if (Str.code c <? 32)%N then None
      else
        match parse_chars t with
        | Some (r, rest) => Some (String c r, rest)
        | None => None
        end
  end.

Definition is_ws (c : ascii) : bool :=
  let k := Str.code c in
  ((k =? 32) || (k =? 9) || (k =? 10) || (k =? 13))%N.

Fixpoint skip_ws (s : string) : string :=
  match s with
  | EmptyString => EmptyString
  | String c t => if is_ws c then skip_ws t else s
  end.

(** The elements of a non-empty array, read after its opening bracket:
    the strings and the text left after the closing bracket. *)
Fixpoint parse_elems (fuel : nat) (s : string) : option (list string * string) :=
  match fuel with
  | O => None
  | S fuel' =>
      match skip_ws s with
      | EmptyString => None
      | String c t =>
          if (Str.code c =? 34)%N then
            match parse_chars t with
            | None => None
            | Some (x, r) =>
                match skip_ws r with
                | EmptyString => None
                | String d r' =>
                    if (Str.code d =? 44)%N then
                      match parse_elems fuel' r' with
                      | Some (xs, rest) => Some (x :: xs, rest)
                      | None => None
                      end
                    else if (Str.code d =? 93)%N then Some ([x], r')
                    else None
                end
            end
          else None
      end
  end.

(** [JSON.parse(text)] when [text] is an array of strings; [None] stands
    for the [SyntaxError] (or the value of another shape). *)
Definition parse (text : string) : option (list string) :=
  match skip_ws text with
  | EmptyString => None
  | String c t =>
      if (Str.code c =? 91)%N then
        match skip_ws t with
        | EmptyString => None
        | String d r =>
            if (Str.code d =? 93)%N
            then (if Str.is_empty (skip_ws r) then Some [] else None)
            else
              match parse_elems (String.length t) t with
              | Some (xs, rest) =>
                  if Str.is_empty (skip_ws rest) then Some xs else None
              | None => None
              end
        end
      else None
  end.

End JSON.

(* ================================================================== *)
(** * Data model (common/knowledge-service.ts) *)

Inductive link_type := reference | backlink.

Record NoteLink := {
  link_to : string;
  link_type_of : link_type;
  link_context : string
}.

(** Dates are held as their [getTime()] value, in milliseconds. *)
Record Note := {
  note_id : string;
  note_title : string;
  note_content : string;
  note_path : string;
  note_tags : list string;
  note_created : Z;
  note_modified : Z;
  note_links : list NoteLink
}.

Record NoteWriteRequest := {
  req_noteId : option string;
  req_path : option string;
  req_content : string;
  req_title : option string;
  req_tags : option (list string)
}.

(** [Partial<NoteWriteRequest>]: a field left out is [None]. *)
Record NoteUpdates := {
  upd_noteId : option string;
  upd_path : option string;
  upd_content : option string;
  upd_title : option string;
  upd_tags : option (list string)
}.

Definition updates_of_request (request : NoteWriteRequest) : NoteUpdates :=
  {| upd_noteId := req_noteId request;
     upd_path := req_path request;
     upd_content := Some (req_content request);
     upd_title := req_title request;
     upd_tags := req_tags request |}.

(** [x || fallback] on an optional string: [undefined] and the empty
    string are both falsy. *)
Definition or_else (x : option string) (fallback : string) : string :=
  match x with
  | Some s => if Str.is_empty s then fallback else s
  | None => fallback
  end.

Definition truthy (x : option string) : bool :=
  match x with
  | Some s => negb (Str.is_empty s)
  | None => false
  end.

(* ================================================================== *)
(** * The three relations (createTables) *)

(** [notes]: [id TEXT PRIMARY KEY], [path TEXT UNIQUE NOT NULL],
    [tags TEXT] (the only column that may hold NULL). *)
Record notes_row := {
  col_id : string;
  col_title : string;
  col_content : string;
  col_path : string;
  col_tags : option string;
  col_created : Z;
  col_modified : Z
}.

(** [links]: four columns, two foreign keys into [notes(id)] with
    [ON DELETE CASCADE], a CHECK on [type] (held by [link_type]), and no
    PRIMARY KEY or UNIQUE constraint. *)
Record links_row := {
  from_id : string;
  to_id : string;
  col_type : link_type;
  col_context : string
}.

(** [notes_fts]: an FTS5 table; [id] is declared [UNINDEXED], and the only
    key of the table is the [rowid] every SQLite table has. *)
Record fts_row := {
  rowid : Z;
  fts_id : string;
  fts_title : string;
  fts_content : string
}.

(** A table is the list of its rows in insertion order.  [foreign_keys]
    is the connection's [PRAGMA foreign_keys]: better-sqlite3 builds
    SQLite with [SQLITE_DEFAULT_FOREIGN_KEYS=1], and the service never
    sets the pragma, so the connection made by [setupDatabase] has it on. *)
Record database := {
  foreign_keys : bool;
  notes : list notes_row;
  links : list links_row;
  notes_fts : list fts_row
}.

Definition with_notes (t : list notes_row) (d : database) : database :=
  {| foreign_keys := foreign_keys d; notes := t;
     links := links d; notes_fts := notes_fts d |}.

Definition with_links (t : list links_row) (d : database) : database :=
  {| foreign_keys := foreign_keys d; notes := notes d;
     links := t; notes_fts := notes_fts d |}.

Definition with_fts (t : list fts_row) (d : database) : database :=
  {| foreign_keys := foreign_keys d; notes := notes d;
     links := links d; notes_fts := t |}.

(** [new Database(dbPath)] on a fresh file, after [createTables]. *)
Definition empty_database : database :=
  {| foreign_keys := true; notes := []; links := []; notes_fts := [] |}.

Inductive error :=
| NoteNotFound (noteId : string)      (* Error('Note not found: ...') *)
| SQLITE_CONSTRAINT_PRIMARYKEY
| SQLITE_CONSTRAINT_UNIQUE
| SQLITE_CONSTRAINT_FOREIGNKEY
| SQLITE_ERROR                        (* fts5 syntax error, malformed JSON *)
| SQLITE_MISMATCH                     (* a LIMIT that is no 64-bit integer *)
| RangeError                          (* wrong number of bound values *)
| SyntaxError                         (* JSON.parse *)
| EIO (path : string).                (* a rejected fs call *)

Module Sql.

Definition has_id (noteId : string) (r : notes_row) : bool :=
  String.eqb (col_id r) noteId.

Definition id_exists (noteId : string) (d : database) : bool :=
  existsb (has_id noteId) (notes d).

Definition path_exists (path : string) (d : database) : bool :=
  existsb (fun x => String.eqb (col_path x) path) (notes d).

(** [INSERT INTO notes (...) VALUES (...)].  SQLite goes through the
    indexes of the table from the one declared last: the UNIQUE index on
    [path] is checked first, then the index of the PRIMARY KEY.  A row
    whose path and id are both taken is refused for its path. *)
Definition insert_note (r : notes_row) (d : database) : error + database :=
  if path_exists (col_path r) d then inl SQLITE_CONSTRAINT_UNIQUE
  else if id_exists (col_id r) d then inl SQLITE_CONSTRAINT_PRIMARYKEY
  else inr (with_notes (notes d ++ [r]) d).

(** [SELECT * FROM notes WHERE id = ?] with [.get]: the first row. *)
Definition select_note (noteId : string) (d : database) : option notes_row :=
  List.find (has_id noteId) (notes d).

(** [UPDATE notes SET title = ?, content = ?, tags = ?, modified = ?
    WHERE id = ?]. *)
Definition update_note (title content tags : string) (modified : Z)
  (noteId : string) (d : database) : database :=
  with_notes
    (map (fun r =>
            if has_id noteId r then
              {| col_id := col_id r; col_title := title; col_content := content;
                 col_path := col_path r; col_tags := Some tags;
                 col_created := col_created r; col_modified := modified |}
            else r)
       (notes d))
    d.

Definition mentions (noteId : string) (l : links_row) : bool :=
  String.eqb (from_id l) noteId || String.eqb (to_id l) noteId.

(** [DELETE FROM notes WHERE id = ?].  With foreign keys enforced, the
    rows of [links] whose [from_id] or [to_id] is the key of a deleted
    row go with it (ON DELETE CASCADE); when no row is deleted, or
    enforcement is off, [links] is left as it is. *)
Definition delete_note (noteId : string) (d : database) : database :=
  let cascade := foreign_keys d && id_exists noteId d in
  {| foreign_keys := foreign_keys d;
     notes := List.filter (fun r => negb (has_id noteId r)) (notes d);
     links := if cascade
              then List.filter (fun l => negb (mentions noteId l)) (links d)
              else links d;
     notes_fts := notes_fts d |}.

(** The keys on which an [OR IGNORE] or [OR REPLACE] clause can find a
    conflict in [links]: the table declares none. *)
Definition links_unique_keys : list (links_row -> string) := [].

Definition conflicts {R : Type} (keys : list (R -> string)) (r : R) (t : list R)
  : bool :=
  existsb (fun key => existsb (fun x => String.eqb (key x) (key r)) t) keys.

(** [INSERT INTO links] and [INSERT OR IGNORE INTO links].  A uniqueness
    conflict aborts the first and is skipped by the second; a foreign key
    that finds no parent row aborts both (OR IGNORE does not cover
    foreign keys). *)
Definition insert_link (or_ignore : bool) (l : links_row) (d : database)
  : error + database :=
  if conflicts links_unique_keys l (links d) then
    (if or_ignore then inr d else inl SQLITE_CONSTRAINT_UNIQUE)
  else if foreign_keys d && negb (id_exists (from_id l) d && id_exists (to_id l) d)
  then inl SQLITE_CONSTRAINT_FOREIGNKEY
  else inr (with_links (links d ++ [l]) d).

(** [DELETE FROM links WHERE from_id = ?]. *)
Definition delete_links_from (noteId : string) (d : database) : database :=
  with_links (List.filter (fun l => negb (String.eqb (from_id l) noteId)) (links d)) d.

(** [LIMIT ?] bound to a JavaScript number.  better-sqlite3 binds the
    number as a floating-point value, and LIMIT takes such a value only
    when it converts to a 64-bit integer other than the smallest and the
    largest one; a statement given another value fails with
    SQLITE_MISMATCH before it reads a row. *)
Definition limit_ok (n : Z) : bool := (- 2 ^ 63 <? n) && (n <? 2 ^ 63).

(** The rowid given to a row inserted without one: one more than the
    largest in the table. *)
Definition next_rowid (t : list fts_row) : Z :=
  1 + fold_right (fun r m => Z.max (rowid r) m) 0 t.

(** [INSERT OR REPLACE INTO notes_fts (id, title, content)]: the new row
    gets a fresh rowid; REPLACE removes the rows that hold the same
    rowid. *)
Definition insert_or_replace_fts (noteId title content : string) (d : database)
  : database :=
  let r := {| rowid := next_rowid (notes_fts d); fts_id := noteId;
              fts_title := title; fts_content := content |} in
  with_fts
    (List.filter (fun x => negb (Z.eqb (rowid x) (rowid r))) (notes_fts d) ++ [r])
    d.

(** [DELETE FROM notes_fts WHERE id = ?]. *)
Definition delete_fts (noteId : string) (d : database) : database :=
  with_fts (List.filter (fun x => negb (String.eqb (fts_id x) noteId)) (notes_fts d)) d.

End Sql.

(* ================================================================== *)
(** * The vault directory (fs-extra) *)

(** [files] maps a path to the text of the file there; [faulty] holds the
    paths on which the file system rejects a call (a read-only or missing
    directory, a full disk). *)
Record filesystem := {
  files : gmap string string;
  faulty : gset string
}.

Record world := {
  vaultPath : string;
  db : database;
  disk : filesystem
}.

Definition with_db (d : database) (w : world) : world :=
  {| vaultPath := vaultPath w; db := d; disk := disk w |}.

Definition with_files (f : gmap string string) (w : world) : world :=
  {| vaultPath := vaultPath w; db := db w;
     disk := {| files := f; faulty := faulty (disk w) |} |}.

(** What an async method leaves behind: the value it resolves to or the
    exception it rejects with, and the store as it then is. *)
Inductive outcome (A : Type) :=
| Ok (a : A)
| Throw (e : error).
Arguments Ok {A} a.
Arguments Throw {A} e.

Definition M (A : Type) : Type := world -> outcome A * world.

#[global] Instance M_ret : MRet M := fun A a w => (Ok a, w).

#[global] Instance M_bind : MBind M := fun A B f m w =>
  match m w with
  | (Ok a, w') => f a w'
  | (Throw e, w') => (Throw e, w')
  end.

Definition throw {A : Type} (e : error) : M A := fun w => (Throw e, w).

(** [try { m } catch (error) { }] around a call whose value is not used. *)
Definition try_catch (m : M unit) : M unit := fun w =>
  match m w with
  | (Ok _, w') => (Ok tt, w')
  | (Throw _, w') => (Ok tt, w')
  end.

(** A prepared statement run to its end. *)
Definition run (stmt : database -> error + database) : M unit := fun w =>
  match stmt (db w) with
  | inr d => (Ok tt, with_db d w)
  | inl e => (Throw e, w)
  end.

Definition run_total (stmt : database -> database) : M unit := fun w =>
  (Ok tt, with_db (stmt (db w)) w).

(** A query that reads the store. *)
Definition fetch {A : Type} (q : database -> A) : M A := fun w => (Ok (q (db w)), w).

Module Fs.

Definition ensureDir (dir : string) : M unit := fun w =>
  if bool_decide (dir ∈ faulty (disk w)) then (Throw (EIO dir), w) else (Ok tt, w).

Definition writeFile (path data : string) : M unit := fun w =>
  if bool_decide (path ∈ faulty (disk w)) then (Throw (EIO path), w)
  else (Ok tt, with_files (<[path := data]> (files (disk w))) w).

Definition unlink (path : string) : M unit := fun w =>
  if bool_decide (path ∈ faulty (disk w)) then (Throw (EIO path), w)
  else match files (disk w) !! path with
       | Some _ => (Ok tt, with_files (delete path (files (disk w))) w)
       | None => (Throw (EIO path), w)
       end.

End Fs.

(* ================================================================== *)
(** * KnowledgeServiceImpl *)

(** The longest run of characters other than the closing bracket, and the
    text after it: the group [[^\]]+] of the link pattern. *)
Fixpoint span_target (s : string) : string * string :=
  match s with
  | EmptyString => ("", "")
  | String c t =>
      if Ascii.eqb c "]" then ("", s)
      else let (g, r) := span_target t in (String c g, r)
  end.

(** One try of [/\[\[([^\]]+)\]\]/] at the start of [s]: the group and the
    text after the match.  The group is greedy and stops only at a
    closing bracket or at the end, so giving characters back can never
    make the two closing brackets match. *)
Definition match_link (s : string) : option (string * string) :=
  match s with
  | String "[" (String "[" t) =>
      match span_target t with
      | (String c g, String "]" (String "]" r)) => Some (String c g, r)
      | _ => None
      end
  | _ => None
  end.

(** The [while ((match = linkRegex.exec(content)) !== null)] loop: after
    a match the search goes on behind it, after a failure one character
    further. *)
Fixpoint exec_links (fuel : nat) (s : string) : list NoteLink :=
  match fuel with
  | O => []
  | S fuel' =>
      match match_link s with
      | Some (target, r) =>
          {| link_to := target; link_type_of := reference;
             link_context := "[[" +:+ target +:+ "]]" |} :: exec_links fuel' r
      | None =>
          match s with
          | EmptyString => []
          | String _ t => exec_links fuel' t
          end
      end
  end.

Definition extractLinks (content : string) : list NoteLink :=
  exec_links (S (String.length content)) content.

Definition nl : string := String (ascii_of_N 10) "".

Definition formatNoteAsMarkdown (note : Note) : string :=
  let markdown := "# " +:+ note_title note +:+ nl +:+ nl in
  let markdown :=
    if (0 <? length (note_tags note))%nat
    then markdown +:+ "Tags: "
           +:+ Str.join " " (map (fun tag => "#" +:+ tag) (note_tags note))
           +:+ nl +:+ nl
    else markdown in
  markdown +:+ note_content note.

Definition indexNoteInFTS (note : Note) : M unit :=
  run_total (Sql.insert_or_replace_fts (note_id note) (note_title note) (note_content note)).

Fixpoint forEach {A : Type} (f : A -> M unit) (l : list A) : M unit :=
  match l with
  | [] => mret tt
  | x :: rest => _ ← f x; forEach f rest
  end.

Definition createBacklinks (note : Note) : M unit :=
  forEach (fun link =>
             run (Sql.insert_link true
                    {| from_id := link_to link; to_id := note_id note;
                       col_type := backlink; col_context := "" |}))
    (note_links note).

Definition updateLinks (note : Note) : M unit :=
  _ ← run_total (Sql.delete_links_from (note_id note));
  _ ← forEach (fun link =>
                 run (Sql.insert_link false
                        {| from_id := note_id note; to_id := link_to link;
                           col_type := link_type_of link;
                           col_context := link_context link |}))
        (note_links note);
  createBacklinks note.

(** [now] is the value of [new Date()] read by the call. *)
Definition createNote (title content : string) (tags : list string) (now : Z)
  : M Note := fun w =>
  let id := slug title in
  let filePath := Path.join (vaultPath w) (title +:+ ".md") in
  let note :=
    {| note_id := id; note_title := title; note_content := content;
       note_path := filePath; note_tags := tags;
       note_created := now; note_modified := now;
       note_links := extractLinks content |} in
  (_ ← Fs.ensureDir (vaultPath w);
   _ ← Fs.writeFile filePath (formatNoteAsMarkdown note);
   _ ← run (Sql.insert_note
              {| col_id := note_id note; col_title := note_title note;
                 col_content := note_content note; col_path := note_path note;
                 col_tags := Some (JSON.stringify (note_tags note));
                 col_created := note_created note;
                 col_modified := note_modified note |});
   _ ← indexNoteInFTS note;
   _ ← updateLinks note;
   mret note) w.

Definition note_of_row (row : notes_row) (tags : list string) : Note :=
  {| note_id := col_id row; note_title := col_title row;
     note_content := col_content row; note_path := col_path row;
     note_tags := tags;
     note_created := col_created row; note_modified := col_modified row;
     note_links := [] |}.

Definition readNote (noteId : string) : M (option Note) :=
  row ← fetch (Sql.select_note noteId);
  match row with
  | None => mret None
  | Some row =>
      match JSON.parse (or_else (col_tags row) "[]") with
      | Some tags => mret (Some (note_of_row row tags))
      | None => throw SyntaxError
      end
  end.

(** [{ ...note, ...updates, modified: new Date(), links: ... }]. *)
Definition merge (note : Note) (updates : NoteUpdates) (now : Z) : Note :=
  {| note_id := note_id note;
     note_title := default (note_title note) (upd_title updates);
     note_content := default (note_content note) (upd_content updates);
     note_path := default (note_path note) (upd_path updates);
     note_tags := default (note_tags note) (upd_tags updates);
     note_created := note_created note;
     note_modified := now;
     note_links := extractLinks (or_else (upd_content updates) (note_content note)) |}.

Definition updateNote (noteId : string) (updates : NoteUpdates) (now : Z)
  : M Note :=
  note ← readNote noteId;
  match note with
  | None => throw (NoteNotFound noteId)
  | Some note =>
      let updatedNote := merge note updates now in
      _ ← run_total (Sql.update_note (note_title updatedNote)
                       (note_content updatedNote)
                       (JSON.stringify (note_tags updatedNote))
                       (note_modified updatedNote) noteId);
      _ ← Fs.writeFile (note_path updatedNote) (formatNoteAsMarkdown updatedNote);
      _ ← indexNoteInFTS updatedNote;
      _ ← updateLinks updatedNote;
      mret updatedNote
  end.

Definition deleteNote (noteId : string) : M bool :=
  note ← readNote noteId;
  match note with
  | None => mret false
  | Some note =>
      _ ← run_total (Sql.delete_note noteId);
      _ ← run_total (Sql.delete_fts noteId);
      _ ← try_catch (Fs.unlink (note_path note));
      mret true
  end.

Definition toolWriteNote (request : NoteWriteRequest) (now : Z) : M Note :=
  if truthy (req_noteId request)
  then updateNote (default "" (req_noteId request)) (updates_of_request request) now
  else createNote (or_else (req_title request) "Untitled")
         (req_content request) (default [] (req_tags request)) now.

(* ================================================================== *)
(** * The query language of [notes_fts MATCH ?]

    [search] hands its [query] argument to the MATCH operator as it
    comes.  FTS5 reads it as an expression of its query language, and
    the statement fails with an SQL error when the text is not one.
    [Fts5.query_ok] tells which texts are accepted: the tokens of
    [fts5ExprGetToken] and the grammar of [fts5parse.y], with the checks
    made while parsing (a column filter names a column of the table, only
    the bareword NEAR opens a NEAR group, the distance of a NEAR group is
    a number).  [Fts5.query_ok] is the language only: the engine also
    refuses a query of the language that exceeds one of its fixed limits
    (a nesting too deep for the stack of its parser, an expression too
    deep), which is the section variable [fits] of [search].  No other
    fact about FTS5 is fixed here: which rows an accepted query selects,
    and their rank, are left to the section variables of [search] as
    well. *)

Module Fts5.

Inductive token :=
| STRING (text : string) (bareword : bool)
| AND | OR | NOT
| LP | RP | LCP | RCP
| COLON | COMMA | PLUS | STAR | MINUS | CARET.

(** [sqlite3Fts5IsBareword]: letters, digits, the underscore, the
    substitute character, and every byte above the ASCII range. *)
Definition is_bareword (c : ascii) : bool :=
  let k := Str.code c in
  ((128 <=? k) || ((48 <=? k) && (k <=? 57)) || ((65 <=? k) && (k <=? 90))
   || ((97 <=? k) && (k <=? 122)) || (k =? 95) || (k =? 26))%N.

Definition is_space (c : ascii) : bool :=
  let k := Str.code c in
  ((k =? 32) || (k =? 9) || (k =? 10) || (k =? 13))%N.

Fixpoint span_bareword (s : string) : string * string :=
  match s with
  | EmptyString => ("", "")
  | String c t =>
      if is_bareword c
      then let (w, r) := span_bareword t in (String c w, r)
      else ("", s)
  end.

(** A quoted string, read after its opening quote; two quotes in a row
    stand for one.  [None]: unterminated string. *)
Fixpoint span_quoted (s : string) : option (string * string) :=
  match s with
  | EmptyString => None
  | String c t =>
      if (Str.code c =? 34)%N then
        match t with
        | String c' t' =>
            if (Str.code c' =? 34)%N then
              match span_quoted t' with
              | Some (w, r) => Some (String c' w, r)
              | None => None
              end
            else Some ("", t)
        | EmptyString => Some ("", t)
        end
      else if (Str.code c =? 0)%N then None
      else
        match span_quoted t with
        | Some (w, r) => Some (String c w, r)
        | None => None
        end
  end.

Definition keyword (w : string) : token :=
  if String.eqb w "OR" then OR
  else if String.eqb w "NOT" then NOT
  else if String.eqb w "AND" then AND
  else STRING w true.

Definition punctuation (c : ascii) : option token :=
  let k := Str.code c in
  if (k =? 40)%N then Some LP
  else if (k =? 41)%N then Some RP
  else if (k =? 123)%N then Some LCP
  else if (k =? 125)%N then Some RCP
  else if (k =? 58)%N then Some COLON
  else if (k =? 44)%N then Some COMMA
  else if (k =? 43)%N then Some PLUS
  else if (k =? 42)%N then Some STAR
  else if (k =? 45)%N then Some MINUS
  else if (k =? 94)%N then Some CARET
  else None.

(** The tokens of a query, or [None] when a character starts no token.
    The text is a C string: a NUL byte ends it. *)
Fixpoint lex (fuel : nat) (s : string) : option (list token) :=
  match fuel with
  | O => None
  | S fuel' =>
      match s with
      | EmptyString => Some []
      | String c t =>
          if (Str.code c =? 0)%N then Some []
          else if is_space c then lex fuel' t
          else
            match punctuation c with
            | Some tok => option_map (cons tok) (lex fuel' t)
            | None =>
                if (Str.code c =? 34)%N then
                  match span_quoted t with
                  | Some (w, r) => option_map (cons (STRING w false)) (lex fuel' r)
                  | None => None
                  end
                else if is_bareword c then
                  let (w, r) := span_bareword s in
                  option_map (cons (keyword w)) (lex fuel' r)
                else None
            end
      end
  end.

(** The columns of [notes_fts]; names are compared without case. *)
Definition is_column (name : string) : bool :=
  let n := Str.toLowerCase name in
  String.eqb n "id" || String.eqb n "title" || String.eqb n "content".

Definition all_digits (w : string) : bool :=
  forallb (fun c => ((48 <=? Str.code c) && (Str.code c <=? 57))%N)
    (list_ascii_of_string w).

Definition star_opt (ts : list token) : list token :=
  match ts with
  | STAR :: r => r
  | _ => ts
  end.

(** [phrase ::= phrase PLUS STRING star_opt | STRING star_opt]. *)
Fixpoint phrase_rest (ts : list token) : option (list token) :=
  match ts with
  | PLUS :: STRING _ _ :: STAR :: r => phrase_rest r
  | PLUS :: STRING _ _ :: r => phrase_rest r
  | PLUS :: _ => None
  | _ => Some ts
  end.

Definition phrase (ts : list token) : option (list token) :=
  match ts with
  | STRING _ _ :: r => phrase_rest (star_opt r)
  | _ => None
  end.

(** [nearphrases ::= phrase | nearphrases phrase], then
    [neardist_opt ::= | COMMA STRING], then the closing parenthesis. *)
Fixpoint near_args (fuel : nat) (ts : list token) : option (list token) :=
  match fuel with
  | O => None
  | S fuel' =>
      match phrase ts with
      | None => None
      | Some r =>
          match r with
          | STRING _ _ :: _ => near_args fuel' r
          | RP :: r' => Some r'
          | COMMA :: STRING w bare :: RP :: r' =>
              if bare && all_digits w then Some r' else None
          | _ => None
          end
      end
  end.

(** [colsetlist ::= colsetlist STRING | STRING], then the closing brace. *)
Fixpoint colsetlist (ts : list token) : option (list token) :=
  match ts with
  | STRING name _ :: r =>
      if is_column name then
        match r with
        | RCP :: r' => Some r'
        | _ => colsetlist r
        end
      else None
  | _ => None
  end.

(** [colset ::= MINUS LCP colsetlist RCP | LCP colsetlist RCP | STRING
    | MINUS STRING]. *)
Definition colset (ts : list token) : option (list token) :=
  match ts with
  | MINUS :: STRING name _ :: r => if is_column name then Some r else None
  | STRING name _ :: r => if is_column name then Some r else None
  | MINUS :: LCP :: r => colsetlist r
  | LCP :: r => colsetlist r
  | _ => None
  end.

(** [nearset ::= phrase | CARET phrase
    | STRING LP nearphrases neardist_opt RP]. *)
Definition nearset (ts : list token) : option (list token) :=
  match ts with
  | CARET :: r => phrase r
  | STRING w bare :: LP :: r =>
      if bare && String.eqb w "NEAR" then near_args (length r) r else None
  | _ => phrase ts
  end.

(** The parser takes a STRING for a column filter when a colon follows
    it; a minus sign or an opening brace can only start one. *)
Definition starts_colset (ts : list token) : bool :=
  match ts with
  | STRING _ _ :: COLON :: _ => true
  | MINUS :: _ => true
  | LCP :: _ => true
  | _ => false
  end.

(** [cnearset ::= nearset | colset COLON nearset]. *)
Definition cnearset (ts : list token) : option (list token) :=
  if starts_colset ts then
    match colset ts with
    | Some (COLON :: r) => nearset r
    | _ => None
    end
  else nearset ts.

Definition starts_cnearset (ts : list token) : bool :=
  match ts with
  | STRING _ _ :: _ => true
  | CARET :: _ => true
  | MINUS :: _ => true
  | LCP :: _ => true
  | _ => false
  end.

(** [exprlist ::= cnearset | exprlist cnearset]: an implicit AND, between
    phrases and NEAR groups only. *)
Fixpoint exprlist (fuel : nat) (ts : list token) : option (list token) :=
  match fuel with
  | O => None
  | S fuel' =>
      match cnearset ts with
      | None => None
      | Some r => if starts_cnearset r then exprlist fuel' r else Some r
      end
  end.

(** [expr ::= expr AND expr | expr OR expr | expr NOT expr
    | colset COLON LP expr RP | LP expr RP | exprlist]. *)
Fixpoint expr (fuel : nat) (ts : list token) : option (list token) :=
  match fuel with
  | O => None
  | S fuel' =>
      let closing (r : option (list token)) :=
        match r with
        | Some (RP :: r') => Some r'
        | _ => None
        end in
      let operand :=
        match ts with
        | LP :: r => closing (expr fuel' r)
        | _ =>
            match (if starts_colset ts then colset ts else None) with
            | Some (COLON :: LP :: r) => closing (expr fuel' r)
            | _ => exprlist (length ts) ts
            end
        end in
      match operand with
      | Some (AND :: r) => expr fuel' r
      | Some (OR :: r) => expr fuel' r
      | Some (NOT :: r) => expr fuel' r
      | other => other
      end
  end.

(** [input ::= expr]: the whole text is one expression. *)
Definition query_ok (query : string) : bool :=
  match lex (S (String.length query)) query with
  | Some ts =>
      match expr (S (length ts)) ts with
      | Some [] => true
      | _ => false
      end
  | None => false
  end.

End Fts5.

(* ================================================================== *)
(** * search *)

Record SearchResult := {
  res_noteId : string;
  res_title : string;
  res_preview : string;
  res_score : QArith_base.Q;
  res_matches : list string
}.

(** A value bound to a [?] of a prepared statement. *)
Inductive value :=
| Text (s : string)
| Number (n : Z).

(** The pieces [search] puts together into [sql]; each holds one [?]. *)
Inductive clause :=
| SelectMatch     (* SELECT ... FROM notes_fts fts JOIN notes n ON fts.id = n.id
                     WHERE notes_fts MATCH ? *)
| AndTagIn        (* AND ? IN (SELECT value FROM json_each(n.tags)) *)
| OrderByLimit.   (* ORDER BY rank LIMIT ? *)

Definition placeholders (sql : list clause) : nat := length sql.

Section Search.

(** What the FTS5 engine decides: whether a row of [notes_fts] satisfies
    an accepted query (porter tokenizer), the [rank] column of a row
    (bm25 over the rows of the table; smaller is better), and whether
    its fixed limits -- the stack of its parser, the depth of the
    expression it builds -- leave room for a query ([fits]).  A query
    of the language that does not fit is refused with an SQL error,
    like a text that is not in the language. *)
Variable hits : string -> fts_row -> bool.
Variable rank : string -> list fts_row -> fts_row -> QArith_base.Q.
Variable fits : string -> bool.

(** [FROM notes_fts fts JOIN notes n ON fts.id = n.id WHERE notes_fts
    MATCH ?]: one row for every matching entry and every note with its
    id. *)
Definition joined (query : string) (d : database) : list (fts_row * notes_row) :=
  flat_map (fun f => map (pair f) (List.filter (Sql.has_id (fts_id f)) (notes d)))
    (List.filter (hits query) (notes_fts d)).

(** [? IN (SELECT value FROM json_each(n.tags))]: no row for NULL, an
    error for a text that is not JSON. *)
Definition tag_in (tag : string) (n : notes_row) : option bool :=
  match col_tags n with
  | None => Some false
  | Some text =>
      match JSON.parse text with
      | Some tags => Some (existsb (String.eqb tag) tags)
      | None => None
      end
  end.

Fixpoint where_tag (tag : string) (rows : list (fts_row * notes_row))
  : option (list (fts_row * notes_row)) :=
  match rows with
  | [] => Some []
  | r :: rest =>
      match tag_in tag (snd r), where_tag tag rest with
      | Some keep, Some rest' => Some (if keep then r :: rest' else rest')
      | _, _ => None
      end
  end.

Fixpoint insert_by_rank (query : string) (t : list fts_row)
  (r : fts_row * notes_row) (sorted : list (fts_row * notes_row))
  : list (fts_row * notes_row) :=
  match sorted with
  | [] => [r]
  | x :: rest =>
      if QArith_base.Qle_bool (rank query t (fst r)) (rank query t (fst x))
      then r :: sorted
      else x :: insert_by_rank query t r rest
  end.

Definition order_by_rank (query : string) (t : list fts_row)
  (rows : list (fts_row * notes_row)) : list (fts_row * notes_row) :=
  fold_right (insert_by_rank query t) [] rows.

(** [LIMIT ?]: a negative bound is no bound. *)
Definition limit_rows {A : Type} (n : Z) (rows : list A) : list A :=
  if n <? 0 then rows else firstn (Z.to_nat n) rows.

(** The statement of [search] run on [d]: the LIMIT is evaluated when
    the statement starts, the query is parsed when the cursor on
    [notes_fts] is opened, and the tags of a row are read when the row is
    reached. *)
Definition select_rows (query : string) (tag : option string) (limit : Z)
  (d : database) : error + list (fts_row * notes_row) :=
  if negb (Sql.limit_ok limit) then inl SQLITE_MISMATCH
  else if negb (Fts5.query_ok query && fits query) then inl SQLITE_ERROR
  else
    let rows := joined query d in
    let kept :=
      match tag with
      | Some t => where_tag t rows
      | None => Some rows
      end in
    match kept with
    | None => inl SQLITE_ERROR
    | Some rows =>
        inr (limit_rows limit (order_by_rank query (notes_fts d) rows))
    end.

(** [db.prepare(sql).all(...params)]: better-sqlite3 throws a RangeError
    unless it is given exactly one value for each [?] of the statement;
    the values are then bound in order. *)
Definition prepare_all (sql : list clause) (params : list value)
  : M (list (fts_row * notes_row)) := fun w =>
  if negb (length params =? placeholders sql)%nat then (Throw RangeError, w)
  else
    match sql, params with
    | [SelectMatch; OrderByLimit], [Text query; Number limit] =>
        match select_rows query None limit (db w) with
        | inr rows => (Ok rows, w)
        | inl e => (Throw e, w)
        end
    | [SelectMatch; AndTagIn; OrderByLimit], [Text query; Text tag; Number limit] =>
        match select_rows query (Some tag) limit (db w) with
        | inr rows => (Ok rows, w)
        | inl e => (Throw e, w)
        end
    | _, _ => (Throw SQLITE_ERROR, w)
    end.

Definition result_of_row (query : string) (t : list fts_row)
  (row : fts_row * notes_row) : SearchResult :=
  {| res_noteId := col_id (snd row);
     res_title := col_title (snd row);
     res_preview := Str.prefix 200 (col_content (snd row)) +:+ "...";
     res_score := rank query t (fst row);
     res_matches := [] |}.

(** [tags] is [None] when the argument is left out. *)
Definition search (query : string) (tags : option (list string)) (limit : Z)
  : M (list SearchResult) :=
  let sql := [SelectMatch] in
  let params := [Text query] in
  let '(sql, params) :=
    match tags with
    | Some ((_ :: _) as tags) => (sql ++ [AndTagIn], params ++ map Text tags)
    | _ => (sql, params)
    end in
  let sql := sql ++ [OrderByLimit] in
  let params := params ++ [Number limit] in
  rows ← prepare_all sql params;
  t ← fetch notes_fts;
  mret (map (result_of_row query t) rows).


End Search.

(* ================================================================== *)
(** * listNotes, getLinks and the tool facade *)

(** [ORDER BY modified DESC]: a row goes before the rows that are not
    newer than it; rows with the same stamp keep the order of the table. *)
Fixpoint insert_by_modified (r : notes_row) (sorted : list notes_row)
  : list notes_row :=
  match sorted with
  | [] => [r]
  | x :: rest =>
      if col_modified x <=? col_modified r then r :: sorted
      else x :: insert_by_modified r rest
  end.

Definition order_by_modified (rows : list notes_row) : list notes_row :=
  fold_right insert_by_modified [] rows.

(** The record [listNotes] makes of a row: no content, no links. *)
Definition light_note (row : notes_row) (tags : list string) : Note :=
  {| note_id := col_id row; note_title := col_title row;
     note_content := ""; note_path := col_path row;
     note_tags := tags;
     note_created := col_created row; note_modified := col_modified row;
     note_links := [] |}.

(** [rows.map(row => ...)]: the first row whose tags are not JSON makes
    the whole call throw. *)
Fixpoint light_notes (rows : list notes_row) : option (list Note) :=
  match rows with
  | [] => Some []
  | row :: rest =>
      match JSON.parse (or_else (col_tags row) "[]"), light_notes rest with
      | Some tags, Some notes => Some (light_note row tags :: notes)
      | _, _ => None
      end
  end.

Definition listNotes : M (list Note) :=
  rows ← fetch (fun d => order_by_modified (notes d));
  match light_notes rows with
  | Some notes => mret notes
  | None => throw SyntaxError
  end.

Inductive direction := outgoing | incoming | both.

Record GraphResult := {
  graph_links : list NoteLink;
  totalCount : nat
}.

(** The pieces [getLinks] puts together into [sql]; all but UNION ALL
    hold one [?]. *)
Inductive graph_clause :=
| SelectOutgoing   (* SELECT to_id as other_id, type, context FROM links
                      WHERE from_id = ? *)
| UnionAll         (* UNION ALL *)
| SelectIncoming   (* SELECT from_id as other_id, type, context FROM links
                      WHERE to_id = ? *)
| LimitClause.     (* LIMIT ? *)

Definition graph_placeholders (sql : list graph_clause) : nat :=
  length (List.filter
            (fun c => match c with UnionAll => false | _ => true end) sql).

(** A row [(other_id, type, context)] as the link it is mapped to. *)
Definition outgoing_link (l : links_row) : NoteLink :=
  {| link_to := to_id l; link_type_of := col_type l;
     link_context := col_context l |}.

Definition incoming_link (l : links_row) : NoteLink :=
  {| link_to := from_id l; link_type_of := col_type l;
     link_context := col_context l |}.

Definition select_outgoing (noteId : string) (d : database) : list NoteLink :=
  map outgoing_link
    (List.filter (fun l => String.eqb (from_id l) noteId) (links d)).

Definition select_incoming (noteId : string) (d : database) : list NoteLink :=
  map incoming_link
    (List.filter (fun l => String.eqb (to_id l) noteId) (links d)).

(** [LIMIT ?] on the rows of a select: the statement fails when the
    value bound is not one LIMIT takes. *)
Definition limited {A : Type} (limit : Z) (rows : list A) : outcome (list A) :=
  if Sql.limit_ok limit then Ok (limit_rows limit rows)
  else Throw SQLITE_MISMATCH.

(** [db.prepare(sql).all(...params)] for the statements of [getLinks]:
    one value for each [?], bound in order; the LIMIT bounds the whole
    compound select, whose rows are those of its left part followed by
    those of its right part. *)
Definition graph_all (sql : list graph_clause) (params : list value)
  : M (list NoteLink) := fun w =>
  if negb (length params =? graph_placeholders sql)%nat then (Throw RangeError, w)
  else
    match sql, params with
    | [SelectOutgoing; LimitClause], [Text noteId; Number limit] =>
        (limited limit (select_outgoing noteId (db w)), w)
    | [SelectIncoming; LimitClause], [Text noteId; Number limit] =>
        (limited limit (select_incoming noteId (db w)), w)
    | [SelectOutgoing; UnionAll; SelectIncoming; LimitClause],
      [Text fromId; Text toId; Number limit] =>
        (limited limit
           (select_outgoing fromId (db w) ++ select_incoming toId (db w)), w)
    | _, _ => (Throw SQLITE_ERROR, w)
    end.

Definition getLinks (noteId : string) (dir : direction) (limit : Z)
  : M GraphResult :=
  let sql := [] in
  let params := [] in
  let '(sql, params) :=
    match dir with
    | outgoing | both => (sql ++ [SelectOutgoing], params ++ [Text noteId])
    | incoming => (sql, params)
    end in
  let sql :=
    match dir with
    | both => sql ++ [UnionAll]
    | _ => sql
    end in
  let '(sql, params) :=
    match dir with
    | incoming | both => (sql ++ [SelectIncoming], params ++ [Text noteId])
    | outgoing => (sql, params)
    end in
  let sql := sql ++ [LimitClause] in
  let params := params ++ [Number limit] in
  links ← graph_all sql params;
  mret {| graph_links := links; totalCount := length links |}.

Record NoteReadRequest := {
  read_noteId : option string;
  read_path : option string
}.

Record GraphQueryRequest := {
  graph_noteId : option string;
  graph_direction : option direction;
  graph_limit : option Z
}.

(** [SELECT id FROM notes WHERE path = ?] with [.get]. *)
Definition select_id_by_path (path : string) (d : database) : option string :=
  option_map col_id
    (List.find (fun r => String.eqb (col_path r) path) (notes d)).

Definition toolReadNote (request : NoteReadRequest) : M (option Note) :=
  if truthy (read_noteId request) then readNote (default "" (read_noteId request))
  else if truthy (read_path request) then
    row ← fetch (select_id_by_path (default "" (read_path request)));
    match row with
    | Some id => readNote id
    | None => mret None
    end
  else mret None.

Definition toolQueryGraph (request : GraphQueryRequest) : M GraphResult :=
  if negb (truthy (graph_noteId request))
  then mret {| graph_links := []; totalCount := 0 |}
  else getLinks (default "" (graph_noteId request))
         (default outgoing (graph_direction request))
         (default 100 (graph_limit request)).

(* ================================================================== *)
(** * parseFrontmatter *)

Module Frontmatter.

Definition newline : ascii := ascii_of_N 10.

(** The line terminators that [.] does not match (ASCII part). *)
Definition is_line_terminator (c : ascii) : bool :=
  ((Str.code c =? 10) || (Str.code c =? 13))%N.

Definition is_quote (c : ascii) : bool :=
  ((Str.code c =? 34) || (Str.code c =? 39))%N.

(** [key] at the start of [s], letters compared without case (flag [i]):
    the text after it. *)
Fixpoint strip_key (key s : string) : option string :=
  match key, s with
  | EmptyString, _ => Some s
  | String k key', String c s' =>
      if Ascii.eqb (Str.lower_char k) (Str.lower_char c) then strip_key key' s'
      else None
  | String _ _, EmptyString => None
  end.

(** [(.+)]: as many characters as there are before the next line
    terminator. *)
Fixpoint dot_run (s : string) : string :=
  match s with
  | EmptyString => EmptyString
  | String c t => if is_line_terminator c then EmptyString else String c (dot_run t)
  end.

(** [\s*(.+)] after the key.  The white space is taken greedily and given
    back one character at a time until [.] finds a character to match:
    the group starts at the last position of the run of white space (or
    right after it) that holds a character other than a line
    terminator. *)
Fixpoint value_after_spaces (s : string) : option string :=
  match s with
  | EmptyString => None
  | String c t =>
      if Str.is_space c then
        match value_after_spaces t with
        | Some v => Some v
        | None => if is_line_terminator c then None else Some (dot_run s)
        end
      else Some (dot_run s)
  end.

Fixpoint skip_spaces (s : string) : string :=
  match s with
  | EmptyString => EmptyString
  | String c t => if Str.is_space c then skip_spaces t else s
  end.

(** [\s*\[([^\]]+)\]] after the key: white space, an opening bracket, one
    character or more up to the first closing bracket, which must be
    there. *)
Definition bracket_after_spaces (s : string) : option string :=
  match skip_spaces s with
  | String "[" t =>
      match span_target t with
      | (String c g, String "]" _) => Some (String c g)
      | _ => None
      end
  | _ => None
  end.

(** [text.match(/key<rest>/i)]: the group of the leftmost match, the
    pattern being tried at every position in turn. *)
Fixpoint search (key : string) (rest : string -> option string) (text : string)
  : option string :=
  let here :=
    match strip_key key text with
    | Some after => rest after
    | None => None
    end in
  match here with
  | Some group => Some group
  | None =>
      match text with
      | EmptyString => None
      | String _ t => search key rest t
      end
  end.

Fixpoint trim_start (s : string) : string :=
  match s with
  | EmptyString => EmptyString
  | String c t => if Str.is_space c then trim_start t else s
  end.

(** The text without its trailing white space. *)
Fixpoint trim_end (s : string) : string :=
  match s with
  | EmptyString => EmptyString
  | String c t =>
      match trim_end t with
      | EmptyString => if Str.is_space c then EmptyString else String c EmptyString
      | t' => String c t'
      end
  end.

(** [s.trim()]. *)
Definition trim (s : string) : string := trim_end (trim_start s).

(** The first [replace] of the tag clean-up: one quote character (double
    or single) at the start is removed. *)
Definition strip_leading_quote (s : string) : string :=
  match s with
  | String c t => if is_quote c then t else s
  | EmptyString => EmptyString
  end.

(** The second [replace]: one quote character at the end is removed. *)
Fixpoint strip_trailing_quote (s : string) : string :=
  match s with
  | EmptyString => EmptyString
  | String c EmptyString => if is_quote c then EmptyString else s
  | String c t => String c (strip_trailing_quote t)
  end.

Definition clean_tag (t : string) : string :=
  strip_trailing_quote (strip_leading_quote (trim t)).

(** [lines.indexOf('---', 1)], counted from the second line: the lines
    before the closing delimiter. *)
Fixpoint header_lines (lines : list string) : option (list string) :=
  match lines with
  | [] => None
  | line :: rest =>
      if String.eqb line "---" then Some []
      else option_map (cons line) (header_lines rest)
  end.

Record result := {
  title : option string;
  tags : list string
}.

Definition parseFrontmatter (content : string) : result :=
  match Str.split newline content with
  | first :: rest =>
      if String.eqb first "---" then
        match header_lines rest with
        | Some header =>
            let frontmatter := Str.join (String newline "") header in
            let titleMatch := search "title:" value_after_spaces frontmatter in
            let tagsMatch :=
              match search "tags:" bracket_after_spaces frontmatter with
              | Some group => Some group
              | None => search "tags:" value_after_spaces frontmatter
              end in
            {| title := option_map trim titleMatch;
               tags := match tagsMatch with
                       | Some group => map clean_tag (Str.split "," group)
                       | None => []
                       end |}
        | None => {| title := None; tags := [] |}
        end
      else {| title := None; tags := [] |}
  | [] => {| title := None; tags := [] |}
  end.

End Frontmatter.

(* ================================================================== *)
(** * scanAndIndexVault *)

Module Scan.

(** [fs.readFile(path, 'utf8')]. *)
Definition readFile (path : string) : M string := fun w =>
  if bool_decide (path ∈ faulty (disk w)) then (Throw (EIO path), w)
  else match files (disk w) !! path with
       | Some data => (Ok data, w)
       | None => (Throw (EIO path), w)
       end.

Definition DB_PATH : string := "knowledge.db".

Definition endsWith (suffix s : string) : bool :=
  let n := String.length s in
  let k := String.length suffix in
  (k <=? n)%nat && String.eqb (String.substring (n - k) k s) suffix.

(** [f.endsWith('.md') && f !== DB_PATH]. *)
Definition is_markdown (file : string) : bool :=
  endsWith ".md" file && negb (String.eqb file DB_PATH).

(** The part of a name after its last slash. *)
Fixpoint last_component (s : string) : string :=
  match s with
  | EmptyString => EmptyString
  | String c t =>
      if existsb (Ascii.eqb "/") (list_ascii_of_string t) then last_component t
      else if Ascii.eqb c "/" then t
      else s
  end.

(** [path.basename(file, '.md')] for a name that ends in [.md], the only
    names the scan keeps: the last component without the extension; the
    name [.md] itself gives the empty title, and a last component that
    is nothing but the extension is kept whole. *)
Definition basename_md (file : string) : string :=
  if String.eqb file ".md" then ""
  else
    let name := last_component file in
    if String.eqb name ".md" then name
    else String.substring 0 (String.length name - 3) name.

Section Vault.

(** What the scan takes from its environment: the answer of
    [fs.readdir], and the clock reading at which each file is
    imported. *)
Variable readdir : string -> outcome (list string).
Variable clock : string -> Z.

(** The body of the loop, inside its [try]. *)
Definition importFile (scanPath file : string) : M unit :=
  let filePath := Path.join scanPath file in
  content ← readFile filePath;
  let title := basename_md file in
  existing ← fetch (select_id_by_path filePath);
  match existing with
  | Some _ => mret tt
  | None =>
      let parsed := Frontmatter.parseFrontmatter content in
      let finalTitle := or_else (Frontmatter.title parsed) title in
      _ ← createNote finalTitle content (Frontmatter.tags parsed) (clock file);
      mret tt
  end.

Definition scanAndIndexVault (vaultPathOverride : option string) : M unit := fun w =>
  let scanPath := or_else vaultPathOverride (vaultPath w) in
  match readdir scanPath with
  | Throw e => (Throw e, w)
  | Ok files =>
      let mdFiles := List.filter is_markdown files in
      forEach (fun file => try_catch (importFile scanPath file)) mdFiles w
  end.

(** [initializeVault]: the scan is started and its rejection logged. *)
Definition initializeVault : M unit := fun w =>
  match scanAndIndexVault None w with
  | (Ok _, w') => (Ok tt, w')
  | (Throw _, w') => (Ok tt, w')
  end.

End Vault.

End Scan.

(* ================================================================== *)
(** * Vocabulary of the statements *)

(** A step that leaves everything but the [links] table as it was. *)
Definition only_links (w w' : world) : Prop :=
  vaultPath w' = vaultPath w /\ disk w' = disk w /\
  foreign_keys (db w') = foreign_keys (db w) /\
  notes (db w') = notes (db w) /\ notes_fts (db w') = notes_fts (db w).

Definition reference_row (noteId : string) (link : NoteLink) : links_row :=
  {| from_id := noteId; to_id := link_to link;
     col_type := link_type_of link; col_context := link_context link |}.

Definition backlink_row (noteId : string) (link : NoteLink) : links_row :=
  {| from_id := link_to link; to_id := noteId;
     col_type := backlink; col_context := "" |}.

(** The row [createNote] writes for a note. *)
Definition row_of_note (note : Note) : notes_row :=
  {| col_id := note_id note; col_title := note_title note;
     col_content := note_content note; col_path := note_path note;
     col_tags := Some (JSON.stringify (note_tags note));
     col_created := note_created note; col_modified := note_modified note |}.

(** The note [createNote] builds. *)
Definition new_note (vault title content : string) (tags : list string) (now : Z)
  : Note :=
  {| note_id := slug title; note_title := title; note_content := content;
     note_path := Path.join vault (title +:+ ".md"); note_tags := tags;
     note_created := now; note_modified := now;
     note_links := extractLinks content |}.

(** The row [updateNote] leaves in place of [row]. *)
Definition updated_row (title content tags : string) (modified : Z)
  (row : notes_row) : notes_row :=
  {| col_id := col_id row; col_title := title; col_content := content;
     col_path := col_path row; col_tags := Some tags;
     col_created := col_created row; col_modified := modified |}.

(** The foreign keys of a row of [links] find their parent rows. *)
Definition fk_ok (l : links_row) (d : database) : bool :=
  negb (foreign_keys d) || (Sql.id_exists (from_id l) d && Sql.id_exists (to_id l) d).

(* ================================================================== *)
(** * Small stores used as examples *)

(** The vault right after [initialize]: the tables exist and are empty,
    the directory holds no note, no path is faulty. *)
Definition fresh_vault : world :=
  {| vaultPath := "/srv/knowledge-vault";
     db := empty_database;
     disk := {| files := ∅; faulty := ∅ |} |}.

(** The store a call leaves behind. *)
Definition after {A : Type} (call : M A) (w : world) : world := snd (call w).

(** The file system starts refusing writes to [path]. *)
Definition fail_on (path : string) (w : world) : world :=
  {| vaultPath := vaultPath w; db := db w;
     disk := {| files := files (disk w);
                faulty := {[path]} ∪ faulty (disk w) |} |}.

(** One note, [A]. *)
Definition vault_a : world :=
  after (createNote "A" "first text" ["x"] 1000) fresh_vault.

(** The note [A], and its mirror file no longer writable. *)
Definition vault_a_readonly : world :=
  fail_on "/srv/knowledge-vault/A.md" vault_a.

(** Two notes: [b], and [A] whose text links to [b] twice. *)
Definition vault_b : world := after (createNote "b" "" [] 1000) fresh_vault.

Definition vault_ab : world :=
  after (createNote "A" "see [[b]] and [[b]]" [] 2000) vault_b.

Definition content_only (content : string) : NoteUpdates :=
  {| upd_noteId := None; upd_path := None; upd_content := Some content;
     upd_title := None; upd_tags := None |}.

Definition no_change : NoteUpdates :=
  {| upd_noteId := None; upd_path := None; upd_content := None;
     upd_title := None; upd_tags := None |}.

(** A request that names neither a note nor a title. *)
Definition untitled_request (content : string) : NoteWriteRequest :=
  {| req_noteId := None; req_path := None; req_content := content;
     req_title := None; req_tags := None |}.

(** The backlink rows from [target] to the note [noteId]. *)
Definition backlinks (target noteId : string) (d : database) : list links_row :=
  List.filter
    (fun l => String.eqb (from_id l) target && String.eqb (to_id l) noteId
              && match col_type l with backlink => true | reference => false end)
    (links d).

(** The search entries of the note [noteId]. *)
Definition search_entries (noteId : string) (d : database) : list fts_row :=
  List.filter (fun f => String.eqb (fts_id f) noteId) (notes_fts d).

(** How often [target] occurs among the links of a text. *)
Definition occurrences (target : string) (ls : list NoteLink) : nat :=
  length (List.filter (fun link => String.eqb (link_to link) target) ls).

(** An engine for the examples: a row is a hit when its content is the
    query, and all rows rank alike. *)
Definition exact_hits (query : string) (f : fts_row) : bool :=
  String.eqb query (fts_content f).

Definition flat_rank (query : string) (t : list fts_row) (f : fts_row)
  : QArith_base.Q := QArith_base.Qmake 0 1.

(** Its parser has room for the queries of at most 64 characters. *)
Definition short_query (query : string) : bool :=
  (String.length query <=? 64)%nat.

(* ================================================================== *)
(** * Vocabulary of the further properties *)

From Stdlib Require Sorting.Sorted Sorting.Permutation.

(** The rows [getLinks] selects before its LIMIT. *)
Definition selected (dir : direction) (noteId : string) (d : database)
  : list NoteLink :=
  match dir with
  | outgoing => select_outgoing noteId d
  | incoming => select_incoming noteId d
  | both => select_outgoing noteId d ++ select_incoming noteId d
  end.

(** A LIMIT that cuts nothing off [n] rows. *)
Definition unbounded (limit : Z) (n : nat) : Prop :=
  limit < 0 \/ (n <= Z.to_nat limit)%nat.

(** Stamps from newest to oldest. *)
Definition newest_first (stamps : list Z) : Prop :=
  Sorted.StronglySorted (fun a b => b <= a) stamps.


Definition path_request (path : string) : NoteReadRequest :=
  {| read_noteId := None; read_path := Some path |}.

Definition noon (file : string) : Z := 5000.

(** What [listNotes] returns in the store of two notes. *)
Definition listed_ab : list Note :=
  Eval vm_compute in
    match fst (listNotes vault_ab) with Ok listed => listed | Throw _ => [] end.

(** The note [A] as [readNote] returns it in the store of one note, and in
    the store of two. *)
Definition note_a : Note :=
  Eval vm_compute in
    match fst (readNote "a" vault_a) with
    | Ok (Some n) => n
    | _ => new_note "" "" "" [] 0
    end.

Definition note_a_linked : Note :=
  Eval vm_compute in
    match fst (readNote "a" vault_ab) with
    | Ok (Some n) => n
    | _ => new_note "" "" "" [] 0
    end.

Definition note_b : Note :=
  Eval vm_compute in
    match fst (readNote "b" vault_ab) with
    | Ok (Some n) => n
    | _ => new_note "" "" "" [] 0
    end.

(** What [listNotes] returns once [b] has been updated at time 3000. *)
Definition listed_b_first : list Note :=
  Eval vm_compute in
    match fst (listNotes (after (updateNote "b" no_change 3000) vault_ab)) with
    | Ok listed => listed
    | Throw _ => []
    end.

(** The store of two notes once the text of [A] has been set to the empty
    string at time 3000, and the record that update returns. *)
Definition vault_ab_emptied : world :=
  after (updateNote "a" (content_only "") 3000) vault_ab.

(** An update that only moves the mirror file. *)
Definition path_only (path : string) : NoteUpdates :=
  {| upd_noteId := None; upd_path := Some path; upd_content := None;
     upd_title := None; upd_tags := None |}.

(** A write request for the note [noteId]. *)
Definition write_request (noteId title content : string) : NoteWriteRequest :=
  {| req_noteId := Some noteId; req_path := None; req_content := content;
     req_title := Some title; req_tags := None |}.

(** From [w] to [w'] the store has only grown, by [n] notes at most: the
    vault, the paths the file system refuses and the foreign-key setting
    are the same, no file has gone, and the rows of [notes] are the old
    ones followed by at most [n] new ones. *)
Definition grows_by (n : nat) (w w' : world) : Prop :=
  vaultPath w' = vaultPath w /\
  faulty (disk w') = faulty (disk w) /\
  foreign_keys (db w') = foreign_keys (db w) /\
  (forall p, is_Some (files (disk w) !! p) -> is_Some (files (disk w') !! p)) /\
  exists added,
    notes (db w') = notes (db w) ++ added /\ (length added <= n)%nat.

(** A directory listing: one note file, the database and a text file. *)
Definition listing_a (dir : string) : outcome (list string) :=
  Ok ["A.md"; "knowledge.db"; "notes.txt"].

(** The empty vault with one file in it, put there by another program. *)
Definition vault_with_file (file content : string) : world :=
  {| vaultPath := vaultPath fresh_vault;
     db := db fresh_vault;
     disk := {| files := {[Path.join (vaultPath fresh_vault) file := content]};
                faulty := ∅ |} |}.

(** A listing with that file and the database. *)
Definition listing_todo (dir : string) : outcome (list string) :=
  Ok ["todo.md"; "knowledge.db"].

(** The result for a text without front matter. *)
Definition no_frontmatter : Frontmatter.result :=
  {| Frontmatter.title := None; Frontmatter.tags := [] |}.

(** The rows of the joined table in the order of their rank. *)
Definition ranked (rank : string -> list fts_row -> fts_row -> QArith_base.Q)
  (query : string) (t : list fts_row) (rows : list (fts_row * notes_row))
  : Prop :=
  Sorted.StronglySorted
    (fun a b => QArith_base.Qle_bool (rank query t (fst a)) (rank query t (fst b))
                = true) rows.


(** A text that opens with a front matter: a title and a list of tags
    between brackets. *)
Definition with_frontmatter (title : string) (tags : list string)
  (body : string) : string :=
  "---" +:+ nl +:+
  "title: " +:+ title +:+ nl +:+
  "tags: [" +:+ Str.join ", " tags +:+ "]" +:+ nl +:+
  "---" +:+ nl +:+ body.

(** A title on one line, without a colon and without white space around
    it. *)
Definition plain_title (title : string) : Prop :=
  title <> "" /\ Frontmatter.trim title = title /\
  forall c, In c (list_ascii_of_string title) ->
    Frontmatter.is_line_terminator c = false /\ c <> ":"%char.

(** A tag the clean-up leaves alone, without a comma, a closing bracket
    or a line feed. *)
Definition plain_tag (tag : string) : Prop :=
  tag <> "" /\ Frontmatter.clean_tag tag = tag /\
  forall c, In c (list_ascii_of_string tag) ->
    c <> ","%char /\ c <> "]"%char /\ c <> Frontmatter.newline.

(** A file of the vault whose front matter names another title. *)
Definition titled_text : string :=
  with_frontmatter "Groceries" ["home"] "buy milk".

Definition vault_with_titled_file : world :=
  vault_with_file "todo.md" titled_text.

(* ================================================================== *)
(** * The model at work *)

Example slug_example : slug "My  First	Note" = "my-first-note".
Proof. reflexivity. Qed.

Example join_example :
  Path.join "/srv/knowledge-vault" "x/../A.md" = "/srv/knowledge-vault/A.md".
Proof. reflexivity. Qed.

Example stringify_example :
  JSON.stringify ["a"; "b c"] =
  "[" +:+ JSON.quote "a" +:+ "," +:+ JSON.quote "b c" +:+ "]".
Proof. reflexivity. Qed.

Example parse_example :
  JSON.parse (JSON.stringify ["a"; String JSON.dquote "\x"; ""]) =
  Some ["a"; String JSON.dquote "\x"; ""].
Proof. reflexivity. Qed.

Example fts5_accepts_bareword : Fts5.query_ok "token" = true.
Proof. reflexivity. Qed.

Example fts5_accepts_implicit_and : Fts5.query_ok "no such tok*" = true.
Proof. reflexivity. Qed.

Example fts5_accepts_operators :
  Fts5.query_ok "title : (alpha OR beta) NOT NEAR(gamma delta, 4)" = true.
Proof. reflexivity. Qed.

Example fts5_rejects_empty : Fts5.query_ok "" = false.
Proof. reflexivity. Qed.

Example fts5_rejects_unknown_column : Fts5.query_ok "body : alpha" = false.
Proof. reflexivity. Qed.

Example fts5_rejects_hyphen : Fts5.query_ok "no-such-token" = false.
Proof. reflexivity. Qed.

(** The rejection is the grammar's, whatever the fuel: after the word
    [no], the hyphen opens a column filter, and [such] is no column. *)
Example fts5_tokens_hyphen :
  Fts5.lex 14 "no-such-token" =
  Some [Fts5.STRING "no" true; Fts5.MINUS; Fts5.STRING "such" true;
        Fts5.MINUS; Fts5.STRING "token" true].
Proof. reflexivity. Qed.

Example fts5_rejects_hyphen_any_fuel (fuel : nat) :
  Fts5.expr fuel
    [Fts5.STRING "no" true; Fts5.MINUS; Fts5.STRING "such" true;
     Fts5.MINUS; Fts5.STRING "token" true] = None.
Proof. destruct fuel; reflexivity. Qed.

Example fts5_accepts_quoted_hyphen :
  Fts5.query_ok (String JSON.dquote "no-such-token" +:+ String JSON.dquote "") = true.
Proof. reflexivity. Qed.

(** The example of the specification for the link extractor. *)
Example extractLinks_example :
  extractLinks "See [[Foo]] and [[Bar]]" =
  [ {| link_to := "Foo"; link_type_of := reference; link_context := "[[Foo]]" |};
    {| link_to := "Bar"; link_type_of := reference; link_context := "[[Bar]]" |} ].
Proof. reflexivity. Qed.

(** The group of the pattern may hold an opening bracket and a line
    break, but is never empty. *)
Example extractLinks_brackets :
  map link_to (extractLinks ("[[[a]] [[]] [[x]y]] [[p" +:+ nl +:+ "q]] [[z]")) =
  ["[a"; "p" +:+ nl +:+ "q"].
Proof. reflexivity. Qed.

(** With foreign keys enforced, a link to a note that does not exist
    stops [createNote] at the first row of [links]: the note and its
    search entry are stored, no link row is. *)
Example createNote_dangling_link :
  fst (createNote "A" "Link to [[B]]" [] 1000 fresh_vault)
  = Throw SQLITE_CONSTRAINT_FOREIGNKEY /\
  map col_id (notes (db (after (createNote "A" "Link to [[B]]" [] 1000) fresh_vault)))
  = ["a"] /\
  map fts_id (notes_fts (db (after (createNote "A" "Link to [[B]]" [] 1000) fresh_vault)))
  = ["a"] /\
  links (db (after (createNote "A" "Link to [[B]]" [] 1000) fresh_vault)) = [].
Proof. vm_compute. repeat split. Qed.

(** The cascade of [deleteNote] is the work of the foreign keys: on a
    connection that does not enforce them the rows of [links] stay. *)
Example deleteNote_without_enforcement :
  length
    (links (db (after (deleteNote "a")
                  {| vaultPath := vaultPath vault_ab;
                     db := {| foreign_keys := false; notes := notes (db vault_ab);
                              links := links (db vault_ab);
                              notes_fts := notes_fts (db vault_ab) |};
                     disk := disk vault_ab |})))
  = 4%nat.
Proof. vm_compute. reflexivity. Qed.

Example vault_ab_links :
  links (db vault_ab) =
  [ {| from_id := "a"; to_id := "b"; col_type := reference; col_context := "[[b]]" |};
    {| from_id := "a"; to_id := "b"; col_type := reference; col_context := "[[b]]" |};
    {| from_id := "b"; to_id := "a"; col_type := backlink; col_context := "" |};
    {| from_id := "b"; to_id := "a"; col_type := backlink; col_context := "" |} ].
Proof. vm_compute. reflexivity. Qed.

Example vault_a_files :
  files (disk vault_a) !! "/srv/knowledge-vault/A.md" =
  Some ("# A" +:+ nl +:+ nl +:+ "Tags: #x" +:+ nl +:+ nl +:+ "first text").
Proof. vm_compute. reflexivity. Qed.

(* ================================================================== *)
(** * Facts about strings and JSON *)

Lemma append_nil (b : string) : "" +:+ b = b.
Proof. reflexivity. Qed.

Lemma append_cons (c : ascii) (a b : string) :
  String c a +:+ b = String c (a +:+ b).
Proof. reflexivity. Qed.

Lemma append_assoc (a b c : string) : (a +:+ b) +:+ c = a +:+ (b +:+ c).
Proof.
  induction a as [| x a IH]; [reflexivity |].
  rewrite !append_cons. now rewrite IH.
Qed.

Lemma length_append (a b : string) :
  String.length (a +:+ b) = (String.length a + String.length b)%nat.
Proof.
  induction a as [| x a IH]; [reflexivity |].
  rewrite append_cons. simpl. now rewrite IH.
Qed.

Module JSONFacts.
Import JSON.

(** Reading back one escaped character gives the character. *)
Lemma parse_chars_escape_char (c : ascii) (r : string) :
  parse_chars (escape_char c +:+ r) =
  match parse_chars r with
  | Some (x, rest) => Some (String c x, rest)
  | None => None
  end.
Proof. destruct c as [[] [] [] [] [] [] [] []]; reflexivity. Qed.

Lemma parse_chars_escape (s r : string) :
  parse_chars (escape s +:+ String dquote r) = Some (s, r).
Proof.
  induction s as [| c s IH]; [reflexivity |].
  cbn [escape]. rewrite append_assoc, parse_chars_escape_char, IH. reflexivity.
Qed.

Lemma quote_append (x r : string) :
  quote x +:+ r = String dquote (escape x +:+ String dquote r).
Proof. unfold quote. now rewrite append_cons, append_assoc. Qed.

Lemma parse_elems_quote (fuel : nat) (x r : string) :
  parse_elems (S fuel) (quote x +:+ r) =
  match skip_ws r with
  | EmptyString => None
  | String d r' =>
      if (Str.code d =? 44)%N then
        match parse_elems fuel r' with
        | Some (xs, rest) => Some (x :: xs, rest)
        | None => None
        end
      else if (Str.code d =? 93)%N then Some ([x], r')
      else None
  end.
Proof.
  rewrite quote_append.
  change (parse_elems (S fuel) (String dquote (escape x +:+ String dquote r)))
    with (match parse_chars (escape x +:+ String dquote r) with
          | None => None
          | Some (x, r) =>
              match skip_ws r with
              | EmptyString => None
              | String d r' =>
                  if (Str.code d =? 44)%N then
                    match parse_elems fuel r' with
                    | Some (xs, rest) => Some (x :: xs, rest)
                    | None => None
                    end
                  else if (Str.code d =? 93)%N then Some ([x], r')
                  else None
              end
          end).
  now rewrite parse_chars_escape.
Qed.

Lemma join_cons2 (sep x y : string) (l : list string) :
  Str.join sep (x :: y :: l) = x +:+ sep +:+ Str.join sep (y :: l).
Proof. reflexivity. Qed.

Lemma parse_elems_join (l : list string) :
  forall (fuel : nat) (r : string),
    l <> [] -> (length l <= fuel)%nat ->
    parse_elems fuel (Str.join "," (map quote l) +:+ "]" +:+ r) = Some (l, r).
Proof.
  induction l as [| x l IH]; intros fuel r Hne Hfuel; [congruence |].
  destruct fuel as [| fuel]; [simpl in Hfuel; lia |].
  destruct l as [| y l].
  - cbn [map Str.join]. rewrite parse_elems_quote. reflexivity.
  - cbn [map]. rewrite join_cons2, !append_assoc, parse_elems_quote.
    rewrite append_cons, append_nil.
    change (skip_ws (String "," ?s)) with (String "," s).
    cbn [skip_ws is_ws].
    change (Str.join "," (quote y :: map quote l))
      with (Str.join "," (map quote (y :: l))).
    replace (skip_ws (String "," (Str.join "," (map quote (y :: l)) +:+ "]" +:+ r)))
      with (String "," (Str.join "," (map quote (y :: l)) +:+ "]" +:+ r))
      by reflexivity.
    replace (Str.code "," =? 44)%N with true by reflexivity.
    rewrite IH; [reflexivity | congruence | simpl in *; lia].
Qed.

Lemma length_join_quote (l : list string) :
  (length l <= String.length (Str.join "," (map quote l)))%nat.
Proof.
  induction l as [| x l IH]; [simpl; lia |].
  destruct l as [| y l]; [simpl; lia |].
  cbn [map] in *. rewrite join_cons2, !length_append.
  simpl in *. lia.
Qed.

(** [JSON.parse(JSON.stringify(tags))] is [tags]. *)
Lemma parse_stringify (tags : list string) :
  parse (stringify tags) = Some tags.
Proof.
  destruct tags as [| x l]; [reflexivity |].
  unfold stringify.
  set (body := Str.join "," (map quote (x :: l))).
  assert (Hbody : exists t, body = String dquote t).
  { subst body. destruct l as [| y l]; cbn [map].
    - exists (escape x +:+ String dquote ""). reflexivity.
    - rewrite join_cons2, quote_append. eauto. }
  destruct Hbody as [t Ht].
  rewrite append_cons, append_nil.
  assert (Hfuel : (length (x :: l) <= String.length (body +:+ "]"))%nat).
  { rewrite length_append. pose proof (length_join_quote (x :: l)).
    fold body in H. lia. }
  pose proof (parse_elems_join (x :: l) (String.length (body +:+ "]")) ""
                ltac:(congruence) Hfuel) as Hp.
  fold body in Hp. change (body +:+ "]" +:+ "") with (body +:+ "]") in Hp.
  unfold parse.
  replace (skip_ws (String "[" (body +:+ "]"))) with (String "[" (body +:+ "]"))
    by reflexivity.
  replace (Str.code "[" =? 91)%N with true by reflexivity.
  cbv iota.
  rewrite Ht at 1. rewrite append_cons.
  replace (skip_ws (String dquote (t +:+ "]"))) with (String dquote (t +:+ "]"))
    by reflexivity.
  replace (Str.code dquote =? 93)%N with false by reflexivity.
  cbv iota. rewrite Hp. reflexivity.
Qed.

Lemma stringify_not_empty (tags : list string) :
  Str.is_empty (stringify tags) = false.
Proof. reflexivity. Qed.

End JSONFacts.

(* ================================================================== *)
(** * Facts about the statements and the helpers *)

(** The loop of [extractLinks] does not depend on its fuel once there is
    more of it than characters: it ends when the text is used up. *)
Lemma span_target_length (s g r : string) :
  span_target s = (g, r) -> (String.length r <= String.length s)%nat.
Proof.
  revert g r. induction s as [| c t IH]; intros g r H.
  - injection H as <- <-. simpl. lia.
  - cbn [span_target] in H. destruct (Ascii.eqb c "]").
    + injection H as <- <-. lia.
    + destruct (span_target t) as [g' r'] eqn:E. injection H as <- <-.
      specialize (IH g' r' eq_refl). simpl. lia.
Qed.

Lemma match_link_shorter (s target r : string) :
  match_link s = Some (target, r) -> (String.length r < String.length s)%nat.
Proof.
  intros H. destruct s as [| a [| b t]]; [discriminate | |].
  { destruct a as [[] [] [] [] [] [] [] []]; discriminate. }
  destruct a as [[] [] [] [] [] [] [] []]; try discriminate;
    destruct b as [[] [] [] [] [] [] [] []]; try discriminate.
  cbn [match_link] in H.
  destruct (span_target t) as [g r0] eqn:E.
  apply span_target_length in E.
  destruct g as [| c g]; [discriminate |].
  destruct r0 as [| x [| y r1]]; [discriminate | |].
  { destruct x as [[] [] [] [] [] [] [] []]; discriminate. }
  destruct x as [[] [] [] [] [] [] [] []]; try discriminate;
    destruct y as [[] [] [] [] [] [] [] []]; try discriminate.
  injection H as _ <-. simpl in *. lia.
Qed.

Lemma exec_links_fuel (fuel1 : nat) :
  forall (fuel2 : nat) (s : string),
    (String.length s < fuel1)%nat -> (String.length s < fuel2)%nat ->
    exec_links fuel1 s = exec_links fuel2 s.
Proof.
  induction fuel1 as [| fuel1 IH]; intros fuel2 s H1 H2; [lia |].
  destruct fuel2 as [| fuel2]; [lia |].
  cbn [exec_links].
  destruct (match_link s) as [[target r] |] eqn:E.
  - apply match_link_shorter in E. f_equal. apply IH; lia.
  - destruct s as [| c t]; [reflexivity |]. simpl in H1, H2. apply IH; lia.
Qed.

(** [extractLinks] by its equation, without fuel. *)
Lemma extractLinks_unfold (content : string) :
  extractLinks content =
  match match_link content with
  | Some (target, r) =>
      {| link_to := target; link_type_of := reference;
         link_context := "[[" +:+ target +:+ "]]" |} :: extractLinks r
  | None =>
      match content with
      | EmptyString => []
      | String _ t => extractLinks t
      end
  end.
Proof.
  unfold extractLinks at 1. cbn [exec_links].
  destruct (match_link content) as [[target r] |] eqn:E.
  - apply match_link_shorter in E. f_equal.
    unfold extractLinks. apply exec_links_fuel; lia.
  - destruct content as [| c t]; [reflexivity |].
    unfold extractLinks. apply exec_links_fuel; simpl; lia.
Qed.

(** Every link that [extractLinks] returns is a reference. *)
Lemma extractLinks_reference (content : string) (link : NoteLink) :
  In link (extractLinks content) -> link_type_of link = reference.
Proof.
  unfold extractLinks. generalize (S (String.length content)).
  intros fuel. revert content.
  induction fuel as [| fuel IH]; intros content H; [contradiction |].
  cbn [exec_links] in H.
  destruct (match_link content) as [[target r] |].
  - destruct H as [<- | H]; [reflexivity | eauto].
  - destruct content as [| c t]; [contradiction | eauto].
Qed.

Lemma bind_unfold {A B : Type} (m : M A) (f : A -> M B) (w : world) :
  (m ≫= f) w =
  match m w with
  | (Ok a, w') => f a w'
  | (Throw e, w') => (Throw e, w')
  end.
Proof. reflexivity. Qed.

Lemma only_links_refl (w : world) : only_links w w.
Proof. repeat split. Qed.

Lemma only_links_trans (w1 w2 w3 : world) :
  only_links w1 w2 -> only_links w2 w3 -> only_links w1 w3.
Proof. unfold only_links. intuition congruence. Qed.

Lemma run_insert_link_spec (or_ignore : bool) (l : links_row)
  (w w' : world) (r : outcome unit) :
  run (Sql.insert_link or_ignore l) w = (r, w') ->
  only_links w w' /\
  ((r = Ok tt /\ links (db w') = links (db w) ++ [l]) \/
   (r = Throw SQLITE_CONSTRAINT_FOREIGNKEY /\ w' = w /\
    foreign_keys (db w) = true)).
Proof.
  unfold run, Sql.insert_link. cbn [Sql.conflicts Sql.links_unique_keys existsb].
  destruct (foreign_keys (db w)) eqn:Hfk; cbn [andb].
  - destruct (negb _); intros [= <- <-].
    + split; [apply only_links_refl | right; auto].
    + split; [repeat split | left; auto].
  - intros [= <- <-]. split; [repeat split; assumption | left; auto].
Qed.

Section ForEachLink.

Variable or_ignore : bool.
Variable row_of : NoteLink -> links_row.

Lemma forEach_insert_link_spec (ls : list NoteLink) :
  forall (w w' : world) (r : outcome unit),
    forEach (fun link => run (Sql.insert_link or_ignore (row_of link))) ls w = (r, w') ->
    only_links w w' /\
    ((r = Ok tt /\ links (db w') = links (db w) ++ map row_of ls) \/
     (r = Throw SQLITE_CONSTRAINT_FOREIGNKEY /\ foreign_keys (db w) = true /\
      exists k, (k < length ls)%nat /\
        links (db w') = links (db w) ++ map row_of (firstn k ls))).
Proof.
  induction ls as [| x ls IH]; intros w w' r H.
  - cbn in H. injection H as <- <-. split; [apply only_links_refl |].
    left. now rewrite app_nil_r.
  - cbn [forEach] in H. rewrite bind_unfold in H.
    destruct (run _ w) as [[[] | e] w1] eqn:E1;
      apply run_insert_link_spec in E1 as [Hol [[Hr Hl] | [Hr [Hw Hfk]]]];
      try discriminate.
    + apply IH in H as [Hol' Hcases]. split; [eapply only_links_trans; eauto |].
      destruct Hcases as [[-> Hl'] | [-> [Hfk [k [Hk Hl']]]]].
      * left. split; [reflexivity |]. rewrite Hl', Hl, <- app_assoc. reflexivity.
      * right. split; [reflexivity |].
        split; [destruct Hol as (_ & _ & <- & _); exact Hfk |].
        exists (S k). split; [simpl; lia |].
        rewrite Hl', Hl, <- app_assoc. reflexivity.
    + injection H as <- <-. injection Hr as ->. subst w1.
      split; [apply only_links_refl |]. right. split; [reflexivity |].
      split; [assumption |]. exists 0%nat. split; [simpl; lia |].
      now rewrite app_nil_r.
Qed.

End ForEachLink.

(** [updateLinks] touches the [links] table only; when it returns, the
    table holds the rows of the other notes, then one reference row and
    one backlink row for every extracted link, in the order of the
    links. *)
Lemma updateLinks_spec (note : Note) (w w' : world) (r : outcome unit) :
  updateLinks note w = (r, w') ->
  only_links w w' /\
  (r = Ok tt \/ (r = Throw SQLITE_CONSTRAINT_FOREIGNKEY /\ foreign_keys (db w) = true)) /\
  (r = Ok tt ->
   links (db w') =
   List.filter (fun l => negb (String.eqb (from_id l) (note_id note))) (links (db w))
     ++ map (reference_row (note_id note)) (note_links note)
     ++ map (backlink_row (note_id note)) (note_links note)).
Proof.
  unfold updateLinks, createBacklinks. rewrite bind_unfold.
  cbn [run_total]. rewrite bind_unfold.
  set (w0 := with_db (Sql.delete_links_from (note_id note) (db w)) w).
  assert (H0 : only_links w w0) by (repeat split).
  intros H.
  destruct (forEach _ (note_links note) w0) as [[[] | e] w1] eqn:E1.
  - apply (forEach_insert_link_spec false (reference_row (note_id note))) in E1
      as [Hol1 [[_ Hl1] | [Hr _]]]; [| discriminate].
    apply (forEach_insert_link_spec true (backlink_row (note_id note))) in H
      as [Hol2 Hcases].
    split; [eauto using only_links_trans |].
    destruct Hcases as [[-> Hl2] | [-> [Hfk _]]].
    + split; [now left |]. intros _. rewrite Hl2, Hl1, <- app_assoc. reflexivity.
    + split; [| discriminate]. right. split; [reflexivity |].
      destruct Hol1 as (_ & _ & Hf & _). rewrite Hf in Hfk. exact Hfk.
  - injection H as <- <-.
    apply (forEach_insert_link_spec false (reference_row (note_id note))) in E1
      as [Hol1 [[Hr _] | [Hr [Hfk _]]]]; [discriminate |].
    split; [eauto using only_links_trans |].
    split; [| rewrite Hr; discriminate]. right. now rewrite Hr.
Qed.

Lemma ensureDir_spec (dir : string) (w w' : world) (r : outcome unit) :
  Fs.ensureDir dir w = (r, w') ->
  w' = w /\
  ((r = Ok tt /\ (dir ∉ faulty (disk w))) \/
   (r = Throw (EIO dir) /\ (dir ∈ faulty (disk w)))).
Proof.
  unfold Fs.ensureDir. case_bool_decide; intros [= <- <-]; auto.
Qed.

Lemma writeFile_spec (path data : string) (w w' : world) (r : outcome unit) :
  Fs.writeFile path data w = (r, w') ->
  (r = Ok tt /\ (path ∉ faulty (disk w)) /\
   w' = with_files (<[path := data]> (files (disk w))) w) \/
  (r = Throw (EIO path) /\ (path ∈ faulty (disk w)) /\ w' = w).
Proof.
  unfold Fs.writeFile. case_bool_decide; intros [= <- <-]; auto.
Qed.

Lemma insert_note_spec (row : notes_row) (d : database) :
  match Sql.insert_note row d with
  | inr d' =>
      Sql.id_exists (col_id row) d = false /\
      d' = with_notes (notes d ++ [row]) d
  | inl e =>
      (e = SQLITE_CONSTRAINT_UNIQUE /\ Sql.path_exists (col_path row) d = true) \/
      (e = SQLITE_CONSTRAINT_PRIMARYKEY /\
       Sql.path_exists (col_path row) d = false /\
       Sql.id_exists (col_id row) d = true)
  end.
Proof.
  unfold Sql.insert_note.
  destruct (Sql.path_exists (col_path row) d); [now left |].
  destruct (Sql.id_exists (col_id row) d); [right; auto | now split].
Qed.

(** The three ways [createNote] can end: before anything is stored
    (the directory or the file is refused), at the INSERT (the file is
    written, the row is refused for its path or else for its id), or
    after it (the row and the search
    entry are stored, the links are written as far as they go). *)
Lemma createNote_cases (title content : string) (tags : list string) (now : Z)
  (w w' : world) (r : outcome Note) :
  createNote title content tags now w = (r, w') ->
  let note := new_note (vaultPath w) title content tags now in
  (exists p, r = Throw (EIO p) /\ (p ∈ faulty (disk w)) /\
     (p = vaultPath w \/ p = note_path note) /\ w' = w) \/
  ((vaultPath w ∉ faulty (disk w)) /\ (note_path note ∉ faulty (disk w)) /\
   w' = with_files (<[note_path note := formatNoteAsMarkdown note]> (files (disk w))) w /\
   ((r = Throw SQLITE_CONSTRAINT_UNIQUE /\
     Sql.path_exists (note_path note) (db w) = true) \/
    (r = Throw SQLITE_CONSTRAINT_PRIMARYKEY /\
     Sql.path_exists (note_path note) (db w) = false /\
     Sql.id_exists (slug title) (db w) = true))) \/
  ((vaultPath w ∉ faulty (disk w)) /\ (note_path note ∉ faulty (disk w)) /\
   Sql.id_exists (slug title) (db w) = false /\
   vaultPath w' = vaultPath w /\
   disk w' = {| files := <[note_path note := formatNoteAsMarkdown note]> (files (disk w));
                faulty := faulty (disk w) |} /\
   foreign_keys (db w') = foreign_keys (db w) /\
   notes (db w') = notes (db w) ++ [row_of_note note] /\
   notes_fts (db w') =
     notes_fts (Sql.insert_or_replace_fts (slug title) title content (db w)) /\
   ((r = Ok note /\
     links (db w') =
       List.filter (fun l => negb (String.eqb (from_id l) (slug title))) (links (db w))
         ++ map (reference_row (slug title)) (extractLinks content)
         ++ map (backlink_row (slug title)) (extractLinks content)) \/
    (r = Throw SQLITE_CONSTRAINT_FOREIGNKEY /\ foreign_keys (db w) = true))).
Proof.
  intros H note. unfold createNote in H.
  change (Build_Note (slug title) title content
            (Path.join (vaultPath w) (title +:+ ".md")) tags now now
            (extractLinks content)) with note in H.
  rewrite bind_unfold in H.
  destruct (Fs.ensureDir _ w) as [[[] | e] w1] eqn:E1;
    apply ensureDir_spec in E1 as [-> [[Hr Hv] | [Hr Hv]]]; try discriminate.
  2:{ injection H as <- <-. left. injection Hr as ->. eauto 6. }
  rewrite bind_unfold in H.
  destruct (Fs.writeFile _ _ w) as [[[] | e] w1] eqn:E2;
    apply writeFile_spec in E2 as [(Hr2 & Hp & ->) | (Hr2 & Hp & ->)];
    try discriminate.
  2:{ injection H as <- <-. left. injection Hr2 as ->.
      eexists. repeat split; [exact Hp | now right]. }
  rewrite bind_unfold in H. unfold run in H at 1.
  cbn [db with_files] in H.
  pose proof (insert_note_spec (row_of_note note) (db w)) as Hins.
  change (Sql.insert_note _ (db w)) with (Sql.insert_note (row_of_note note) (db w)) in H.
  destruct (Sql.insert_note (row_of_note note) (db w)) as [e | d1].
  { injection H as <- <-. right. left. repeat split; try assumption.
    destruct Hins as [[-> Hx] | (-> & Hx & Hy)]; [left | right]; auto. }
  destruct Hins as [Hfresh ->].
  rewrite bind_unfold in H. unfold indexNoteInFTS in H. unfold run_total in H at 1.
  rewrite bind_unfold in H.
  match type of H with
  | context [updateLinks note ?w2] =>
      destruct (updateLinks note w2) as [[[] | e] w3] eqn:E3;
        apply updateLinks_spec in E3 as [Hol [Hr3 Hl]]
  end.
  - injection H as <- <-. right. right.
    destruct Hol as (Hv' & Hd & Hf & Hn & Hs).
    repeat split; try assumption.
    left. split; [reflexivity |]. now apply Hl.
  - injection H as <- <-. right. right.
    destruct Hol as (Hv' & Hd & Hf & Hn & Hs).
    destruct Hr3 as [? | [[= ->] Hfk]]; [discriminate |].
    repeat split; try assumption. right. split; [reflexivity | exact Hfk].
Qed.

Lemma find_existsb {A : Type} (p : A -> bool) (l : list A) :
  existsb p l = match List.find p l with Some _ => true | None => false end.
Proof.
  induction l as [| x l IH]; [reflexivity |].
  simpl. destruct (p x); [reflexivity | exact IH].
Qed.

Lemma find_app_fresh {A : Type} (p : A -> bool) (l : list A) (x : A) :
  existsb p l = false -> p x = true -> List.find p (l ++ [x]) = Some x.
Proof.
  induction l as [| y l IH]; simpl; intros Hl Hx.
  - now rewrite Hx.
  - destruct (p y); [discriminate | auto].
Qed.

Lemma has_id_eq (noteId : string) (row : notes_row) :
  Sql.has_id noteId row = true -> col_id row = noteId.
Proof. unfold Sql.has_id. apply String.eqb_eq. Qed.

Lemma select_note_id (noteId : string) (d : database) (row : notes_row) :
  Sql.select_note noteId d = Some row -> col_id row = noteId.
Proof.
  unfold Sql.select_note. intros H. apply find_some in H as [_ H].
  now apply has_id_eq.
Qed.

Lemma select_note_exists (noteId : string) (d : database) (row : notes_row) :
  Sql.select_note noteId d = Some row -> Sql.id_exists noteId d = true.
Proof.
  unfold Sql.select_note, Sql.id_exists. intros H.
  now rewrite find_existsb, H.
Qed.

Lemma readNote_unfold (noteId : string) (w : world) :
  readNote noteId w =
  (match Sql.select_note noteId (db w) with
   | None => Ok None
   | Some row =>
       match JSON.parse (or_else (col_tags row) "[]") with
       | Some tags => Ok (Some (note_of_row row tags))
       | None => Throw SyntaxError
       end
   end, w).
Proof.
  unfold readNote. rewrite bind_unfold. unfold fetch.
  destruct (Sql.select_note noteId (db w)) as [row |]; [| reflexivity].
  destruct (JSON.parse _); reflexivity.
Qed.

(** [readNote] never writes. *)
Lemma readNote_pure (noteId : string) (w w' : world) (r : outcome (option Note)) :
  readNote noteId w = (r, w') -> w' = w.
Proof. rewrite readNote_unfold. now intros [= _ <-]. Qed.

Lemma readNote_Some (noteId : string) (w w' : world) (note : Note) :
  readNote noteId w = (Ok (Some note), w') ->
  exists row tags,
    Sql.select_note noteId (db w) = Some row /\
    JSON.parse (or_else (col_tags row) "[]") = Some tags /\
    note = note_of_row row tags.
Proof.
  rewrite readNote_unfold.
  destruct (Sql.select_note noteId (db w)) as [row |]; [| discriminate].
  destruct (JSON.parse _) as [tags |] eqn:E; [| discriminate].
  intros [= <- _]. eauto.
Qed.

Lemma or_else_stringify (tags : list string) (fallback : string) :
  or_else (Some (JSON.stringify tags)) fallback = JSON.stringify tags.
Proof. reflexivity. Qed.

(** Reading a row written by [createNote] or [updateNote]. *)
Lemma readNote_written (noteId : string) (w : world) (row : notes_row)
  (tags : list string) :
  Sql.select_note noteId (db w) = Some row ->
  col_tags row = Some (JSON.stringify tags) ->
  readNote noteId w = (Ok (Some (note_of_row row tags)), w).
Proof.
  intros Hsel Htags. rewrite readNote_unfold, Hsel, Htags, or_else_stringify.
  now rewrite JSONFacts.parse_stringify.
Qed.

Lemma select_after_update (title content tags : string) (modified : Z)
  (noteId : string) (d : database) :
  Sql.select_note noteId (Sql.update_note title content tags modified noteId d) =
  option_map (updated_row title content tags modified) (Sql.select_note noteId d).
Proof.
  unfold Sql.select_note, Sql.update_note. cbn [notes with_notes].
  induction (notes d) as [| r l IH]; [reflexivity |].
  cbn [map List.find]. destruct (Sql.has_id noteId r) eqn:E.
  - unfold Sql.has_id in *. cbn [col_id]. now rewrite E.
  - now rewrite E.
Qed.

(** The ways [updateNote] can end once the note has been read: the UPDATE
    has always run; the file, the search entry and the links follow as
    far as the call goes. *)
Lemma updateNote_cases (noteId : string) (updates : NoteUpdates) (now : Z)
  (w w' : world) (before : Note) (r : outcome Note) :
  readNote noteId w = (Ok (Some before), w) ->
  updateNote noteId updates now w = (r, w') ->
  let updated := merge before updates now in
  vaultPath w' = vaultPath w /\
  foreign_keys (db w') = foreign_keys (db w) /\
  notes (db w') =
    notes (Sql.update_note (note_title updated) (note_content updated)
             (JSON.stringify (note_tags updated)) now noteId (db w)) /\
  ((r = Throw (EIO (note_path updated)) /\
    (note_path updated ∈ faulty (disk w)) /\
    disk w' = disk w /\
    links (db w') = links (db w) /\
    notes_fts (db w') = notes_fts (db w)) \/
   ((note_path updated ∉ faulty (disk w)) /\
    disk w' = {| files := <[note_path updated := formatNoteAsMarkdown updated]>
                            (files (disk w));
                 faulty := faulty (disk w) |} /\
    notes_fts (db w') =
      notes_fts (Sql.insert_or_replace_fts (note_id updated) (note_title updated)
                   (note_content updated) (db w)) /\
    ((r = Ok updated /\
      links (db w') =
        List.filter (fun l => negb (String.eqb (from_id l) (note_id updated)))
          (links (db w))
          ++ map (reference_row (note_id updated)) (note_links updated)
          ++ map (backlink_row (note_id updated)) (note_links updated)) \/
     (r = Throw SQLITE_CONSTRAINT_FOREIGNKEY /\ foreign_keys (db w) = true)))).
Proof.
  intros Hread H updated. unfold updateNote in H.
  rewrite bind_unfold, Hread in H. fold updated in H.
  rewrite bind_unfold in H. unfold run_total in H at 1.
  rewrite bind_unfold in H.
  match type of H with
  | context [Fs.writeFile ?p ?data ?w1] =>
      destruct (Fs.writeFile p data w1) as [[[] | e] w2] eqn:E2;
        apply writeFile_spec in E2 as [(Hr2 & Hp & ->) | (Hr2 & Hp & ->)];
        try discriminate
  end.
  2:{ injection H as <- <-. injection Hr2 as ->.
      repeat split. left. repeat split. exact Hp. }
  rewrite bind_unfold in H. unfold indexNoteInFTS in H. unfold run_total in H at 1.
  rewrite bind_unfold in H.
  match type of H with
  | context [updateLinks updated ?w2] =>
      destruct (updateLinks updated w2) as [[[] | e] w3] eqn:E3;
        apply updateLinks_spec in E3 as [Hol [Hr3 Hl]]
  end.
  - injection H as <- <-. destruct Hol as (Hv' & Hd & Hf & Hn & Hs).
    repeat split; try assumption. right.
    repeat split; try assumption. left. split; [reflexivity |]. now apply Hl.
  - injection H as <- <-. destruct Hol as (Hv' & Hd & Hf & Hn & Hs).
    destruct Hr3 as [? | [[= ->] Hfk]]; [discriminate |].
    repeat split; try assumption. right.
    repeat split; try assumption. right. split; [reflexivity | exact Hfk].
Qed.

Lemma unlink_frame (path : string) (w w' : world) (r : outcome unit) :
  try_catch (Fs.unlink path) w = (r, w') ->
  r = Ok tt /\ vaultPath w' = vaultPath w /\ db w' = db w /\
  faulty (disk w') = faulty (disk w).
Proof.
  unfold try_catch, Fs.unlink. case_bool_decide.
  - intros [= <- <-]. auto.
  - destruct (files (disk w) !! path); intros [= <- <-]; auto.
Qed.

(** [deleteNote] on a note that [readNote] finds: it returns [true], and
    the store has gone through the two DELETE statements. *)
Lemma deleteNote_found (noteId : string) (w : world) (before : Note) :
  readNote noteId w = (Ok (Some before), w) ->
  exists w',
    deleteNote noteId w = (Ok true, w') /\
    db w' = Sql.delete_fts noteId (Sql.delete_note noteId (db w)) /\
    vaultPath w' = vaultPath w /\ faulty (disk w') = faulty (disk w).
Proof.
  intros Hread. unfold deleteNote. rewrite bind_unfold, Hread.
  rewrite bind_unfold. unfold run_total at 1.
  rewrite bind_unfold. unfold run_total at 1.
  rewrite bind_unfold.
  match goal with
  | |- context [try_catch ?m ?w1] =>
      destruct (try_catch m w1) as [r w2] eqn:E; apply unlink_frame in E
        as (-> & Hv & Hd & Hf)
  end.
  exists w2. split; [reflexivity |]. repeat split; assumption.
Qed.

Lemma run_insert_link_ok (or_ignore : bool) (l : links_row) (w : world) :
  fk_ok l (db w) = true ->
  run (Sql.insert_link or_ignore l) w =
  (Ok tt, with_db (with_links (links (db w) ++ [l]) (db w)) w).
Proof.
  unfold fk_ok, run, Sql.insert_link.
  cbn [Sql.conflicts Sql.links_unique_keys existsb].
  destruct (foreign_keys (db w)); cbn [negb orb andb]; [| reflexivity].
  now intros ->.
Qed.

Lemma forEach_insert_link_ok (or_ignore : bool) (row_of : NoteLink -> links_row)
  (ls : list NoteLink) :
  forall w : world,
    (forall link, In link ls -> fk_ok (row_of link) (db w) = true) ->
    exists w',
      forEach (fun link => run (Sql.insert_link or_ignore (row_of link))) ls w
      = (Ok tt, w').
Proof.
  induction ls as [| x ls IH]; intros w Hok; [eexists; reflexivity |].
  cbn [forEach]. rewrite bind_unfold, run_insert_link_ok by (apply Hok; now left).
  apply IH. intros link Hin. specialize (Hok link (or_intror Hin)).
  exact Hok.
Qed.

(** When [createNote] returns: the directory and the file can be
    written, the id and the path are free, and, where foreign keys are
    enforced, every link of the text names the id of a note of the store
    or of the new note itself. *)
Lemma createNote_returns (title content : string) (tags : list string) (now : Z)
  (w : world) :
  let note := new_note (vaultPath w) title content tags now in
  (vaultPath w ∉ faulty (disk w)) ->
  (note_path note ∉ faulty (disk w)) ->
  Sql.id_exists (slug title) (db w) = false ->
  existsb (fun x => String.eqb (col_path x) (note_path note)) (notes (db w)) = false ->
  (foreign_keys (db w) = true ->
   forall link, In link (extractLinks content) ->
     link_to link = slug title \/ Sql.id_exists (link_to link) (db w) = true) ->
  exists w', createNote title content tags now w = (Ok note, w').
Proof.
  intros note Hv Hp Hid Hpath Hlinks.
  unfold createNote.
  change (Build_Note (slug title) title content
            (Path.join (vaultPath w) (title +:+ ".md")) tags now now
            (extractLinks content)) with note.
  rewrite bind_unfold. unfold Fs.ensureDir.
  rewrite bool_decide_eq_false_2 by exact Hv.
  rewrite bind_unfold. unfold Fs.writeFile.
  rewrite bool_decide_eq_false_2 by exact Hp.
  rewrite bind_unfold. unfold run at 1. cbn [db with_files].
  unfold Sql.insert_note, Sql.path_exists. cbn [col_id col_path].
  change (note_id note) with (slug title). rewrite Hpath, Hid.
  rewrite bind_unfold. unfold indexNoteInFTS. unfold run_total at 1.
  rewrite bind_unfold. unfold updateLinks. rewrite bind_unfold.
  unfold run_total at 1. rewrite bind_unfold.
  match goal with
  | |- context [forEach ?f (note_links note) ?w1] => set (W1 := w1)
  end.
  assert (Hok : forall l : links_row,
             (exists link, In link (extractLinks content) /\
                (l = reference_row (slug title) link \/
                 l = backlink_row (slug title) link)) ->
             forall ls, fk_ok l (with_links ls (db W1)) = true).
  { intros l (link & Hin & Hl) ls. unfold fk_ok, W1.
    cbn [foreign_keys with_links with_db db Sql.delete_links_from
           with_fts Sql.insert_or_replace_fts with_notes with_files].
    destruct (foreign_keys (db w)) eqn:Hfk; [| reflexivity]. cbn [negb orb].
    assert (Hnew : forall x, x = slug title \/ Sql.id_exists x (db w) = true ->
              existsb (Sql.has_id x) (notes (db w) ++ [row_of_note note]) = true).
    { intros x [-> | Hx]; rewrite existsb_app.
      - cbn. unfold Sql.has_id. cbn. rewrite String.eqb_refl. apply orb_true_r.
      - unfold Sql.id_exists in Hx. now rewrite Hx. }
    unfold Sql.id_exists.
    cbn [notes with_links with_db db Sql.delete_links_from
           with_fts Sql.insert_or_replace_fts with_notes with_files].
    destruct Hl as [-> | ->]; cbn [from_id to_id reference_row backlink_row];
      rewrite !Hnew; auto. }
  destruct (forEach_insert_link_ok false (reference_row (slug title))
              (note_links note) W1) as [w2 E2].
  { intros link Hin.
    replace (db W1) with (with_links (links (db W1)) (db W1)) by reflexivity.
    apply Hok. eauto. }
  change (fun link : NoteLink =>
            run (Sql.insert_link false
                   {| from_id := note_id note; to_id := link_to link;
                      col_type := link_type_of link;
                      col_context := link_context link |}))
    with (fun link : NoteLink =>
            run (Sql.insert_link false (reference_row (slug title) link))).
  rewrite E2.
  apply (forEach_insert_link_spec false (reference_row (slug title))) in E2
    as [Hol _].
  unfold createBacklinks.
  destruct (forEach_insert_link_ok true (backlink_row (slug title))
              (note_links note) w2) as [w3 E3].
  { intros link Hin. destruct Hol as (_ & _ & Hf & Hn & _).
    specialize (Hok (backlink_row (slug title) link) ltac:(eauto) (links (db W1))).
    unfold fk_ok, Sql.id_exists in *. rewrite Hf, Hn. exact Hok. }
  change (fun link : NoteLink =>
            run (Sql.insert_link true
                   {| from_id := link_to link; to_id := note_id note;
                      col_type := backlink; col_context := "" |}))
    with (fun link : NoteLink =>
            run (Sql.insert_link true (backlink_row (slug title) link))).
  rewrite E3. eexists. reflexivity.
Qed.

Lemma or_else_falsy (x : option string) (fallback : string) :
  truthy x = false -> or_else x fallback = fallback.
Proof. destruct x as [[| c s] |]; [reflexivity | discriminate | reflexivity]. Qed.

(** Reading a note after the UPDATE statement of [updateNote]. *)
Lemma readNote_after_update (noteId title content : string) (tags : list string)
  (now : Z) (w w' : world) (row : notes_row) :
  Sql.select_note noteId (db w) = Some row ->
  notes (db w') =
    notes (Sql.update_note title content (JSON.stringify tags) now noteId (db w)) ->
  readNote noteId w' =
  (Ok (Some (note_of_row
               (updated_row title content (JSON.stringify tags) now row) tags)), w').
Proof.
  intros Hsel Hnotes. apply readNote_written; [| reflexivity].
  pose proof (select_after_update title content (JSON.stringify tags) now noteId (db w))
    as Hs.
  unfold Sql.select_note in *. rewrite Hnotes, Hs, Hsel. reflexivity.
Qed.

(** [updateNote] and [deleteNote] start with [readNote]; when it finds
    no note, or throws, nothing has been written. *)
Lemma updateNote_unread (noteId : string) (updates : NoteUpdates) (now : Z)
  (w w' : world) (r : outcome Note) :
  (forall before, readNote noteId w <> (Ok (Some before), w)) ->
  updateNote noteId updates now w = (r, w') ->
  w' = w /\ (r = Throw (NoteNotFound noteId) \/ r = Throw SyntaxError).
Proof.
  intros Hno. unfold updateNote. rewrite bind_unfold.
  destruct (readNote noteId w) as [[[before |] | e] w1] eqn:E;
    pose proof (readNote_pure _ _ _ _ E) as ->.
  - now destruct (Hno before).
  - intros [= <- <-]. auto.
  - intros [= <- <-]. split; [reflexivity |]. right.
    rewrite readNote_unfold in E.
    destruct (Sql.select_note noteId (db w)); [| discriminate].
    destruct (JSON.parse _); [discriminate |]. now injection E as <-.
Qed.

Lemma deleteNote_unread (noteId : string) (w w' : world) (r : outcome bool) :
  (forall before, readNote noteId w <> (Ok (Some before), w)) ->
  deleteNote noteId w = (r, w') ->
  w' = w.
Proof.
  intros Hno. unfold deleteNote. rewrite bind_unfold.
  destruct (readNote noteId w) as [[[before |] | e] w1] eqn:E;
    pose proof (readNote_pure _ _ _ _ E) as ->.
  - now destruct (Hno before).
  - now intros [= <- <-].
  - now intros [= <- <-].
Qed.

Lemma readNote_found_or_not (noteId : string) (w : world) :
  (exists before, readNote noteId w = (Ok (Some before), w)) \/
  (forall before, readNote noteId w <> (Ok (Some before), w)).
Proof.
  destruct (readNote noteId w) as [[[before |] | e] w1] eqn:E;
    pose proof (readNote_pure _ _ _ _ E) as ->; eauto; right; congruence.
Qed.

Lemma filter_filter_implied {A : Type} (p q : A -> bool) (l : list A) :
  (forall x, p x = true -> q x = true) ->
  List.filter p (List.filter q l) = List.filter p l.
Proof.
  intros Himp. induction l as [| x l IH]; [reflexivity |].
  cbn [List.filter]. destruct (q x) eqn:Eq.
  - cbn [List.filter]. now rewrite IH.
  - destruct (p x) eqn:Ep; [| exact IH].
    apply Himp in Ep. congruence.
Qed.

Lemma filter_none {A : Type} (p : A -> bool) (l : list A) :
  (forall x, In x l -> p x = false) -> List.filter p l = [].
Proof.
  induction l as [| x l IH]; intros H; [reflexivity |].
  cbn [List.filter]. rewrite (H x) by now left.
  apply IH. intros y Hy. apply H. now right.
Qed.

Lemma filter_all {A : Type} (p : A -> bool) (l : list A) :
  (forall x, In x l -> p x = true) -> List.filter p l = l.
Proof.
  induction l as [| x l IH]; intros H; [reflexivity |].
  cbn [List.filter]. rewrite (H x) by now left.
  f_equal. apply IH. intros y Hy. apply H. now right.
Qed.

(** The backlink rows from [target] to a note after its links have been
    rewritten: the rows there were, and one more for every link of the
    text to [target]. *)
Lemma backlinks_after_updateLinks (target noteId : string) (ls : list NoteLink)
  (old : list links_row) (d d' : database) :
  target <> noteId ->
  links d = old ->
  links d' =
    List.filter (fun l => negb (String.eqb (from_id l) noteId)) old
      ++ map (reference_row noteId) ls ++ map (backlink_row noteId) ls ->
  length (backlinks target noteId d') =
  (length (backlinks target noteId d) + occurrences target ls)%nat.
Proof.
  intros Hne Hold Hnew. unfold backlinks, occurrences.
  rewrite Hnew, Hold, !List.filter_app, !length_app.
  rewrite filter_filter_implied.
  2:{ intros x Hx. apply andb_true_iff in Hx as [Hx _].
      apply andb_true_iff in Hx as [Hx _]. apply String.eqb_eq in Hx.
      apply negb_true_iff, String.eqb_neq. congruence. }
  rewrite (filter_none _ (map (reference_row noteId) ls)).
  2:{ intros x Hx. apply in_map_iff in Hx as (link & <- & _).
      cbn [reference_row from_id].
      replace (String.eqb noteId target) with false; [reflexivity |].
      symmetry. apply String.eqb_neq. congruence. }
  cbn [length]. rewrite Nat.add_0_l. f_equal. clear Hnew.
  induction ls as [| link ls IH]; [reflexivity |].
  cbn [map List.filter backlink_row from_id to_id col_type].
  rewrite String.eqb_refl, andb_true_r, andb_true_r.
  destruct (String.eqb (link_to link) target); cbn [length]; now rewrite IH.
Qed.

Lemma rowid_below_next (t : list fts_row) (x : fts_row) :
  In x t -> rowid x < Sql.next_rowid t.
Proof.
  unfold Sql.next_rowid. induction t as [| y t IH]; [contradiction |].
  cbn [fold_right]. intros [-> | Hin]; [lia |].
  specialize (IH Hin). lia.
Qed.

(** REPLACE finds no row to remove: the entry is added at the end. *)
Lemma insert_or_replace_fts_appends (noteId title content : string) (d : database) :
  notes_fts (Sql.insert_or_replace_fts noteId title content d) =
  notes_fts d ++
    [{| rowid := Sql.next_rowid (notes_fts d); fts_id := noteId;
        fts_title := title; fts_content := content |}].
Proof.
  unfold Sql.insert_or_replace_fts. cbn [notes_fts with_fts rowid].
  rewrite filter_all; [reflexivity |].
  intros x Hx. apply rowid_below_next in Hx.
  apply negb_true_iff, Z.eqb_neq. lia.
Qed.

Lemma updateNote_Ok_read (noteId : string) (updates : NoteUpdates) (now : Z)
  (w w' : world) (note : Note) :
  updateNote noteId updates now w = (Ok note, w') ->
  exists before, readNote noteId w = (Ok (Some before), w).
Proof.
  intros H. destruct (readNote_found_or_not noteId w) as [? | Hno]; [assumption |].
  destruct (updateNote_unread _ _ _ _ _ _ Hno H) as (_ & [? | ?]); discriminate.
Qed.

Lemma note_id_read (noteId : string) (w w' : world) (note : Note) :
  readNote noteId w = (Ok (Some note), w') -> note_id note = noteId.
Proof.
  intros H. apply readNote_Some in H as (row & tags & Hsel & _ & ->).
  now apply select_note_id in Hsel.
Qed.

(** The row that [readNote] finds after a [createNote] that returned. *)
Lemma readNote_created (title content : string) (tags : list string)
  (now : Z) (w w' : world) (note : Note) :
  createNote title content tags now w = (Ok note, w') ->
  note = new_note (vaultPath w) title content tags now /\
  readNote (slug title) w' = (Ok (Some (note_of_row (row_of_note note) tags)), w').
Proof.
  intros H. apply createNote_cases in H.
  destruct H as [(p & Hr & _) | [(_ & _ & _ & [[Hr _] | [Hr _]]) | H]];
    try discriminate.
  destruct H as (_ & _ & Hfresh & _ & _ & _ & Hnotes & _ & [[Hr _] | [Hr _]]);
    [| discriminate].
  injection Hr as ->. split; [reflexivity |].
  apply readNote_written; [| reflexivity].
  unfold Sql.select_note. rewrite Hnotes.
  apply find_app_fresh; [exact Hfresh |].
  unfold Sql.has_id. apply String.eqb_refl.
Qed.

(** No call changes the foreign-key setting of the connection: it is on
    in every store reached from [empty_database]. *)
Lemma foreign_keys_kept :
  (forall title content tags now w w' r,
     createNote title content tags now w = (r, w') ->
     foreign_keys (db w') = foreign_keys (db w)) /\
  (forall noteId updates now w w' r,
     updateNote noteId updates now w = (r, w') ->
     foreign_keys (db w') = foreign_keys (db w)) /\
  (forall noteId w w' r,
     deleteNote noteId w = (r, w') ->
     foreign_keys (db w') = foreign_keys (db w)).
Proof.
  split; [| split].
  - intros title content tags now w w' r H. apply createNote_cases in H.
    destruct H as [(p & _ & _ & _ & ->) | [(_ & _ & -> & _) | H]];
      [reflexivity | reflexivity |].
    now destruct H as (_ & _ & _ & _ & _ & Hfk & _).
  - intros noteId updates now w w' r H.
    destruct (readNote_found_or_not noteId w) as [[before Hread] | Hno].
    + now destruct (updateNote_cases _ _ _ _ _ _ _ Hread H) as (_ & Hfk & _).
    + now destruct (updateNote_unread _ _ _ _ _ _ Hno H) as [-> _].
  - intros noteId w w' r H.
    destruct (readNote_found_or_not noteId w) as [[before Hread] | Hno].
    + destruct (deleteNote_found _ _ _ Hread) as (w2 & Hdel & Hdb & _).
      rewrite Hdel in H. injection H as _ <-. now rewrite Hdb.
    + now rewrite (deleteNote_unread _ _ _ _ Hno H).
Qed.

(** The tag filter keeps the rows whose tags hold the tag, in their
    order. *)
Lemma where_tag_keeps (tag : string) (rows kept : list (fts_row * notes_row)) :
  where_tag tag rows = Some kept ->
  kept = List.filter
           (fun r => match tag_in tag (snd r) with Some b => b | None => false end)
           rows.
Proof.
  revert kept. induction rows as [| r rows IH]; intros kept H.
  - now injection H as <-.
  - cbn [where_tag] in H. cbn [List.filter].
    destruct (tag_in tag (snd r)) as [keep |]; [| discriminate].
    destruct (where_tag tag rows) as [rest |]; [| discriminate].
    injection H as <-. rewrite (IH rest eq_refl). now destruct keep.
Qed.

Lemma tag_in_written (tag : string) (row : notes_row) (tags : list string) :
  col_tags row = Some (JSON.stringify tags) ->
  tag_in tag row = Some (existsb (String.eqb tag) tags).
Proof.
  intros H. unfold tag_in. now rewrite H, JSONFacts.parse_stringify.
Qed.

(** After [deleteNote] the entries of the note are gone, however many
    there were. *)
Lemma deleteNote_clears_search_entries (noteId : string) (w : world) (before : Note) :
  readNote noteId w = (Ok (Some before), w) ->
  exists w', deleteNote noteId w = (Ok true, w') /\
             search_entries noteId (db w') = [].
Proof.
  intros Hread.
  destruct (deleteNote_found _ _ _ Hread) as (w' & Hdel & Hdb & _).
  exists w'. split; [exact Hdel |].
  unfold search_entries. rewrite Hdb.
  cbn [notes_fts Sql.delete_fts with_fts]. apply filter_none.
  intros x Hx. apply filter_In in Hx as [_ Hx]. now apply negb_true_iff in Hx.
Qed.

(** The sibling path: [createNote] writes the mirror file first, and
    stores nothing when the file system refuses the directory or the
    file. *)
Lemma createNote_mirror_first (title content : string) (tags : list string)
  (now : Z) (w : world) :
  (vaultPath w ∈ faulty (disk w)) \/
  (Path.join (vaultPath w) (title +:+ ".md") ∈ faulty (disk w)) ->
  exists p, createNote title content tags now w = (Throw (EIO p), w).
Proof.
  intros Hfaulty.
  destruct (createNote title content tags now w) as [r w'] eqn:H.
  apply createNote_cases in H. cbn [new_note note_path] in H.
  destruct H as [(p & -> & _ & _ & ->) | [(Hv & Hp & _) | (Hv & Hp & _)]];
    [eauto | tauto | tauto].
Qed.

(** With one tag the filter is the one written: the rows kept are the
    joined rows whose tags hold the tag. *)
Lemma search_with_one_tag (hits : string -> fts_row -> bool)
  (rank : string -> list fts_row -> fts_row -> QArith_base.Q)
  (fits : string -> bool)
  (query tag : string) (limit : Z) (w : world) :
  search hits rank fits query (Some [tag]) limit w =
  match select_rows hits rank fits query (Some tag) limit (db w) with
  | inr rows => (Ok (map (result_of_row rank query (notes_fts (db w))) rows), w)
  | inl e => (Throw e, w)
  end.
Proof.
  unfold search. rewrite bind_unfold. unfold prepare_all.
  cbn [app map length placeholders Nat.eqb negb].
  destruct (select_rows hits rank fits query (Some tag) limit (db w)); reflexivity.
Qed.

Lemma search_without_tags (hits : string -> fts_row -> bool)
  (rank : string -> list fts_row -> fts_row -> QArith_base.Q)
  (fits : string -> bool)
  (query : string) (limit : Z) (w : world) :
  search hits rank fits query None limit w =
  match select_rows hits rank fits query None limit (db w) with
  | inr rows => (Ok (map (result_of_row rank query (notes_fts (db w))) rows), w)
  | inl e => (Throw e, w)
  end.
Proof.
  unfold search. rewrite bind_unfold. unfold prepare_all.
  cbn [app map length placeholders Nat.eqb negb].
  destruct (select_rows hits rank fits query None limit (db w)); reflexivity.
Qed.

Lemma search_rejected_query (hits : string -> fts_row -> bool)
  (rank : string -> list fts_row -> fts_row -> QArith_base.Q)
  (fits : string -> bool)
  (query : string) (limit : Z) (w : world) :
  Sql.limit_ok limit = true ->
  Fts5.query_ok query && fits query = false ->
  search hits rank fits query None limit w = (Throw SQLITE_ERROR, w).
Proof.
  intros Hl Hq. rewrite search_without_tags.
  unfold select_rows. now rewrite Hl, Hq.
Qed.

(* ================================================================== *)
(** * The properties of the specification *)




(** C2 does not hold of [updateNote].  It runs its UPDATE before it
    writes the mirror file: when the file cannot be written, the call
    throws the file error, the disk is as it was, and [readNote] already
    returns the note with the new title, content, tags and stamp. *)
Theorem updateNote_stores_before_mirror (noteId : string) (updates : NoteUpdates)
  (now : Z) (w : world) (before : Note) :
  readNote noteId w = (Ok (Some before), w) ->
  (note_path (merge before updates now) ∈ faulty (disk w)) ->
  exists w' stored,
    updateNote noteId updates now w =
      (Throw (EIO (note_path (merge before updates now))), w') /\
    disk w' = disk w /\
    readNote noteId w' = (Ok (Some stored), w') /\
    note_title stored = note_title (merge before updates now) /\
    note_content stored = note_content (merge before updates now) /\
    note_tags stored = note_tags (merge before updates now) /\
    note_modified stored = now.
Proof.
  intros Hread Hfaulty.
  destruct (updateNote noteId updates now w) as [r w'] eqn:H.
  destruct (updateNote_cases _ _ _ _ _ _ _ Hread H)
    as (_ & _ & Hnotes & [(-> & _ & Hdisk & _) | (Hp & _)]); [| contradiction].
  apply readNote_Some in Hread as (row & tags & Hsel & _ & ->).
  eexists w', _. split; [reflexivity |]. split; [exact Hdisk |].
  split; [eapply readNote_after_update; eassumption |].
  repeat split.
Qed.

Lemma updateNote_stores_before_mirror_example :
  exists w' stored,
    updateNote "a" (content_only "second text") 2000 vault_a_readonly =
      (Throw (EIO "/srv/knowledge-vault/A.md"), w') /\
    disk w' = disk vault_a_readonly /\
    readNote "a" w' = (Ok (Some stored), w') /\
    note_title stored = "A" /\
    note_content stored = "second text" /\
    note_tags stored = ["x"] /\
    note_modified stored = 2000.
Proof.
  apply (updateNote_stores_before_mirror "a" (content_only "second text") 2000
           vault_a_readonly
           (note_of_row
              {| col_id := "a"; col_title := "A"; col_content := "first text";
                 col_path := "/srv/knowledge-vault/A.md";
                 col_tags := Some (JSON.stringify ["x"]);
                 col_created := 1000; col_modified := 1000 |} ["x"])).
  - vm_compute. reflexivity.
  - vm_compute. reflexivity.
Defined.

(** C3.  On a connection that enforces foreign keys, [deleteNote] of a
    note that [readNote] finds returns [true], and afterwards no row of
    [links] has the id as its origin or as its target, no row of
    [notes_fts] has the id, and [readNote] finds no note; the rows of
    [links] and [notes_fts] that do not mention the id are all kept. *)
Theorem deleteNote_removes_edges_and_entry (noteId : string) (w : world)
  (before : Note) :
  foreign_keys (db w) = true ->
  readNote noteId w = (Ok (Some before), w) ->
  exists w',
    deleteNote noteId w = (Ok true, w') /\
    (forall l, In l (links (db w')) -> from_id l <> noteId /\ to_id l <> noteId) /\
    (forall f, In f (notes_fts (db w')) -> fts_id f <> noteId) /\
    readNote noteId w' = (Ok None, w') /\
    links (db w') =
      List.filter (fun l => negb (Sql.mentions noteId l)) (links (db w)) /\
    notes_fts (db w') =
      List.filter (fun f => negb (String.eqb (fts_id f) noteId)) (notes_fts (db w)).
Proof.
  intros Hfk Hread.
  destruct (deleteNote_found _ _ _ Hread) as (w' & Hdel & Hdb & _).
  apply readNote_Some in Hread as (row & tags & Hsel & _).
  apply select_note_exists in Hsel.
  exists w'. split; [exact Hdel |].
  rewrite Hdb. unfold Sql.delete_fts, Sql.delete_note.
  cbn [links notes_fts notes with_fts]. rewrite Hfk, Hsel. cbn [andb].
  repeat split.
  - apply filter_In in H as [_ H]. unfold Sql.mentions in H.
    apply negb_true_iff, orb_false_iff in H as [H _].
    now apply String.eqb_neq in H.
  - apply filter_In in H as [_ H]. unfold Sql.mentions in H.
    apply negb_true_iff, orb_false_iff in H as [_ H].
    now apply String.eqb_neq in H.
  - intros f Hf. apply filter_In in Hf as [_ Hf].
    apply negb_true_iff in Hf. now apply String.eqb_neq in Hf.
  - rewrite readNote_unfold. unfold Sql.select_note. rewrite Hdb.
    cbn [notes Sql.delete_fts Sql.delete_note with_fts].
    destruct (List.find _ _) as [x |] eqn:E; [| reflexivity].
    apply find_some in E as [Hin Hx]. apply filter_In in Hin as [_ Hin].
    now rewrite Hx in Hin.
Qed.

Lemma deleteNote_removes_edges_and_entry_example :
  foreign_keys (db vault_ab) = true /\
  length (links (db vault_ab)) = 4%nat /\
  exists w',
    deleteNote "a" vault_ab = (Ok true, w') /\
    (forall l, In l (links (db w')) -> from_id l <> "a" /\ to_id l <> "a") /\
    (forall f, In f (notes_fts (db w')) -> fts_id f <> "a") /\
    readNote "a" w' = (Ok None, w') /\
    links (db w') =
      List.filter (fun l => negb (Sql.mentions "a" l)) (links (db vault_ab)) /\
    notes_fts (db w') =
      List.filter (fun f => negb (String.eqb (fts_id f) "a")) (notes_fts (db vault_ab)).
Proof.
  split; [reflexivity |]. split; [reflexivity |].
  apply (deleteNote_removes_edges_and_entry "a" vault_ab
           (note_of_row
              {| col_id := "a"; col_title := "A";
                 col_content := "see [[b]] and [[b]]";
                 col_path := "/srv/knowledge-vault/A.md";
                 col_tags := Some (JSON.stringify []);
                 col_created := 2000; col_modified := 2000 |} [])).
  - reflexivity.
  - vm_compute. reflexivity.
Defined.

(** C4 does not hold of the code.  [links] has no uniqueness constraint, so
    the OR IGNORE of [createBacklinks] never skips a row: a [createNote]
    or an [updateNote] that returns has added one backlink row from
    [target] to the note for every occurrence of [target] among the
    links of the text, on top of the rows that were there. *)
Theorem backlink_row_per_occurrence :
  (forall title content tags now w w' note target,
     createNote title content tags now w = (Ok note, w') ->
     target <> slug title ->
     length (backlinks target (slug title) (db w')) =
     (length (backlinks target (slug title) (db w))
      + occurrences target (extractLinks content))%nat) /\
  (forall noteId updates now w w' note target,
     updateNote noteId updates now w = (Ok note, w') ->
     target <> noteId ->
     length (backlinks target noteId (db w')) =
     (length (backlinks target noteId (db w))
      + occurrences target (note_links note))%nat).
Proof.
  split.
  - intros title content tags now w w' note target H Hne.
    apply createNote_cases in H.
    destruct H as [(p & Hr & _) | [(_ & _ & _ & [[Hr _] | [Hr _]]) | H]];
      try discriminate.
    destruct H as (_ & _ & _ & _ & _ & _ & _ & _ & [[_ Hl] | [Hr _]]);
      [| discriminate].
    eapply backlinks_after_updateLinks; [exact Hne | reflexivity | exact Hl].
  - intros noteId updates now w w' note target H Hne.
    destruct (updateNote_Ok_read _ _ _ _ _ _ H) as [before Hread].
    pose proof (note_id_read _ _ _ _ Hread) as Hid.
    destruct (updateNote_cases _ _ _ _ _ _ _ Hread H)
      as (_ & _ & _ & [(Hr & _) | (_ & _ & _ & [[Hr Hl] | [Hr _]])]);
      try discriminate.
    injection Hr as ->. cbn [merge note_id] in Hl. rewrite Hid in Hl.
    eapply backlinks_after_updateLinks; [exact Hne | reflexivity | exact Hl].
Qed.

(** The note [A] names [b] twice: two backlink rows from [b] to [a]
    after the create, four after an update that changes nothing. *)
Lemma backlink_rows_duplicated :
  length (backlinks "b" "a" (db vault_b)) = 0%nat /\
  length (backlinks "b" "a" (db vault_ab)) = 2%nat /\
  length (backlinks "b" "a" (db (after (updateNote "a" no_change 3000) vault_ab)))
  = 4%nat.
Proof.
  split; [reflexivity |]. split.
  - refine (eq_trans
              (proj1 backlink_row_per_occurrence "A" "see [[b]] and [[b]]" [] 2000
                 vault_b vault_ab
                 (new_note "/srv/knowledge-vault" "A" "see [[b]] and [[b]]" [] 2000)
                 "b" _ _) _);
      [vm_compute; reflexivity | discriminate | reflexivity].
  - refine (eq_trans
              (proj2 backlink_row_per_occurrence "a" no_change 3000 vault_ab
                 (after (updateNote "a" no_change 3000) vault_ab)
                 (merge (note_of_row
                           (row_of_note
                              (new_note "/srv/knowledge-vault" "A"
                                 "see [[b]] and [[b]]" [] 2000)) [])
                    no_change 3000)
                 "b" _ _) _);
      [vm_compute; reflexivity | discriminate | reflexivity].
Defined.

(** C5 does not hold of the code.  The REPLACE of [indexNoteInFTS] has no key
    to replace on: every [updateNote] that returns has added one more
    entry with the id of the note to [notes_fts], and removed none. *)
Theorem updateNote_adds_search_entry (noteId : string) (updates : NoteUpdates)
  (now : Z) (w w' : world) (note : Note) :
  updateNote noteId updates now w = (Ok note, w') ->
  length (search_entries noteId (db w')) =
  S (length (search_entries noteId (db w))).
Proof.
  intros H.
  destruct (updateNote_Ok_read _ _ _ _ _ _ H) as [before Hread].
  pose proof (note_id_read _ _ _ _ Hread) as Hid.
  destruct (updateNote_cases _ _ _ _ _ _ _ Hread H)
    as (_ & _ & _ & [(Hr & _) | (_ & _ & Hfts & _)]); [discriminate |].
  unfold search_entries. rewrite Hfts, insert_or_replace_fts_appends.
  rewrite List.filter_app, length_app. cbn [merge note_id List.filter fts_id].
  rewrite Hid, String.eqb_refl. cbn [length]. lia.
Qed.

(** One note, created and then updated once: two search entries. *)
Lemma updateNote_adds_search_entry_example :
  length (search_entries "a" (db vault_a)) = 1%nat /\
  length (search_entries "a"
            (db (after (updateNote "a" (content_only "second text") 2000) vault_a)))
  = 2%nat.
Proof.
  split; [reflexivity |].
  refine (eq_trans
            (updateNote_adds_search_entry "a" (content_only "second text") 2000
               vault_a
               (after (updateNote "a" (content_only "second text") 2000) vault_a)
               (merge (note_of_row
                         (row_of_note
                            (new_note "/srv/knowledge-vault" "A" "first text" ["x"] 1000))
                         ["x"])
                  (content_only "second text") 2000) _) _);
    [vm_compute; reflexivity | reflexivity].
Defined.

(** C6 does not hold of the code.  [search] adds one [?] for the tag filter
    and binds every tag: with two tags or more the statement is given
    more values than it has placeholders, and the call throws. *)
Theorem search_with_two_tags_throws (hits : string -> fts_row -> bool)
  (rank : string -> list fts_row -> fts_row -> QArith_base.Q)
  (fits : string -> bool)
  (query : string) (tags : list string)
  (limit : Z) (w : world) :
  (2 <= length tags)%nat ->
  search hits rank fits query (Some tags) limit w = (Throw RangeError, w).
Proof.
  intros Hlen. destruct tags as [| t1 [| t2 tags]]; cbn in Hlen; try lia.
  unfold search. rewrite bind_unfold. unfold prepare_all.
  cbn [app map length placeholders]. rewrite !length_app, length_map.
  cbn [length].
  match goal with
  | |- context [Nat.eqb ?a ?b] => destruct (Nat.eqb a b) eqn:E
  end; [apply Nat.eqb_eq in E; lia | reflexivity].
Qed.

Lemma search_with_two_tags_throws_example :
  search exact_hits flat_rank short_query "first text" (Some ["x"; "y"]) 50 vault_a
  = (Throw RangeError, vault_a).
Proof.
  apply (search_with_two_tags_throws exact_hits flat_rank short_query "first text"
           ["x"; "y"] 50 vault_a).
  simpl. lia.
Defined.

(** The same search with the one tag the note carries finds the note. *)
Example search_with_one_tag_example :
  map res_noteId
    (match fst (search exact_hits flat_rank short_query "first text" (Some ["x"]) 50 vault_a) with
     | Ok results => results
     | Throw _ => []
     end) = ["a"].
Proof. vm_compute. reflexivity. Qed.




(** C8, as the code has it.  [updateNote] on a note that [readNote]
    finds: however the call ends, the note is still there with the same
    id and the same [created] stamp, and its [modified] stamp is the
    reading of the clock taken by the call, whatever the stamp was
    before. *)
Theorem updateNote_keeps_id_and_created (noteId : string) (updates : NoteUpdates)
  (now : Z) (w w' : world) (before : Note) (r : outcome Note) :
  readNote noteId w = (Ok (Some before), w) ->
  updateNote noteId updates now w = (r, w') ->
  exists after_update,
    readNote noteId w' = (Ok (Some after_update), w') /\
    note_id after_update = note_id before /\
    note_created after_update = note_created before /\
    note_modified after_update = now.
Proof.
  intros Hread H.
  destruct (updateNote_cases _ _ _ _ _ _ _ Hread H) as (_ & _ & Hnotes & _).
  apply readNote_Some in Hread as (row & tags & Hsel & _ & ->).
  eexists. split; [eapply readNote_after_update; eassumption |].
  repeat split.
Qed.

Lemma updateNote_keeps_id_and_created_example :
  exists after_update,
    readNote "a" (after (updateNote "a" (content_only "second text") 2000) vault_a)
    = (Ok (Some after_update),
       after (updateNote "a" (content_only "second text") 2000) vault_a) /\
    note_id after_update = note_id note_a /\
    note_created after_update = note_created note_a /\
    note_modified after_update = 2000.
Proof.
  apply (updateNote_keeps_id_and_created "a" (content_only "second text") 2000
           vault_a
           (after (updateNote "a" (content_only "second text") 2000) vault_a)
           note_a
           (fst (updateNote "a" (content_only "second text") 2000 vault_a))).
  - vm_compute. reflexivity.
  - unfold after. destruct (updateNote _ _ _ _). reflexivity.
Defined.

(** C8 as stated fails: the stamp is the reading of the clock, which the
    code compares with nothing.  An update of the note [A], modified at
    1000, by a call that reads 500 on the clock returns, and the note
    is then modified at 500. *)
Lemma updateNote_clock_set_back :
  note_modified note_a = 1000 /\
  exists updated after_update,
    updateNote "a" (content_only "second text") 500 vault_a =
      (Ok updated, after (updateNote "a" (content_only "second text") 500) vault_a) /\
    readNote "a" (after (updateNote "a" (content_only "second text") 500) vault_a)
    = (Ok (Some after_update),
       after (updateNote "a" (content_only "second text") 500) vault_a) /\
    note_modified after_update = 500.
Proof.
  split; [reflexivity |]. eexists _, _.
  split; [vm_compute; reflexivity |]. split; [vm_compute; reflexivity |].
  reflexivity.
Qed.




(** C10, as the code has it.  A write request whose [noteId] and [title]
    are both missing (or empty) goes to [createNote] with the title
    [Untitled].  On a store where the vault directory and the file
    [Untitled.md] can be written, the id [untitled] and the path of that
    file are free and the links of the text can be stored, the call
    returns a note with the title [Untitled] and the id [untitled], and
    [readNote] finds it with the content of the request; every later
    request of that kind on the store reached is then refused, leaving
    the three relations as they are -- refused for the path of the
    file, which SQLite checks before the id. *)
Theorem toolWriteNote_untitled (request : NoteWriteRequest) (now : Z) (w : world) :
  truthy (req_noteId request) = false ->
  truthy (req_title request) = false ->
  (vaultPath w ∉ faulty (disk w)) ->
  (Path.join (vaultPath w) "Untitled.md" ∉ faulty (disk w)) ->
  Sql.id_exists "untitled" (db w) = false ->
  Sql.path_exists (Path.join (vaultPath w) "Untitled.md") (db w) = false ->
  (foreign_keys (db w) = true ->
   forall link, In link (extractLinks (req_content request)) ->
     link_to link = "untitled" \/ Sql.id_exists (link_to link) (db w) = true) ->
  exists note w1,
    toolWriteNote request now w = (Ok note, w1) /\
    note_title note = "Untitled" /\
    note_id note = "untitled" /\
    (exists stored,
       readNote "untitled" w1 = (Ok (Some stored), w1) /\
       note_title stored = "Untitled" /\
       note_content stored = req_content request) /\
    forall (request2 : NoteWriteRequest) (now2 : Z),
      truthy (req_noteId request2) = false ->
      truthy (req_title request2) = false ->
      exists w2,
        toolWriteNote request2 now2 w1 = (Throw SQLITE_CONSTRAINT_UNIQUE, w2) /\
        db w2 = db w1.
Proof.
  intros Hid Htitle Hvault Hfile Hnew Hpath Hlinks.
  assert (Hcreate : forall (req : NoteWriteRequest) (t : Z) (v : world),
             truthy (req_noteId req) = false -> truthy (req_title req) = false ->
             toolWriteNote req t v =
             createNote "Untitled" (req_content req) (default [] (req_tags req)) t v).
  { intros req t v H1 H2. unfold toolWriteNote. now rewrite H1, or_else_falsy. }
  destruct (createNote_returns "Untitled" (req_content request)
              (default [] (req_tags request)) now w Hvault Hfile Hnew Hpath Hlinks)
    as [w1 H].
  pose proof (readNote_created _ _ _ _ _ _ _ H) as [_ Hread].
  eexists _, w1. split; [rewrite Hcreate by assumption; exact H |].
  apply createNote_cases in H.
  destruct H as [(p & Hr & _) | [(_ & _ & _ & [[Hr _] | [Hr _]]) | H]];
    try discriminate.
  destruct H as (_ & _ & _ & Hv1 & Hd1 & _ & Hnotes & _).
  cbn [new_note note_title note_id].
  change (slug "Untitled") with "untitled" in *.
  split; [reflexivity |]. split; [reflexivity |].
  split; [eexists; split; [exact Hread |]; split; reflexivity |].
  intros request2 now2 Hid2 Htitle2.
  rewrite Hcreate by assumption.
  destruct (createNote "Untitled" (req_content request2)
              (default [] (req_tags request2)) now2 w1) as [r2 w2] eqn:E2.
  exists w2. apply createNote_cases in E2.
  cbn [new_note note_path] in *.
  assert (Hex : Sql.path_exists (Path.join (vaultPath w1) ("Untitled" +:+ ".md"))
                  (db w1) = true).
  { unfold Sql.path_exists. rewrite Hnotes, Hv1, existsb_app.
    cbn [existsb row_of_note col_path]. rewrite String.eqb_refl.
    cbn [orb]. apply orb_true_r. }
  rewrite Hd1 in E2. cbn [faulty files] in E2.
  destruct E2 as [(p & _ & Hin & [-> | ->] & _) | [E2 | E2]].
  - rewrite Hv1 in Hin. contradiction.
  - rewrite Hv1 in Hin. contradiction.
  - destruct E2 as (_ & _ & -> & [[-> _] | (_ & Hno & _)]); [| congruence].
    split; reflexivity.
  - exfalso. destruct E2 as (_ & _ & Hno & _).
    assert (Hid1 : Sql.id_exists "untitled" (db w1) = true).
    { unfold Sql.id_exists. rewrite Hnotes, existsb_app. cbn.
      apply orb_true_r. }
    change (slug "Untitled") with "untitled" in Hno. congruence.
Qed.

Lemma toolWriteNote_untitled_example :
  exists note w1,
    toolWriteNote (untitled_request "one") 1000 fresh_vault = (Ok note, w1) /\
    note_title note = "Untitled" /\
    note_id note = "untitled" /\
    (exists stored,
       readNote "untitled" w1 = (Ok (Some stored), w1) /\
       note_title stored = "Untitled" /\
       note_content stored = req_content (untitled_request "one")) /\
    forall (request2 : NoteWriteRequest) (now2 : Z),
      truthy (req_noteId request2) = false ->
      truthy (req_title request2) = false ->
      exists w2,
        toolWriteNote request2 now2 w1 = (Throw SQLITE_CONSTRAINT_UNIQUE, w2) /\
        db w2 = db w1.
Proof.
  apply (toolWriteNote_untitled (untitled_request "one") 1000 fresh_vault).
  - reflexivity.
  - reflexivity.
  - vm_compute. intros H. discriminate H.
  - vm_compute. intros H. discriminate H.
  - reflexivity.
  - reflexivity.
  - intros _ link Hin. vm_compute in Hin. destruct Hin.
Defined.

(** C10 as stated fails in the error it names: of the two requests run
    one after the other on a fresh vault, the second creates no note and
    is refused, but by the UNIQUE index on [path], not by the PRIMARY
    KEY on [id]. *)
Lemma toolWriteNote_untitled_twice :
  fst (toolWriteNote (untitled_request "one") 1000 fresh_vault)
  = Ok (new_note "/srv/knowledge-vault" "Untitled" "one" [] 1000) /\
  fst (toolWriteNote (untitled_request "two") 2000
         (after (toolWriteNote (untitled_request "one") 1000) fresh_vault))
  = Throw SQLITE_CONSTRAINT_UNIQUE /\
  fst (toolWriteNote (untitled_request "two") 2000
         (after (toolWriteNote (untitled_request "one") 1000) fresh_vault))
  <> Throw SQLITE_CONSTRAINT_PRIMARYKEY /\
  map col_content
    (notes (db (after (toolWriteNote (untitled_request "two") 2000)
                  (after (toolWriteNote (untitled_request "one") 1000) fresh_vault))))
  = ["one"].
Proof. vm_compute. repeat split. discriminate. Qed.

(* ================================================================== *)
(** * Further facts: ids and links *)

Lemma lower_char_not_upper (c : ascii) : Str.is_upper (Str.lower_char c) = false.
Proof. destruct c as [[] [] [] [] [] [] [] []]; reflexivity. Qed.

Lemma lower_char_fixed (c : ascii) :
  Str.is_upper c = false -> Str.lower_char c = c.
Proof. unfold Str.lower_char. now intros ->. Qed.

Lemma toLowerCase_chars (s : string) (c : ascii) :
  In c (list_ascii_of_string (Str.toLowerCase s)) -> Str.is_upper c = false.
Proof.
  induction s as [| x s IH]; [contradiction |].
  cbn [Str.toLowerCase list_ascii_of_string]. intros [<- | H]; [| auto].
  apply lower_char_not_upper.
Qed.

Lemma replace_spaces_chars (in_run : bool) (s : string) (c : ascii) :
  In c (list_ascii_of_string (Str.replace_spaces in_run s)) ->
  Str.is_space c = false /\ (c = "-"%char \/ In c (list_ascii_of_string s)).
Proof.
  revert in_run. induction s as [| x s IH]; intros in_run; [contradiction |].
  cbn [Str.replace_spaces]. destruct (Str.is_space x) eqn:Ex.
  - destruct in_run.
    + intros H. apply IH in H as [H1 [H2 | H2]]; cbn [list_ascii_of_string In]; auto.
    + cbn [list_ascii_of_string In]. intros [<- | H]; [split; [reflexivity | now left] |].
      apply IH in H as [H1 [H2 | H2]]; auto.
  - cbn [list_ascii_of_string In]. intros [<- | H]; [auto |].
    apply IH in H as [H1 [H2 | H2]]; auto.
Qed.

Lemma toLowerCase_id (s : string) :
  (forall c, In c (list_ascii_of_string s) -> Str.is_upper c = false) ->
  Str.toLowerCase s = s.
Proof.
  induction s as [| x s IH]; intros H; [reflexivity |].
  cbn [Str.toLowerCase]. rewrite lower_char_fixed by (apply H; now left).
  f_equal. apply IH. intros c Hc. apply H. now right.
Qed.

Lemma replace_spaces_id (in_run : bool) (s : string) :
  (forall c, In c (list_ascii_of_string s) -> Str.is_space c = false) ->
  Str.replace_spaces in_run s = s.
Proof.
  revert in_run. induction s as [| x s IH]; intros in_run H; [reflexivity |].
  cbn [Str.replace_spaces]. rewrite (H x) by now left.
  f_equal. apply IH. intros c Hc. apply H. now right.
Qed.

Lemma slug_chars (title : string) (c : ascii) :
  In c (list_ascii_of_string (slug title)) ->
  Str.is_space c = false /\ Str.is_upper c = false.
Proof.
  unfold slug. intros H. apply replace_spaces_chars in H as [Hs [-> | H]].
  - split; [exact Hs | reflexivity].
  - split; [exact Hs |]. now apply toLowerCase_chars in H.
Qed.

(** The group of the link pattern holds no closing bracket. *)
Lemma span_target_spec (s g r : string) :
  span_target s = (g, r) ->
  s = g +:+ r /\
  (forall c, In c (list_ascii_of_string g) -> c <> "]"%char) /\
  (r = "" \/ exists r', r = String "]" r').
Proof.
  revert g r. induction s as [| c t IH]; intros g r H.
  - injection H as <- <-. repeat split; [contradiction | now left].
  - cbn [span_target] in H. destruct (Ascii.eqb c "]") eqn:Ec.
    + injection H as <- <-. apply Ascii.eqb_eq in Ec as ->.
      repeat split; [contradiction | right; eauto].
    + destruct (span_target t) as [g' r'] eqn:E. injection H as <- <-.
      destruct (IH g' r' eq_refl) as (-> & Hg & Hr).
      repeat split; [| exact Hr].
      cbn [list_ascii_of_string In]. intros x [<- | Hx]; [| auto].
      now apply Ascii.eqb_neq in Ec.
Qed.

Lemma span_target_app (g r : string) :
  (forall c, In c (list_ascii_of_string g) -> c <> "]"%char) ->
  span_target (g +:+ String "]" r) = (g, String "]" r).
Proof.
  induction g as [| c g IH]; intros H; [reflexivity |].
  rewrite append_cons. cbn [span_target].
  destruct (Ascii.eqb c "]") eqn:Ec.
  - apply Ascii.eqb_eq in Ec. exfalso. apply (H c); [now left | exact Ec].
  - rewrite IH; [reflexivity |]. intros x Hx. apply H. now right.
Qed.

Lemma match_link_spec (s target r : string) :
  match_link s = Some (target, r) ->
  s = "[[" +:+ target +:+ "]]" +:+ r /\
  target <> "" /\
  (forall c, In c (list_ascii_of_string target) -> c <> "]"%char).
Proof.
  intros H. destruct s as [| a [| b t]]; [discriminate | |].
  { destruct a as [[] [] [] [] [] [] [] []]; discriminate. }
  destruct a as [[] [] [] [] [] [] [] []]; try discriminate;
    destruct b as [[] [] [] [] [] [] [] []]; try discriminate.
  cbn [match_link] in H.
  destruct (span_target t) as [g r0] eqn:E.
  apply span_target_spec in E as (-> & Hg & _).
  destruct g as [| c g]; [discriminate |].
  destruct r0 as [| x [| y r1]]; [discriminate | |].
  { destruct x as [[] [] [] [] [] [] [] []]; discriminate. }
  destruct x as [[] [] [] [] [] [] [] []]; try discriminate;
    destruct y as [[] [] [] [] [] [] [] []]; try discriminate.
  injection H as <- <-. repeat split; [discriminate | exact Hg].
Qed.

Lemma match_link_head (target r : string) :
  target <> "" ->
  (forall c, In c (list_ascii_of_string target) -> c <> "]"%char) ->
  match_link ("[[" +:+ target +:+ "]]" +:+ r) = Some (target, r).
Proof.
  intros Hne Hc.
  change ("[[" +:+ target +:+ "]]" +:+ r)
    with (String "[" (String "[" (target +:+ String "]" (String "]" r)))).
  cbn [match_link]. rewrite span_target_app by exact Hc.
  destruct target; [congruence | reflexivity].
Qed.

Lemma match_link_not_bracket (c : ascii) (s : string) :
  c <> "["%char -> match_link (String c s) = None.
Proof.
  intros H. destruct c as [[] [] [] [] [] [] [] []]; try reflexivity.
  now destruct H.
Qed.

Lemma extractLinks_skip (plain s : string) :
  (forall c, In c (list_ascii_of_string plain) -> c <> "["%char) ->
  extractLinks (plain +:+ s) = extractLinks s.
Proof.
  induction plain as [| c plain IH]; intros H; [reflexivity |].
  rewrite append_cons, extractLinks_unfold.
  rewrite match_link_not_bracket by (apply H; now left).
  apply IH. intros x Hx. apply H. now right.
Qed.

(* ================================================================== *)
(** * Further facts: createNote, getLinks *)

Lemma forEach_insert_link_Ok_inv (or_ignore : bool)
  (row_of : NoteLink -> links_row) (ls : list NoteLink) :
  forall w w',
    forEach (fun link => run (Sql.insert_link or_ignore (row_of link))) ls w
    = (Ok tt, w') ->
    forall link, In link ls -> fk_ok (row_of link) (db w) = true.
Proof.
  induction ls as [| x ls IH]; intros w w' H link Hin; [contradiction |].
  cbn [forEach] in H. rewrite bind_unfold in H.
  destruct (run _ w) as [[[] | e] w1] eqn:E1; [| discriminate].
  assert (Hx : fk_ok (row_of x) (db w) = true).
  { unfold run, Sql.insert_link in E1.
    cbn [Sql.conflicts Sql.links_unique_keys existsb] in E1. unfold fk_ok.
    destruct (foreign_keys (db w)); [| reflexivity]. cbn [negb orb andb] in *.
    destruct (Sql.id_exists (from_id (row_of x)) (db w)
              && Sql.id_exists (to_id (row_of x)) (db w)); [reflexivity |].
    discriminate. }
  destruct Hin as [<- | Hin]; [exact Hx |].
  apply run_insert_link_spec in E1 as [(_ & _ & Hf & Hn & _) _].
  specialize (IH _ _ H link Hin).
  unfold fk_ok, Sql.id_exists in *. now rewrite Hf, Hn in IH.
Qed.

Lemma updateLinks_Ok_inv (note : Note) (w w' : world) :
  updateLinks note w = (Ok tt, w') ->
  forall link, In link (note_links note) ->
    fk_ok (reference_row (note_id note) link) (db w) = true.
Proof.
  unfold updateLinks. rewrite bind_unfold. unfold run_total at 1.
  rewrite bind_unfold. intros H link Hin.
  match type of H with
  | context [forEach ?f (note_links note) ?w0] =>
      destruct (forEach f (note_links note) w0) as [[[] | e] w1] eqn:E1;
        [| discriminate]
  end.
  apply (forEach_insert_link_Ok_inv false (reference_row (note_id note))) with (link := link)
    in E1; [| exact Hin].
  exact E1.
Qed.

(** A [createNote] whose row is refused: the file is written, the store
    is as it was. *)
Lemma createNote_refused_at_insert (title content : string)
  (tags : list string) (now : Z) (w : world) :
  let note := new_note (vaultPath w) title content tags now in
  Sql.id_exists (slug title) (db w) = true \/
  Sql.path_exists (note_path note) (db w) = true ->
  (vaultPath w ∉ faulty (disk w)) ->
  (note_path note ∉ faulty (disk w)) ->
  createNote title content tags now w =
  (Throw (if Sql.path_exists (note_path note) (db w)
          then SQLITE_CONSTRAINT_UNIQUE
          else SQLITE_CONSTRAINT_PRIMARYKEY),
   with_files (<[note_path note := formatNoteAsMarkdown note]> (files (disk w))) w).
Proof.
  intros note Htaken Hv Hp.
  unfold createNote.
  change (Build_Note (slug title) title content
            (Path.join (vaultPath w) (title +:+ ".md")) tags now now
            (extractLinks content)) with note.
  rewrite bind_unfold. unfold Fs.ensureDir.
  rewrite bool_decide_eq_false_2 by exact Hv.
  rewrite bind_unfold. unfold Fs.writeFile.
  rewrite bool_decide_eq_false_2 by exact Hp.
  rewrite bind_unfold. unfold run at 1. cbn [db with_files].
  unfold Sql.insert_note. cbn [col_id col_path].
  change (note_id note) with (slug title).
  destruct (Sql.path_exists (note_path note) (db w)); [reflexivity |].
  destruct Htaken as [-> | Hx]; [reflexivity | discriminate].
Qed.

(** What a [createNote] that returned has gone through. *)
Lemma createNote_Ok_inv (title content : string) (tags : list string) (now : Z)
  (w w' : world) (note : Note) :
  createNote title content tags now w = (Ok note, w') ->
  note = new_note (vaultPath w) title content tags now /\
  Sql.id_exists (slug title) (db w) = false /\
  existsb (fun x => String.eqb (col_path x) (note_path note)) (notes (db w)) = false /\
  exists w2,
    notes (db w2) = notes (db w) ++ [row_of_note note] /\
    foreign_keys (db w2) = foreign_keys (db w) /\
    updateLinks note w2 = (Ok tt, w').
Proof.
  intros H. unfold createNote in H.
  set (n := new_note (vaultPath w) title content tags now).
  change (Build_Note (slug title) title content
            (Path.join (vaultPath w) (title +:+ ".md")) tags now now
            (extractLinks content)) with n in H.
  rewrite bind_unfold in H.
  destruct (Fs.ensureDir _ w) as [[[] | e] w1] eqn:E1;
    apply ensureDir_spec in E1 as [-> _]; [| discriminate].
  rewrite bind_unfold in H.
  destruct (Fs.writeFile _ _ w) as [[[] | e] w1] eqn:E2;
    apply writeFile_spec in E2 as [(_ & _ & ->) | (Hr2 & _)];
    try discriminate.
  rewrite bind_unfold in H. unfold run in H at 1. cbn [db with_files] in H.
  change (Sql.insert_note _ (db w)) with (Sql.insert_note (row_of_note n) (db w)) in H.
  unfold Sql.insert_note, Sql.path_exists in H.
  cbn [col_id col_path row_of_note] in H.
  change (note_id n) with (slug title) in H.
  destruct (existsb _ (notes (db w))) eqn:Hpath; [discriminate |].
  destruct (Sql.id_exists (slug title) (db w)) eqn:Hid; [discriminate |].
  rewrite bind_unfold in H. unfold indexNoteInFTS in H. unfold run_total in H at 1.
  rewrite bind_unfold in H.
  match type of H with
  | context [updateLinks n ?w2] =>
      destruct (updateLinks n w2) as [[[] | e] w3] eqn:E3; [| discriminate];
        injection H as <- <-;
        repeat split; [exact Hpath |]; exists w2
  end.
  repeat split. exact E3.
Qed.

Lemma limit_rows_length {A : Type} (limit : Z) (rows : list A) :
  0 <= limit -> (length (limit_rows limit rows) <= Z.to_nat limit)%nat.
Proof.
  intros H. unfold limit_rows.
  destruct (limit <? 0) eqn:E; [apply Z.ltb_lt in E; lia |].
  rewrite length_firstn. lia.
Qed.

Lemma limit_rows_unbounded {A : Type} (limit : Z) (rows : list A) :
  unbounded limit (length rows) -> limit_rows limit rows = rows.
Proof.
  unfold unbounded, limit_rows. intros [H | H].
  - apply Z.ltb_lt in H. now rewrite H.
  - destruct (limit <? 0); [reflexivity |]. now apply firstn_all2.
Qed.

Lemma firstn_In {A : Type} (n : nat) (l : list A) (x : A) :
  In x (firstn n l) -> In x l.
Proof.
  revert l. induction n as [| n IH]; intros [| y l] H; try contradiction.
  cbn [firstn In] in *. destruct H as [-> | H]; auto.
Qed.

Lemma limit_rows_In {A : Type} (limit : Z) (rows : list A) (x : A) :
  In x (limit_rows limit rows) -> In x rows.
Proof.
  unfold limit_rows. destruct (limit <? 0); [auto |]. apply firstn_In.
Qed.

(** [getLinks] always gives its statement as many values as it has
    placeholders. *)
Lemma getLinks_unfold (noteId : string) (dir : direction) (limit : Z) (w : world) :
  getLinks noteId dir limit w =
  (if Sql.limit_ok limit
   then Ok {| graph_links := limit_rows limit (selected dir noteId (db w));
              totalCount :=
                length (limit_rows limit (selected dir noteId (db w))) |}
   else Throw SQLITE_MISMATCH, w).
Proof.
  destruct dir; unfold getLinks; rewrite bind_unfold;
    unfold graph_all, limited;
    cbn [app length graph_placeholders List.filter Nat.eqb negb selected];
    destruct (Sql.limit_ok limit); reflexivity.
Qed.

Lemma filter_filter_negb {A : Type} (p : A -> bool) (l : list A) :
  List.filter p (List.filter (fun x => negb (p x)) l) = [].
Proof.
  apply filter_none. intros x Hx. apply filter_In in Hx as [_ Hx].
  now apply negb_true_iff in Hx.
Qed.

Lemma outgoing_reference (noteId : string) (link : NoteLink) :
  outgoing_link (reference_row noteId link) = link.
Proof. now destruct link. Qed.

(** The outgoing rows of a note whose links have just been written. *)
Lemma select_outgoing_written (noteId : string) (ls : list NoteLink)
  (old : list links_row) (d : database) :
  links d =
    List.filter (fun l => negb (String.eqb (from_id l) noteId)) old
      ++ map (reference_row noteId) ls ++ map (backlink_row noteId) ls ->
  select_outgoing noteId d =
  ls ++ map (fun link => outgoing_link (backlink_row noteId link))
          (List.filter (fun link => String.eqb (link_to link) noteId) ls).
Proof.
  intros H. unfold select_outgoing. rewrite H, !List.filter_app, !map_app.
  rewrite (filter_filter_negb (fun l => String.eqb (from_id l) noteId)).
  cbn [map app]. f_equal.
  - rewrite filter_all.
    + rewrite map_map. rewrite <- (map_id ls) at 2.
      apply map_ext. apply outgoing_reference.
    + intros x Hx. apply in_map_iff in Hx as (link & <- & _).
      apply String.eqb_refl.
  - clear H. induction ls as [| link ls IH]; [reflexivity |].
    cbn [map List.filter backlink_row from_id].
    destruct (String.eqb (link_to link) noteId); cbn [map]; now rewrite IH.
Qed.

(* ================================================================== *)
(** * Further facts: listNotes *)

Lemma insert_by_modified_perm (r : notes_row) (l : list notes_row) :
  Permutation.Permutation (insert_by_modified r l) (r :: l).
Proof.
  induction l as [| x l IH]; [reflexivity |].
  cbn [insert_by_modified]. destruct (col_modified x <=? col_modified r).
  - reflexivity.
  - rewrite IH. apply Permutation.perm_swap.
Qed.

Lemma order_by_modified_perm (l : list notes_row) :
  Permutation.Permutation (order_by_modified l) l.
Proof.
  induction l as [| r l IH]; [reflexivity |].
  cbn [order_by_modified fold_right]. fold (order_by_modified l).
  rewrite insert_by_modified_perm. now apply Permutation.perm_skip.
Qed.

Lemma insert_by_modified_sorted (r : notes_row) (l : list notes_row) :
  Sorted.StronglySorted (fun a b => col_modified b <= col_modified a) l ->
  Sorted.StronglySorted (fun a b => col_modified b <= col_modified a)
    (insert_by_modified r l).
Proof.
  induction l as [| x l IH]; intros H.
  - repeat constructor.
  - cbn [insert_by_modified].
    apply Sorted.StronglySorted_inv in H as [Hl Hx].
    destruct (col_modified x <=? col_modified r) eqn:E.
    + apply Z.leb_le in E. constructor; [now constructor |].
      constructor; [exact E |].
      eapply Forall_impl; [exact Hx |]. cbn. intros y Hy. lia.
    + apply Z.leb_gt in E. constructor; [now apply IH |].
      apply (Permutation.Permutation_Forall
               (Permutation.Permutation_sym (insert_by_modified_perm r l))).
      constructor; [lia | exact Hx].
Qed.

Lemma order_by_modified_sorted (l : list notes_row) :
  Sorted.StronglySorted (fun a b => col_modified b <= col_modified a)
    (order_by_modified l).
Proof.
  induction l as [| r l IH]; [constructor |].
  cbn [order_by_modified fold_right]. now apply insert_by_modified_sorted.
Qed.

Lemma StronglySorted_map {A B : Type} (R : B -> B -> Prop) (f : A -> B)
  (l : list A) :
  Sorted.StronglySorted (fun a b => R (f a) (f b)) l ->
  Sorted.StronglySorted R (map f l).
Proof.
  induction 1 as [| x l Hl IH Hx]; [constructor |].
  cbn [map]. constructor; [exact IH |].
  apply Forall_map. exact Hx.
Qed.

Lemma light_notes_spec (rows : list notes_row) (listed : list Note) :
  light_notes rows = Some listed ->
  map note_id listed = map col_id rows /\
  map note_modified listed = map col_modified rows /\
  Forall (fun n => note_content n = "" /\ note_links n = []) listed.
Proof.
  revert listed. induction rows as [| row rows IH]; intros listed H.
  - injection H as <-. repeat split. constructor.
  - cbn [light_notes] in H.
    destruct (JSON.parse _) as [tags |]; [| discriminate].
    destruct (light_notes rows) as [rest |]; [| discriminate].
    injection H as <-. destruct (IH rest eq_refl) as (H1 & H2 & H3).
    cbn [map light_note note_id note_modified]. rewrite H1, H2.
    repeat split. constructor; [split; reflexivity | exact H3].
Qed.

Lemma listNotes_unfold (w : world) :
  listNotes w =
  (match light_notes (order_by_modified (notes (db w))) with
   | Some listed => Ok listed
   | None => Throw SyntaxError
   end, w).
Proof.
  unfold listNotes. rewrite bind_unfold. unfold fetch.
  destruct (light_notes _); reflexivity.
Qed.

(** The first row of the ordered table is one of the newest. *)
Lemma order_by_modified_head (l : list notes_row) (x : notes_row)
  (rest : list notes_row) :
  order_by_modified l = x :: rest ->
  In x l /\ forall y, In y l -> col_modified y <= col_modified x.
Proof.
  intros H. pose proof (order_by_modified_perm l) as Hp.
  pose proof (order_by_modified_sorted l) as Hs. rewrite H in Hp, Hs.
  split.
  - eapply Permutation.Permutation_in; [exact Hp | now left].
  - intros y Hy.
    apply (Permutation.Permutation_in _ (Permutation.Permutation_sym Hp)) in Hy.
    apply Sorted.StronglySorted_inv in Hs as [_ Hx].
    destruct Hy as [<- | Hy]; [apply Z.le_refl |].
    rewrite Forall_forall in Hx. apply Hx. now apply list_elem_of_In.
Qed.

(* ================================================================== *)
(** * Further facts: deleteNote, updateNote, the facade *)

Lemma deleteNote_found_disk (noteId : string) (w : world) (before : Note) :
  readNote noteId w = (Ok (Some before), w) ->
  exists w',
    deleteNote noteId w = (Ok true, w') /\
    db w' = Sql.delete_fts noteId (Sql.delete_note noteId (db w)) /\
    files (disk w') =
      (if bool_decide (note_path before ∈ faulty (disk w))
       then files (disk w)
       else delete (note_path before) (files (disk w))).
Proof.
  intros Hread. unfold deleteNote. rewrite bind_unfold, Hread.
  rewrite bind_unfold. unfold run_total at 1.
  rewrite bind_unfold. unfold run_total at 1.
  rewrite bind_unfold. unfold try_catch, Fs.unlink.
  cbn [disk with_db faulty files].
  case_bool_decide.
  - eexists. split; [reflexivity |]. split; reflexivity.
  - destruct (files (disk w) !! note_path before) eqn:E.
    + eexists. split; [reflexivity |]. split; reflexivity.
    + eexists. split; [reflexivity |]. split; [reflexivity |].
      cbn [disk with_db files]. symmetry. now apply delete_id.
Qed.

Lemma find_filter_other {A : Type} (p q : A -> bool) (l : list A) :
  (forall x, p x = true -> q x = true) ->
  List.find p (List.filter q l) = List.find p l.
Proof.
  intros H. induction l as [| x l IH]; [reflexivity |].
  cbn [List.filter List.find]. destruct (q x) eqn:Eq.
  - cbn [List.find]. now rewrite IH.
  - destruct (p x) eqn:Ep; [| exact IH]. apply H in Ep. congruence.
Qed.

Lemma normalize_not_empty (p : string) : Str.is_empty (Path.normalize p) = false.
Proof.
  unfold Path.normalize. destruct (Str.is_empty p); [reflexivity |].
  match goal with
  | |- context [Str.join "/" ?segs] => destruct (Str.join "/" segs) as [| c body]
  end; cbn [Str.is_empty].
  - destruct (Str.starts_with "/" p); [reflexivity |].
    now destruct (match Str.last_char p with Some c => _ | None => _ end).
  - destruct (match Str.last_char p with Some c0 => _ | None => _ end);
      destruct (Str.starts_with "/" p); reflexivity.
Qed.

Lemma note_path_not_empty (vault title : string) :
  Str.is_empty (Path.join vault (title +:+ ".md")) = false.
Proof.
  unfold Path.join.
  assert (H : Str.is_empty (title +:+ ".md") = false) by now destruct title.
  rewrite H. destruct (Str.is_empty vault); apply normalize_not_empty.
Qed.

(** The row that [updateNote] leaves is the one [readNote] then finds. *)
Lemma updateNote_Ok_stored (noteId : string) (updates : NoteUpdates) (now : Z)
  (w w' : world) (before note : Note) :
  readNote noteId w = (Ok (Some before), w) ->
  updateNote noteId updates now w = (Ok note, w') ->
  note = merge before updates now /\
  exists row tags,
    Sql.select_note noteId (db w) = Some row /\
    before = note_of_row row tags /\
    readNote noteId w' =
      (Ok (Some (note_of_row
                   (updated_row (note_title note) (note_content note)
                      (JSON.stringify (note_tags note)) now row)
                   (note_tags note))), w').
Proof.
  intros Hread H.
  destruct (updateNote_cases _ _ _ _ _ _ _ Hread H)
    as (_ & _ & Hnotes & [(Hr & _) | (_ & _ & _ & [[Hr _] | [Hr _]])]);
    try discriminate.
  injection Hr as ->. split; [reflexivity |].
  apply readNote_Some in Hread as (row & tags & Hsel & _ & ->).
  exists row, tags. split; [exact Hsel |]. split; [reflexivity |].
  eapply readNote_after_update; eassumption.
Qed.

(* ================================================================== *)
(** * Further facts: the scan of the vault *)

Lemma try_catch_unfold (m : M unit) (w : world) :
  try_catch m w = (Ok tt, snd (m w)).
Proof. unfold try_catch. now destruct (m w) as [[[] | e] w']. Qed.

Lemma grows_by_refl (w : world) : grows_by 0 w w.
Proof.
  repeat split; [auto |]. exists []. split; [now rewrite app_nil_r | reflexivity].
Qed.

Lemma grows_by_trans (n m : nat) (w1 w2 w3 : world) :
  grows_by n w1 w2 -> grows_by m w2 w3 -> grows_by (n + m) w1 w3.
Proof.
  intros (Hv1 & Hf1 & Hk1 & Hd1 & a1 & Hn1 & Hl1)
         (Hv2 & Hf2 & Hk2 & Hd2 & a2 & Hn2 & Hl2).
  repeat split; try congruence.
  - intros p Hp. auto.
  - exists (a1 ++ a2). split.
    + rewrite Hn2, Hn1. now rewrite <- app_assoc.
    + rewrite length_app. lia.
Qed.

Lemma grows_by_le (n m : nat) (w w' : world) :
  (n <= m)%nat -> grows_by n w w' -> grows_by m w w'.
Proof.
  intros Hle (Hv & Hf & Hk & Hd & a & Hn & Hl).
  repeat split; try assumption. exists a. split; [assumption | lia].
Qed.

Lemma createNote_grows (title content : string) (tags : list string) (now : Z)
  (w w' : world) (r : outcome Note) :
  createNote title content tags now w = (r, w') -> grows_by 1 w w'.
Proof.
  intros H.
  destruct (createNote_cases _ _ _ _ _ _ _ H)
    as [(p & _ & _ & _ & ->)
       | [(_ & _ & -> & _)
         | (_ & _ & _ & Hv & Hdisk & Hk & Hnotes & _)]].
  - apply (grows_by_le 0); [lia | apply grows_by_refl].
  - repeat split.
    + intros p Hp. cbn [with_files disk files].
      destruct (decide (note_path (new_note (vaultPath w) title content tags now)
                        = p)) as [<- | Hne].
      * rewrite lookup_insert_eq. eauto.
      * now rewrite lookup_insert_ne.
    + exists []. split; [cbn [with_files db]; now rewrite app_nil_r | cbn; lia].
  - repeat split; try assumption.
    + now rewrite Hdisk.
    + intros p Hp. rewrite Hdisk. cbn [files].
      destruct (decide (note_path (new_note (vaultPath w) title content tags now)
                        = p)) as [<- | Hne].
      * rewrite lookup_insert_eq. eauto.
      * now rewrite lookup_insert_ne.
    + eexists. split; [exact Hnotes | reflexivity].
Qed.

(** The loop body: what it does in each of its cases. *)
Lemma importFile_cases (clock : string -> Z) (scanPath file : string)
  (w : world) :
  let filePath := Path.join scanPath file in
  (snd (Scan.importFile clock scanPath file w) = w /\
   ((filePath ∈ faulty (disk w)) \/ files (disk w) !! filePath = None \/
    select_id_by_path filePath (db w) <> None)) \/
  (exists content,
     files (disk w) !! filePath = Some content /\
     (filePath ∉ faulty (disk w)) /\
     select_id_by_path filePath (db w) = None /\
     let parsed := Frontmatter.parseFrontmatter content in
     snd (Scan.importFile clock scanPath file w) =
     snd (createNote (or_else (Frontmatter.title parsed) (Scan.basename_md file))
            content (Frontmatter.tags parsed) (clock file) w)).
Proof.
  intros filePath. unfold Scan.importFile. fold filePath.
  rewrite bind_unfold. unfold Scan.readFile.
  case_bool_decide as Hf; [left; split; [reflexivity | now left] |].
  destruct (files (disk w) !! filePath) as [content |] eqn:E;
    [| left; split; [reflexivity | right; now left]].
  rewrite bind_unfold. unfold fetch at 1.
  destruct (select_id_by_path filePath (db w)) as [id |] eqn:Es.
  - left. split; [reflexivity |]. right. right. discriminate.
  - right. exists content. repeat split; try assumption.
    cbn zeta. unfold fetch. cbv beta iota. rewrite Es.
    rewrite bind_unfold.
    now destruct (createNote _ _ _ _ w) as [[n | e] w1].
Qed.

Lemma importFile_grows (clock : string -> Z) (scanPath file : string)
  (w : world) :
  grows_by 1 w (snd (Scan.importFile clock scanPath file w)).
Proof.
  destruct (importFile_cases clock scanPath file w)
    as [(-> & _) | (content & _ & _ & _ & ->)].
  - apply (grows_by_le 0); [lia | apply grows_by_refl].
  - eapply createNote_grows. apply surjective_pairing.
Qed.

Lemma forEach_try_catch_grows (clock : string -> Z) (scanPath : string)
  (mdFiles : list string) (w : world) :
  exists w',
    forEach (fun file => try_catch (Scan.importFile clock scanPath file))
      mdFiles w = (Ok tt, w') /\
    grows_by (length mdFiles) w w'.
Proof.
  revert w. induction mdFiles as [| file rest IH]; intros w.
  - exists w. split; [reflexivity | apply grows_by_refl].
  - cbn [forEach]. rewrite bind_unfold, try_catch_unfold.
    destruct (IH (snd (Scan.importFile clock scanPath file w)))
      as (w' & Hrun & Hgrow).
    exists w'. split; [exact Hrun |].
    change (length (file :: rest)) with (1 + length rest)%nat.
    eapply grows_by_trans; [apply importFile_grows | exact Hgrow].
Qed.

Lemma forEach_try_catch_skip (clock : string -> Z) (scanPath : string)
  (mdFiles : list string) (w : world) :
  (forall file, In file mdFiles ->
     select_id_by_path (Path.join scanPath file) (db w) <> None) ->
  forEach (fun file => try_catch (Scan.importFile clock scanPath file))
    mdFiles w = (Ok tt, w).
Proof.
  induction mdFiles as [| file rest IH]; intros H; [reflexivity |].
  cbn [forEach]. rewrite bind_unfold, try_catch_unfold.
  destruct (importFile_cases clock scanPath file w)
    as [(-> & _) | (content & _ & _ & Hnone & _)].
  - apply IH. intros f Hf. apply H. now right.
  - exfalso. apply (H file); [now left | exact Hnone].
Qed.

Lemma scanAndIndexVault_unfold (readdir : string -> outcome (list string))
  (clock : string -> Z) (override : option string) (w : world)
  (listed : list string) :
  readdir (or_else override (vaultPath w)) = Ok listed ->
  Scan.scanAndIndexVault readdir clock override w =
  forEach (fun file => try_catch (Scan.importFile clock
                                    (or_else override (vaultPath w)) file))
    (List.filter Scan.is_markdown listed) w.
Proof. intros H. unfold Scan.scanAndIndexVault. now rewrite H. Qed.

Lemma substring_prefix (a b : string) :
  String.substring 0 (String.length a) (a +:+ b) = a.
Proof.
  induction a as [| c a IH].
  - cbn [String.length]. rewrite append_nil. now destruct b.
  - rewrite append_cons. cbn [String.length String.substring]. now rewrite IH.
Qed.

Lemma last_component_plain (name : string) :
  (forall c, In c (list_ascii_of_string name) -> c <> "/"%char) ->
  Scan.last_component (name +:+ ".md") = name +:+ ".md" /\
  existsb (Ascii.eqb "/") (list_ascii_of_string (name +:+ ".md")) = false.
Proof.
  induction name as [| c name IH]; intros H; [split; reflexivity |].
  destruct IH as [IH1 IH2]. { intros x Hx. apply H. now right. }
  assert (Hc : Ascii.eqb c "/" = false).
  { apply Ascii.eqb_neq. apply H. now left. }
  rewrite append_cons. split.
  - cbn [Scan.last_component]. now rewrite IH2, Hc.
  - cbn [list_ascii_of_string existsb]. rewrite IH2.
    rewrite Ascii.eqb_sym, Hc. reflexivity.
Qed.

Lemma basename_md_plain (name : string) :
  name <> "" ->
  (forall c, In c (list_ascii_of_string name) -> c <> "/"%char) ->
  Scan.basename_md (name +:+ ".md") = name.
Proof.
  intros Hne Hplain. unfold Scan.basename_md.
  assert (Hlen : forall s, String.eqb (s +:+ ".md") ".md" = true -> s = "").
  { intros s Hs. apply String.eqb_eq in Hs.
    apply (f_equal String.length) in Hs. rewrite length_append in Hs.
    destruct s; [reflexivity | cbn in Hs; lia]. }
  destruct (String.eqb (name +:+ ".md") ".md") eqn:E1;
    [now apply Hlen in E1 |].
  rewrite (proj1 (last_component_plain name Hplain)), E1.
  rewrite length_append.
  replace (String.length name + String.length ".md" - 3)%nat
    with (String.length name) by (cbn [String.length]; lia).
  apply substring_prefix.
Qed.

Lemma select_id_by_path_fresh (path : string) (d : database) :
  select_id_by_path path d = None ->
  existsb (fun x => String.eqb (col_path x) path) (notes d) = false.
Proof.
  unfold select_id_by_path. rewrite find_existsb.
  now destruct (List.find _ (notes d)).
Qed.

Lemma forEach_one {A : Type} (f : A -> M unit) (x : A) (w : world) :
  forEach (fun y => try_catch (f y)) [x] w = (Ok tt, snd (f x w)).
Proof. cbn [forEach]. now rewrite bind_unfold, try_catch_unfold. Qed.

(** What the scan does with a listing whose only Markdown file is a new
    file of the vault without front matter: it is a [createNote] under
    the name of the file. *)
Lemma scan_plain_file (readdir : string -> outcome (list string))
  (clock : string -> Z) (w : world) (listed : list string)
  (name content : string) :
  readdir (vaultPath w) = Ok listed ->
  List.filter Scan.is_markdown listed = [name +:+ ".md"] ->
  name <> "" ->
  (forall c, In c (list_ascii_of_string name) -> c <> "/"%char) ->
  files (disk w) !! Path.join (vaultPath w) (name +:+ ".md") = Some content ->
  Frontmatter.parseFrontmatter content = no_frontmatter ->
  (Path.join (vaultPath w) (name +:+ ".md") ∉ faulty (disk w)) ->
  select_id_by_path (Path.join (vaultPath w) (name +:+ ".md")) (db w) = None ->
  Scan.scanAndIndexVault readdir clock None w =
  (Ok tt, snd (createNote name content [] (clock (name +:+ ".md")) w)).
Proof.
  intros Hdir Hmd Hne Hplain Hfile Hparse Hok Hnew.
  rewrite (scanAndIndexVault_unfold readdir clock None w listed Hdir).
  rewrite Hmd. change (or_else None (vaultPath w)) with (vaultPath w).
  rewrite forEach_one. f_equal.
  destruct (importFile_cases clock (vaultPath w) (name +:+ ".md") w)
    as [(_ & [Hf | [Hf | Hf]]) | (content' & Hfile' & _ & _ & ->)];
    [contradiction | congruence | contradiction |].
  cbn zeta. rewrite Hfile in Hfile'. injection Hfile' as <-.
  rewrite Hparse. cbn [no_frontmatter Frontmatter.title Frontmatter.tags or_else].
  now rewrite basename_md_plain.
Qed.

Lemma scanAndIndexVault_skips_plain (readdir : string -> outcome (list string))
  (clock : string -> Z) (w : world) (listed : list string) :
  readdir (vaultPath w) = Ok listed ->
  (forall file, In file (List.filter Scan.is_markdown listed) ->
     select_id_by_path (Path.join (vaultPath w) file) (db w) <> None) ->
  Scan.scanAndIndexVault readdir clock None w = (Ok tt, w).
Proof.
  intros Hdir H.
  rewrite (scanAndIndexVault_unfold readdir clock None w listed Hdir).
  now apply forEach_try_catch_skip.
Qed.

Lemma formatNoteAsMarkdown_untagged (note : Note) :
  note_tags note = [] ->
  formatNoteAsMarkdown note =
  "# " +:+ note_title note +:+ nl +:+ nl +:+ note_content note.
Proof.
  intros H. unfold formatNoteAsMarkdown. rewrite H. cbn [length Nat.ltb Nat.leb].
  now rewrite !append_assoc.
Qed.

(* ================================================================== *)
(** * Further facts: search *)

Lemma Qle_bool_total (a b : QArith_base.Q) :
  QArith_base.Qle_bool a b = false -> QArith_base.Qle_bool b a = true.
Proof.
  intros H. apply QArith_base.Qle_bool_iff.
  apply QArith_base.Qlt_le_weak, QArith_base.Qnot_le_lt.
  intros Hle. apply QArith_base.Qle_bool_iff in Hle. congruence.
Qed.

Lemma Qle_bool_trans (a b c : QArith_base.Q) :
  QArith_base.Qle_bool a b = true -> QArith_base.Qle_bool b c = true ->
  QArith_base.Qle_bool a c = true.
Proof.
  rewrite !QArith_base.Qle_bool_iff. apply QArith_base.Qle_trans.
Qed.

Lemma insert_by_rank_perm
  (rank : string -> list fts_row -> fts_row -> QArith_base.Q) (query : string)
  (t : list fts_row) (r : fts_row * notes_row) (l : list (fts_row * notes_row)) :
  Permutation.Permutation (insert_by_rank rank query t r l) (r :: l).
Proof.
  induction l as [| x l IH]; [reflexivity |].
  cbn [insert_by_rank]. destruct (QArith_base.Qle_bool _ _).
  - reflexivity.
  - rewrite IH. apply Permutation.perm_swap.
Qed.

Lemma order_by_rank_perm
  (rank : string -> list fts_row -> fts_row -> QArith_base.Q) (query : string)
  (t : list fts_row) (l : list (fts_row * notes_row)) :
  Permutation.Permutation (order_by_rank rank query t l) l.
Proof.
  induction l as [| r l IH]; [reflexivity |].
  unfold order_by_rank. cbn [fold_right]. fold (order_by_rank rank query t l).
  rewrite insert_by_rank_perm. now apply Permutation.perm_skip.
Qed.

Lemma insert_by_rank_ranked
  (rank : string -> list fts_row -> fts_row -> QArith_base.Q) (query : string)
  (t : list fts_row) (r : fts_row * notes_row) (l : list (fts_row * notes_row)) :
  ranked rank query t l -> ranked rank query t (insert_by_rank rank query t r l).
Proof.
  unfold ranked. induction l as [| x l IH]; intros H.
  - repeat constructor.
  - cbn [insert_by_rank].
    apply Sorted.StronglySorted_inv in H as [Hl Hx].
    destruct (QArith_base.Qle_bool (rank query t (fst r)) (rank query t (fst x)))
      eqn:E.
    + constructor; [now constructor |].
      constructor; [exact E |].
      eapply Forall_impl; [exact Hx |]. cbn. intros y Hy.
      eapply Qle_bool_trans; eassumption.
    + constructor; [now apply IH |].
      apply (Permutation.Permutation_Forall
               (Permutation.Permutation_sym (insert_by_rank_perm rank query t r l))).
      constructor; [now apply Qle_bool_total | exact Hx].
Qed.

Lemma order_by_rank_ranked
  (rank : string -> list fts_row -> fts_row -> QArith_base.Q) (query : string)
  (t : list fts_row) (l : list (fts_row * notes_row)) :
  ranked rank query t (order_by_rank rank query t l).
Proof.
  induction l as [| r l IH]; [constructor |].
  unfold order_by_rank. cbn [fold_right]. now apply insert_by_rank_ranked.
Qed.

Lemma StronglySorted_firstn {A : Type} (R : A -> A -> Prop) (n : nat)
  (l : list A) :
  Sorted.StronglySorted R l -> Sorted.StronglySorted R (firstn n l).
Proof.
  revert n. induction l as [| x l IH]; intros n H.
  - destruct n; constructor.
  - destruct n as [| n]; [constructor |].
    apply Sorted.StronglySorted_inv in H as [Hl Hx].
    cbn [firstn]. constructor; [now apply IH |].
    rewrite Forall_forall in Hx |- *. intros y Hy. apply Hx.
    apply list_elem_of_In. apply list_elem_of_In in Hy.
    now apply firstn_In in Hy.
Qed.

Lemma limit_rows_sorted {A : Type} (R : A -> A -> Prop) (limit : Z)
  (l : list A) :
  Sorted.StronglySorted R l -> Sorted.StronglySorted R (limit_rows limit l).
Proof.
  intros H. unfold limit_rows. destruct (limit <? 0); [exact H |].
  now apply StronglySorted_firstn.
Qed.

Lemma joined_In (hits : string -> fts_row -> bool) (query : string)
  (d : database) (f : fts_row) (n : notes_row) :
  In (f, n) (joined hits query d) <->
  In f (notes_fts d) /\ hits query f = true /\
  In n (notes d) /\ col_id n = fts_id f.
Proof.
  unfold joined. rewrite in_flat_map. split.
  - intros (f' & Hf & Hn). apply filter_In in Hf as [Hf Hhit].
    apply in_map_iff in Hn as (n' & [= <- <-] & Hn).
    apply filter_In in Hn as [Hn Hid]. apply has_id_eq in Hid. auto.
  - intros (Hf & Hhit & Hn & Hid). exists f. split.
    + apply filter_In. auto.
    + apply in_map. apply filter_In. split; [exact Hn |].
      unfold Sql.has_id. now apply String.eqb_eq.
Qed.

(** The rows behind the results of a search that returned. *)
Lemma search_Ok_rows (hits : string -> fts_row -> bool)
  (rank : string -> list fts_row -> fts_row -> QArith_base.Q)
  (fits : string -> bool)
  (query : string) (tags : option (list string)) (limit : Z) (w w' : world)
  (results : list SearchResult) :
  search hits rank fits query tags limit w = (Ok results, w') ->
  w' = w /\
  (Sql.limit_ok limit = true /\ Fts5.query_ok query = true /\
   fits query = true) /\
  exists rows,
    results = map (result_of_row rank query (notes_fts (db w))) rows /\
    (0 <= limit -> (length rows <= Z.to_nat limit)%nat) /\
    ranked rank query (notes_fts (db w)) rows /\
    (forall r, In r rows -> In r (joined hits query (db w))) /\
    (forall tag, tags = Some [tag] ->
       forall r, In r rows -> tag_in tag (snd r) = Some true).
Proof.
  intros H.
  assert (Hsel : exists tag,
             (forall t, tags = Some [t] -> tag = Some t) /\
             search hits rank fits query tags limit w =
             match select_rows hits rank fits query tag limit (db w) with
             | inr rows =>
                 (Ok (map (result_of_row rank query (notes_fts (db w))) rows), w)
             | inl e => (Throw e, w)
             end).
  { destruct tags as [[| t [| t2 tags]] |].
    - exists None. split; [discriminate |].
      unfold search. rewrite bind_unfold. unfold prepare_all.
      cbn [app map length placeholders Nat.eqb negb].
      destruct (select_rows hits rank fits query None limit (db w)); reflexivity.
    - exists (Some t). split; [now intros t' [= <-] |].
      apply search_with_one_tag.
    - exfalso. revert H.
      unfold search. rewrite bind_unfold. unfold prepare_all.
      cbn [app map length placeholders]. rewrite !length_app, length_map.
      cbn [length].
      match goal with
      | |- context [Nat.eqb ?a ?b] => destruct (Nat.eqb a b) eqn:E
      end; [apply Nat.eqb_eq in E; lia | discriminate].
    - exists None. split; [discriminate |].
      unfold search. rewrite bind_unfold. unfold prepare_all.
      cbn [app map length placeholders Nat.eqb negb].
      destruct (select_rows hits rank fits query None limit (db w)); reflexivity. }
  destruct Hsel as (tag & Htag & Hsearch). rewrite Hsearch in H.
  unfold select_rows in H.
  destruct (Sql.limit_ok limit) eqn:Hl; cbn [negb] in H; [| discriminate].
  destruct (Fts5.query_ok query) eqn:Hq; cbn [negb andb] in H; [| discriminate].
  destruct (fits query) eqn:Hfits; cbn [negb] in H; [| discriminate].
  destruct tag as [tag |].
  - destruct (where_tag tag (joined hits query (db w))) as [kept |] eqn:Ek;
      [| discriminate].
    injection H as <- <-. split; [reflexivity |]. split; [auto |].
    eexists. split; [reflexivity |].
    apply where_tag_keeps in Ek.
    split; [apply limit_rows_length |].
    split; [apply limit_rows_sorted, order_by_rank_ranked |].
    assert (Hin : forall r,
               In r (limit_rows limit
                       (order_by_rank rank query (notes_fts (db w)) kept)) ->
               In r kept).
    { intros r Hr. apply limit_rows_In in Hr.
      eapply Permutation.Permutation_in; [apply order_by_rank_perm | exact Hr]. }
    split.
    + intros r Hr. apply Hin in Hr. rewrite Ek in Hr.
      now apply filter_In in Hr.
    + intros t Ht r Hr. apply Hin in Hr. rewrite Ek in Hr.
      apply filter_In in Hr as [_ Hr].
      specialize (Htag t Ht). injection Htag as ->.
      destruct (tag_in t (snd r)) as [[|] |]; congruence.
  - injection H as <- <-. split; [reflexivity |]. split; [auto |].
    eexists. split; [reflexivity |].
    split; [apply limit_rows_length |].
    split; [apply limit_rows_sorted, order_by_rank_ranked |].
    split.
    + intros r Hr. apply limit_rows_In in Hr.
      eapply Permutation.Permutation_in; [apply order_by_rank_perm | exact Hr].
    + intros t Ht. specialize (Htag t Ht). discriminate.
Qed.

(* ================================================================== *)
(** * Further facts: parseFrontmatter *)

Lemma split_first (sep c : ascii) (s : string) :
  exists first rest,
    Str.split sep (String c s) = first :: rest /\
    (first = "" \/ exists t, first = String c t).
Proof.
  cbn [Str.split]. destruct (Ascii.eqb c sep).
  - eexists _, _. split; [reflexivity | now left].
  - destruct (Str.split sep s) as [| h r].
    + eexists _, _. split; [reflexivity |]. right. eauto.
    + eexists _, _. split; [reflexivity |]. right. eauto.
Qed.

Lemma parseFrontmatter_no_dash (c : ascii) (s : string) :
  c <> "-"%char ->
  Frontmatter.parseFrontmatter (String c s) = no_frontmatter.
Proof.
  intros Hc. unfold Frontmatter.parseFrontmatter.
  destruct (split_first Frontmatter.newline c s) as (first & rest & -> & Hfirst).
  destruct Hfirst as [-> | (t & ->)]; [reflexivity |].
  cbn [String.eqb]. apply Ascii.eqb_neq in Hc. now rewrite Hc.
Qed.

Lemma formatNoteAsMarkdown_heading (note : Note) :
  exists rest, formatNoteAsMarkdown note = String "#" rest.
Proof.
  unfold formatNoteAsMarkdown.
  destruct (0 <? length (note_tags note))%nat;
    rewrite !append_cons; eexists; reflexivity.
Qed.

Lemma In_append (c : ascii) (a b : string) :
  In c (list_ascii_of_string (a +:+ b)) <->
  In c (list_ascii_of_string a) \/ In c (list_ascii_of_string b).
Proof.
  induction a as [| x a IH].
  - rewrite append_nil. cbn. tauto.
  - rewrite append_cons. cbn [list_ascii_of_string In]. rewrite IH. tauto.
Qed.

Lemma split_line (sep : ascii) (s rest : string) :
  (forall c, In c (list_ascii_of_string s) -> c <> sep) ->
  Str.split sep (s +:+ String sep rest) = s :: Str.split sep rest.
Proof.
  induction s as [| c s IH]; intros H.
  - rewrite append_nil. cbn [Str.split]. now rewrite Ascii.eqb_refl.
  - rewrite append_cons. cbn [Str.split].
    replace (Ascii.eqb c sep) with false
      by (symmetry; apply Ascii.eqb_neq, H; now left).
    rewrite IH; [reflexivity |]. intros x Hx. apply H. now right.
Qed.

Lemma split_whole (sep : ascii) (s : string) :
  (forall c, In c (list_ascii_of_string s) -> c <> sep) ->
  Str.split sep s = [s].
Proof.
  induction s as [| c s IH]; intros H; [reflexivity |].
  cbn [Str.split].
  replace (Ascii.eqb c sep) with false
    by (symmetry; apply Ascii.eqb_neq, H; now left).
  rewrite IH; [reflexivity |]. intros x Hx. apply H. now right.
Qed.

Lemma dot_run_line (s rest : string) :
  (forall c, In c (list_ascii_of_string s) ->
     Frontmatter.is_line_terminator c = false) ->
  Frontmatter.dot_run (s +:+ String Frontmatter.newline rest) = s.
Proof.
  induction s as [| c s IH]; intros H.
  - reflexivity.
  - rewrite append_cons. cbn [Frontmatter.dot_run].
    rewrite (H c) by now left.
    rewrite IH; [reflexivity |]. intros x Hx. apply H. now right.
Qed.

Lemma lower_char_colon (c : ascii) :
  Ascii.eqb (Str.lower_char ":") (Str.lower_char c) = true -> c = ":"%char.
Proof.
  destruct c as [[] [] [] [] [] [] [] []]; vm_compute; intros H;
    first [reflexivity | discriminate H].
Qed.

Ltac strip_key_tests :=
  repeat match goal with
    | |- context [Ascii.eqb ?a (Str.lower_char ?c)] =>
        let E := fresh "E" in
        destruct (Ascii.eqb a (Str.lower_char c)) eqn:E;
        [| reflexivity]
    end.

Lemma strip_key_tags_none (u s : string) :
  (forall c, In c (list_ascii_of_string u) ->
     c <> ":"%char /\ c <> Frontmatter.newline) ->
  Frontmatter.strip_key "tags:" (u +:+ String Frontmatter.newline s) = None.
Proof.
  intros H.
  destruct u as [| c1 [| c2 [| c3 [| c4 [| c5 u]]]]];
    rewrite ?append_cons, ?append_nil; cbn [Frontmatter.strip_key];
    strip_key_tests;
    try match goal with
      | E : Ascii.eqb _ (Str.lower_char Frontmatter.newline) = true |- _ =>
          vm_compute in E; discriminate E
      end.
  exfalso. apply lower_char_colon in E3. subst c5.
  destruct (H ":"%char) as [Hc _]; [cbn; tauto | now apply Hc].
Qed.

Lemma search_skip (key : string) (rest : string -> option string)
  (c : ascii) (t : string) :
  Frontmatter.strip_key key (String c t) = None ->
  Frontmatter.search key rest (String c t) = Frontmatter.search key rest t.
Proof. intros H. cbn [Frontmatter.search]. now rewrite H. Qed.

Lemma search_tags_past_line (rest : string -> option string) (u s : string) :
  (forall c, In c (list_ascii_of_string u) ->
     c <> ":"%char /\ c <> Frontmatter.newline) ->
  Frontmatter.search "tags:" rest (u +:+ String Frontmatter.newline s) =
  Frontmatter.search "tags:" rest s.
Proof.
  induction u as [| c u IH]; intros H.
  - rewrite append_nil. now apply search_skip.
  - pose proof (strip_key_tags_none (String c u) s H) as Hnone.
    rewrite append_cons in Hnone |- *. rewrite search_skip by exact Hnone.
    apply IH. intros x Hx. apply H. now right.
Qed.

Lemma trim_start_length (s : string) :
  (String.length (Frontmatter.trim_start s) <= String.length s)%nat.
Proof.
  induction s as [| c s IH]; [reflexivity |].
  cbn [Frontmatter.trim_start]. destruct (Str.is_space c); cbn [String.length]; lia.
Qed.

Lemma trim_end_length (s : string) :
  (String.length (Frontmatter.trim_end s) <= String.length s)%nat.
Proof.
  induction s as [| c s IH]; [reflexivity |].
  cbn [Frontmatter.trim_end]. destruct (Frontmatter.trim_end s).
  - destruct (Str.is_space c); cbn [String.length]; lia.
  - cbn [String.length] in *. lia.
Qed.

Lemma trim_fixed_first (c : ascii) (t : string) :
  Frontmatter.trim (String c t) = String c t -> Str.is_space c = false.
Proof.
  intros H. destruct (Str.is_space c) eqn:E; [| reflexivity].
  apply (f_equal String.length) in H. unfold Frontmatter.trim in H.
  cbn [Frontmatter.trim_start] in H. rewrite E in H.
  pose proof (trim_end_length (Frontmatter.trim_start t)).
  pose proof (trim_start_length t). cbn [String.length] in H. lia.
Qed.

Lemma clean_tag_after_space (t : string) :
  Frontmatter.clean_tag (String " " t) = Frontmatter.clean_tag t.
Proof. reflexivity. Qed.

Lemma split_join_tags (t : string) (ts : list string) :
  (forall x, In x (t :: ts) ->
     forall c, In c (list_ascii_of_string x) -> c <> ","%char) ->
  Str.split "," (Str.join ", " (t :: ts)) = t :: map (String " ") ts.
Proof.
  revert t. induction ts as [| t' ts IH]; intros t H.
  - cbn [Str.join map]. apply split_whole. apply H. now left.
  - change (Str.join ", " (t :: t' :: ts))
      with (t +:+ ", " +:+ Str.join ", " (t' :: ts)).
    rewrite !append_cons, append_nil.
    rewrite split_line by (apply H; now left).
    cbn [Str.split]. change (Ascii.eqb " " ",") with false. cbv iota.
    rewrite IH by (intros x Hx; apply H; now right).
    reflexivity.
Qed.

Lemma join_tags_chars (P : ascii -> Prop) (tags : list string) :
  P ","%char -> P " "%char ->
  (forall t, In t tags -> forall c, In c (list_ascii_of_string t) -> P c) ->
  forall c, In c (list_ascii_of_string (Str.join ", " tags)) -> P c.
Proof.
  intros Hcomma Hspace. induction tags as [| t ts IH]; intros H c Hc.
  - destruct Hc.
  - destruct ts as [| t' ts].
    + cbn [Str.join] in Hc. apply (H t); [now left | exact Hc].
    + change (Str.join ", " (t :: t' :: ts))
        with (t +:+ ", " +:+ Str.join ", " (t' :: ts)) in Hc.
      apply In_append in Hc as [Hc | Hc]; [apply (H t); [now left | exact Hc] |].
      rewrite !append_cons, append_nil in Hc.
      destruct Hc as [<- | [<- | Hc]]; [exact Hcomma | exact Hspace |].
      apply IH; [| exact Hc]. intros x Hx. apply H. now right.
Qed.

Lemma join_tags_not_empty (t : string) (ts : list string) :
  t <> "" -> exists c g, Str.join ", " (t :: ts) = String c g.
Proof.
  intros Ht. destruct t as [| c t]; [contradiction |].
  destruct ts as [| t' ts].
  - now exists c, t.
  - change (Str.join ", " (String c t :: t' :: ts))
      with (String c t +:+ ", " +:+ Str.join ", " (t' :: ts)).
    rewrite append_cons. eauto.
Qed.

Lemma clean_tags_of_split (t : string) (ts : list string) :
  (forall x, In x (t :: ts) -> Frontmatter.clean_tag x = x) ->
  map Frontmatter.clean_tag (t :: map (String " ") ts) = t :: ts.
Proof.
  intros H. cbn [map]. rewrite (H t) by now left. f_equal.
  rewrite map_map. rewrite <- (map_id ts) at 2. apply map_ext_in.
  intros x Hx. rewrite clean_tag_after_space. apply H. now right.
Qed.

(** The lines of a text with a front matter. *)
Lemma with_frontmatter_lines (title : string) (tags : list string)
  (body : string) :
  (forall c, In c (list_ascii_of_string title) -> c <> Frontmatter.newline) ->
  (forall c, In c (list_ascii_of_string (Str.join ", " tags)) ->
     c <> Frontmatter.newline) ->
  Str.split Frontmatter.newline (with_frontmatter title tags body) =
  "---" :: ("title: " +:+ title) :: ("tags: [" +:+ Str.join ", " tags +:+ "]")
    :: "---" :: Str.split Frontmatter.newline body.
Proof.
  intros Htitle Htags. unfold with_frontmatter, nl.
  change (ascii_of_N 10) with Frontmatter.newline.
  replace ("---" +:+ String Frontmatter.newline "" +:+
           "title: " +:+ title +:+ String Frontmatter.newline "" +:+
           "tags: [" +:+ Str.join ", " tags +:+ "]" +:+
           String Frontmatter.newline "" +:+ "---" +:+
           String Frontmatter.newline "" +:+ body)
    with ("---" +:+ String Frontmatter.newline
            (("title: " +:+ title) +:+ String Frontmatter.newline
               (("tags: [" +:+ Str.join ", " tags +:+ "]") +:+
                  String Frontmatter.newline
                    ("---" +:+ String Frontmatter.newline body))))
    by (rewrite !append_assoc, !append_cons, !append_nil; reflexivity).
  rewrite split_line.
  2:{ intros c Hc. cbn in Hc.
      destruct Hc as [<- | [<- | [<- | []]]]; discriminate. }
  rewrite split_line.
  2:{ intros c Hc. apply In_append in Hc as [Hc | Hc]; [| now apply Htitle].
      cbn in Hc. repeat (destruct Hc as [<- | Hc]; [discriminate |]).
      destruct Hc. }
  rewrite split_line.
  2:{ intros c Hc. apply In_append in Hc as [Hc | Hc].
      - cbn in Hc. repeat (destruct Hc as [<- | Hc]; [discriminate |]).
        destruct Hc.
      - apply In_append in Hc as [Hc | Hc]; [now apply Htags |].
        cbn in Hc. destruct Hc as [<- | []]. discriminate. }
  rewrite split_line.
  2:{ intros c Hc. cbn in Hc.
      destruct Hc as [<- | [<- | [<- | []]]]; discriminate. }
  reflexivity.
Qed.

Lemma search_here (key : string) (rest : string -> option string)
  (text after group : string) :
  Frontmatter.strip_key key text = Some after ->
  rest after = Some group ->
  Frontmatter.search key rest text = Some group.
Proof.
  intros Hkey Hrest.
  destruct text; cbn [Frontmatter.search]; now rewrite Hkey, Hrest.
Qed.

Lemma strip_key_prefix (key s : string) :
  Frontmatter.strip_key key (key +:+ s) = Some s.
Proof.
  induction key as [| k key IH].
  - rewrite append_nil. now destruct s.
  - rewrite append_cons. cbn [Frontmatter.strip_key].
    now rewrite Ascii.eqb_refl.
Qed.

Lemma value_after_one_space (c : ascii) (s : string) :
  Str.is_space c = false ->
  Frontmatter.value_after_spaces (String " " (String c s)) =
  Some (Frontmatter.dot_run (String c s)).
Proof.
  intros Hc. cbn [Frontmatter.value_after_spaces].
  change (Str.is_space " ") with true. cbv iota. now rewrite Hc.
Qed.

Lemma search_title_line (title rest : string) :
  plain_title title ->
  Frontmatter.search "title:" Frontmatter.value_after_spaces
    (("title: " +:+ title) +:+ String Frontmatter.newline rest) = Some title.
Proof.
  intros (Hne & Htrim & Hchars).
  destruct title as [| c t]; [contradiction |].
  pose proof (trim_fixed_first c t Htrim) as Hc.
  apply (search_here _ _ _
           (String " " (String c (t +:+ String Frontmatter.newline rest)))).
  - replace (("title: " +:+ String c t) +:+ String Frontmatter.newline rest)
      with ("title:" +:+
            String " " (String c (t +:+ String Frontmatter.newline rest)))
      by (rewrite !append_assoc, !append_cons, !append_nil; reflexivity).
    apply strip_key_prefix.
  - rewrite value_after_one_space by exact Hc.
    rewrite <- append_cons.
    rewrite dot_run_line; [reflexivity |].
    intros x Hx. now apply Hchars.
Qed.

Lemma bracket_group (group : string) (c : ascii) (g : string) :
  group = String c g ->
  (forall x, In x (list_ascii_of_string group) -> x <> "]"%char) ->
  Frontmatter.bracket_after_spaces (" [" +:+ group +:+ "]") = Some group.
Proof.
  intros Hgroup Hbracket. rewrite !append_cons, append_nil.
  unfold Frontmatter.bracket_after_spaces. cbn [Frontmatter.skip_spaces].
  change (Str.is_space " ") with true. change (Str.is_space "[") with false.
  cbv iota.
  rewrite span_target_app by exact Hbracket.
  now rewrite Hgroup.
Qed.

Lemma search_tags_line (title group : string) (c : ascii) (g : string) :
  plain_title title ->
  group = String c g ->
  (forall x, In x (list_ascii_of_string group) -> x <> "]"%char) ->
  Frontmatter.search "tags:" Frontmatter.bracket_after_spaces
    (("title: " +:+ title) +:+ String Frontmatter.newline
       ("tags: [" +:+ group +:+ "]")) = Some group.
Proof.
  intros (Hne & Htrim & Hchars) Hgroup Hbracket.
  rewrite append_assoc, !append_cons, append_nil.
  do 6 (rewrite search_skip by reflexivity).
  rewrite <- append_cons.
  rewrite search_tags_past_line.
  2:{ intros x [<- | Hx]; [split; discriminate |].
      destruct (Hchars x Hx) as [Hterm Hcolon]. split; [exact Hcolon |].
      intros ->. discriminate Hterm. }
  apply (search_here _ _ _ (" [" +:+ group +:+ "]")).
  - exact (strip_key_prefix "tags:" (" [" +:+ group +:+ "]")).
  - now apply (bracket_group group c g).
Qed.

(** What the scan does with a listing whose only Markdown file is a
    readable file that is not the path of a note: it is a [createNote]
    under the title of the front matter, or else under the name of the
    file. *)
Lemma scan_one_file (readdir : string -> outcome (list string))
  (clock : string -> Z) (w : world) (listed : list string)
  (file content : string) :
  readdir (vaultPath w) = Ok listed ->
  List.filter Scan.is_markdown listed = [file] ->
  files (disk w) !! Path.join (vaultPath w) file = Some content ->
  (Path.join (vaultPath w) file ∉ faulty (disk w)) ->
  select_id_by_path (Path.join (vaultPath w) file) (db w) = None ->
  Scan.scanAndIndexVault readdir clock None w =
  (Ok tt,
   snd (createNote
          (or_else (Frontmatter.title (Frontmatter.parseFrontmatter content))
             (Scan.basename_md file))
          content (Frontmatter.tags (Frontmatter.parseFrontmatter content))
          (clock file) w)).
Proof.
  intros Hdir Hmd Hfile Hok Hnew.
  rewrite (scanAndIndexVault_unfold readdir clock None w listed Hdir).
  rewrite Hmd. change (or_else None (vaultPath w)) with (vaultPath w).
  rewrite forEach_one. f_equal.
  destruct (importFile_cases clock (vaultPath w) file w)
    as [(_ & [Hf | [Hf | Hf]]) | (content' & Hfile' & _ & _ & ->)];
    [contradiction | congruence | contradiction |].
  cbn zeta. rewrite Hfile in Hfile'. now injection Hfile' as <-.
Qed.

Lemma select_id_by_path_None (path : string) (d : database) :
  existsb (fun x => String.eqb (col_path x) path) (notes d) = false ->
  select_id_by_path path d = None.
Proof.
  unfold select_id_by_path. rewrite find_existsb.
  now destruct (List.find _ (notes d)).
Qed.

(* ================================================================== *)
(** * Further properties of the service *)

(** X1.  The id derived from a title holds no white space and no
    upper-case letter, and deriving an id from an id gives it back. *)
Theorem slug_normal_form (title : string) :
  (forall c, In c (list_ascii_of_string (slug title)) ->
     Str.is_space c = false /\ Str.is_upper c = false) /\
  slug (slug title) = slug title.
Proof.
  split; [apply slug_chars |].
  unfold slug at 1.
  rewrite toLowerCase_id by (intros c Hc; now apply slug_chars in Hc).
  apply replace_spaces_id. intros c Hc. now apply slug_chars in Hc.
Qed.

(** X2.  Every link [extractLinks] returns is a reference whose context
    is the target between double brackets; the target is not empty and
    holds no closing bracket. *)
Theorem extractLinks_shape (content : string) (link : NoteLink) :
  In link (extractLinks content) ->
  link_type_of link = reference /\
  link_context link = "[[" +:+ link_to link +:+ "]]" /\
  link_to link <> "" /\
  (forall c, In c (list_ascii_of_string (link_to link)) -> c <> "]"%char).
Proof.
  unfold extractLinks. generalize (S (String.length content)).
  intros fuel. revert content.
  induction fuel as [| fuel IH]; intros content H; [contradiction |].
  cbn [exec_links] in H.
  destruct (match_link content) as [[target r] |] eqn:E.
  - destruct H as [<- | H]; [| eauto].
    apply match_link_spec in E as (_ & Hne & Hc).
    cbn [link_type_of link_context link_to]. auto.
  - destruct content as [| c t]; [contradiction | eauto].
Qed.

Lemma extractLinks_shape_example :
  link_type_of
    {| link_to := "Bar"; link_type_of := reference; link_context := "[[Bar]]" |}
  = reference /\
  "[[Bar]]" = "[[" +:+ "Bar" +:+ "]]" /\
  "Bar" <> "" /\
  (forall c, In c (list_ascii_of_string "Bar") -> c <> "]"%char).
Proof.
  apply (extractLinks_shape "See [[Foo]] and [[Bar]]"
           {| link_to := "Bar"; link_type_of := reference;
              link_context := "[[Bar]]" |}).
  vm_compute. right. left. reflexivity.
Defined.

(** X3.  A text that starts with characters other than the opening
    bracket, followed by a target between double brackets, yields that
    link first and then the links of what follows; a text without an
    opening bracket yields no link. *)
Theorem extractLinks_link_then_rest (plain target rest : string) :
  (forall c, In c (list_ascii_of_string plain) -> c <> "["%char) ->
  target <> "" ->
  (forall c, In c (list_ascii_of_string target) -> c <> "]"%char) ->
  extractLinks (plain +:+ "[[" +:+ target +:+ "]]" +:+ rest) =
    {| link_to := target; link_type_of := reference;
       link_context := "[[" +:+ target +:+ "]]" |} :: extractLinks rest /\
  extractLinks plain = [].
Proof.
  intros Hplain Hne Htarget. split.
  - rewrite extractLinks_skip by exact Hplain.
    rewrite extractLinks_unfold, match_link_head by assumption. reflexivity.
  - replace plain with (plain +:+ "").
    + now rewrite extractLinks_skip.
    + clear. induction plain as [| c p IH]; [reflexivity |].
      now rewrite append_cons, IH.
Qed.

Lemma extractLinks_link_then_rest_example :
  extractLinks ("See " +:+ "[[" +:+ "Foo" +:+ "]]" +:+ " and [[Bar]]") =
    {| link_to := "Foo"; link_type_of := reference;
       link_context := "[[" +:+ "Foo" +:+ "]]" |} :: extractLinks " and [[Bar]]" /\
  extractLinks "See " = [].
Proof.
  apply (extractLinks_link_then_rest "See " "Foo" " and [[Bar]]").
  - intros c Hc. vm_compute in Hc.
    repeat (destruct Hc as [<- | Hc]; [discriminate |]). contradiction.
  - discriminate.
  - intros c Hc. vm_compute in Hc.
    repeat (destruct Hc as [<- | Hc]; [discriminate |]). contradiction.
Defined.

(** X4.  [createNote] on a title whose id or whose path is taken, in a
    vault that can be written: the call is refused -- for the path when
    the path is taken, otherwise for the id -- and the three relations
    are left as they were, but the mirror file under the title has
    already been written with the text of the refused note. *)
Theorem createNote_refused_after_mirror (title content : string)
  (tags : list string) (now : Z) (w : world) :
  Sql.id_exists (slug title) (db w) = true \/
  Sql.path_exists (Path.join (vaultPath w) (title +:+ ".md")) (db w) = true ->
  (vaultPath w ∉ faulty (disk w)) ->
  (Path.join (vaultPath w) (title +:+ ".md") ∉ faulty (disk w)) ->
  exists w',
    createNote title content tags now w =
      (Throw (if Sql.path_exists (Path.join (vaultPath w) (title +:+ ".md")) (db w)
              then SQLITE_CONSTRAINT_UNIQUE
              else SQLITE_CONSTRAINT_PRIMARYKEY), w') /\
    db w' = db w /\
    files (disk w') !! Path.join (vaultPath w) (title +:+ ".md") =
      Some (formatNoteAsMarkdown (new_note (vaultPath w) title content tags now)).
Proof.
  intros Htaken Hv Hp.
  eexists. split; [now apply createNote_refused_at_insert |].
  split; [reflexivity |].
  cbn [with_files disk files]. apply lookup_insert_eq.
Qed.

Lemma createNote_refused_after_mirror_example :
  (exists w',
     createNote "A" "other text" [] 2000 vault_a
     = (Throw (if Sql.path_exists
                    (Path.join (vaultPath vault_a) ("A" +:+ ".md")) (db vault_a)
               then SQLITE_CONSTRAINT_UNIQUE
               else SQLITE_CONSTRAINT_PRIMARYKEY), w') /\
     db w' = db vault_a /\
     files (disk w') !! Path.join (vaultPath vault_a) ("A" +:+ ".md") =
       Some (formatNoteAsMarkdown
               (new_note (vaultPath vault_a) "A" "other text" [] 2000))) /\
  fst (createNote "A" "other text" [] 2000 vault_a)
  = Throw SQLITE_CONSTRAINT_UNIQUE /\
  fst (createNote "a" "other text" [] 2000 vault_a)
  = Throw SQLITE_CONSTRAINT_PRIMARYKEY.
Proof.
  split; [| split; vm_compute; reflexivity].
  apply (createNote_refused_after_mirror "A" "other text" [] 2000 vault_a).
  - left. reflexivity.
  - vm_compute. intros H. discriminate H.
  - vm_compute. intros H. discriminate H.
Defined.

(** X5.  When [createNote] returns, the file at the path of the note is
    the Markdown text of the note, and no other file has changed. *)
Theorem createNote_writes_mirror (title content : string) (tags : list string)
  (now : Z) (w w' : world) (note : Note) :
  createNote title content tags now w = (Ok note, w') ->
  note_path note = Path.join (vaultPath w) (title +:+ ".md") /\
  files (disk w') !! note_path note = Some (formatNoteAsMarkdown note) /\
  forall p, p <> note_path note -> files (disk w') !! p = files (disk w) !! p.
Proof.
  intros H. apply createNote_cases in H.
  destruct H as [(p & Hr & _) | [(_ & _ & _ & [[Hr _] | [Hr _]]) | H]];
    try discriminate.
  destruct H as (_ & _ & _ & _ & Hd & _ & _ & _ & [[Hr _] | [Hr _]]);
    [| discriminate].
  injection Hr as ->. rewrite Hd. cbn [files new_note note_path].
  split; [reflexivity |]. split; [apply lookup_insert_eq |].
  intros p Hp. now apply lookup_insert_ne.
Qed.

Lemma createNote_writes_mirror_example :
  note_path (new_note "/srv/knowledge-vault" "A" "first text" ["x"] 1000)
  = Path.join (vaultPath fresh_vault) ("A" +:+ ".md") /\
  files (disk vault_a)
    !! note_path (new_note "/srv/knowledge-vault" "A" "first text" ["x"] 1000)
  = Some (formatNoteAsMarkdown
            (new_note "/srv/knowledge-vault" "A" "first text" ["x"] 1000)) /\
  forall p,
    p <> note_path (new_note "/srv/knowledge-vault" "A" "first text" ["x"] 1000) ->
    files (disk vault_a) !! p = files (disk fresh_vault) !! p.
Proof.
  apply (createNote_writes_mirror "A" "first text" ["x"] 1000 fresh_vault vault_a).
  vm_compute. reflexivity.
Defined.

(** X6.  [createNote] returns exactly when the vault directory and the
    path of the note can be written, the id and the path of the note
    are not in [notes], and, on a connection that enforces foreign
    keys, every link of the text names the new note or a stored one. *)
Theorem createNote_returns_exactly_when (title content : string)
  (tags : list string) (now : Z) (w : world) :
  (exists note w', createNote title content tags now w = (Ok note, w')) <->
  (vaultPath w ∉ faulty (disk w)) /\
  (Path.join (vaultPath w) (title +:+ ".md") ∉ faulty (disk w)) /\
  Sql.id_exists (slug title) (db w) = false /\
  existsb (fun x => String.eqb (col_path x)
                      (Path.join (vaultPath w) (title +:+ ".md")))
    (notes (db w)) = false /\
  (foreign_keys (db w) = true ->
   forall link, In link (extractLinks content) ->
     link_to link = slug title \/ Sql.id_exists (link_to link) (db w) = true).
Proof.
  split.
  - intros (note & w' & H).
    destruct (createNote_Ok_inv _ _ _ _ _ _ _ H)
      as (Hnote & Hid & Hpath & w2 & Hn & Hf & Hup).
    destruct (createNote_cases _ _ _ _ _ _ _ H)
      as [(p & Hr & _) | [(_ & _ & _ & [[Hr _] | [Hr _]])
                         | (Hvault & Hfile & _)]];
      try discriminate.
    split; [exact Hvault |]. split; [exact Hfile |]. split; [exact Hid |].
    split; [now rewrite Hnote in Hpath |].
    intros Hfk link Hin. subst note.
    apply updateLinks_Ok_inv with (link := link) in Hup; [| exact Hin].
    unfold fk_ok in Hup. rewrite Hf, Hfk in Hup. cbn [negb orb] in Hup.
    apply andb_true_iff in Hup as [_ Hto].
    unfold Sql.id_exists in *. rewrite Hn, existsb_app in Hto.
    cbn [reference_row to_id] in Hto.
    apply orb_true_iff in Hto as [Hto | Hto]; [now right |].
    left. cbn in Hto. rewrite orb_false_r in Hto.
    unfold Sql.has_id in Hto. cbn in Hto. symmetry. now apply String.eqb_eq.
  - intros (Hvault & Hfile & Hid & Hpath & Hlinks).
    destruct (createNote_returns title content tags now w
                Hvault Hfile Hid Hpath Hlinks) as [w' H].
    eauto.
Qed.

Lemma createNote_returns_exactly_when_example :
  exists note w',
    createNote "A" "see [[b]] and [[b]]" [] 2000 vault_b = (Ok note, w').
Proof.
  apply (proj2 (createNote_returns_exactly_when "A" "see [[b]] and [[b]]" []
                  2000 vault_b)).
  split; [vm_compute; intros H; discriminate H |].
  split; [vm_compute; intros H; discriminate H |].
  split; [reflexivity |]. split; [reflexivity |].
  intros _ link Hin. vm_compute in Hin.
  destruct Hin as [<- | [<- | []]]; right; reflexivity.
Defined.

(** X7.  After a [createNote] that returned, for a text that does not
    link to the note itself, [getLinks] of the note in the outgoing
    direction, with a limit that LIMIT takes and that cuts nothing,
    returns the links [extractLinks] finds in the text, each as often
    as it occurs, and counts them. *)
Theorem getLinks_outgoing_after_create (title content : string)
  (tags : list string) (now : Z) (w w' : world) (note : Note) (limit : Z) :
  createNote title content tags now w = (Ok note, w') ->
  (forall link, In link (extractLinks content) -> link_to link <> slug title) ->
  Sql.limit_ok limit = true ->
  unbounded limit (length (extractLinks content)) ->
  exists result,
    getLinks (note_id note) outgoing limit w' = (Ok result, w') /\
    Permutation.Permutation (graph_links result) (extractLinks content) /\
    totalCount result = length (extractLinks content).
Proof.
  intros H Hself Hok Hlimit.
  apply createNote_cases in H.
  destruct H as [(p & Hr & _) | [(_ & _ & _ & [[Hr _] | [Hr _]]) | H]];
    try discriminate.
  destruct H as (_ & _ & _ & _ & _ & _ & _ & _ & [[Hr Hl] | [Hr _]]);
    [| discriminate].
  injection Hr as ->. cbn [new_note note_id].
  rewrite getLinks_unfold, Hok. cbn [selected].
  rewrite (select_outgoing_written _ _ _ _ Hl).
  rewrite filter_none, app_nil_r.
  - rewrite limit_rows_unbounded by exact Hlimit.
    eexists. split; [reflexivity |]. split; reflexivity.
  - intros link Hin. apply String.eqb_neq. now apply Hself.
Qed.

Lemma getLinks_outgoing_after_create_example :
  exists result,
    getLinks "a" outgoing 100 vault_ab = (Ok result, vault_ab) /\
    Permutation.Permutation (graph_links result)
      (extractLinks "see [[b]] and [[b]]") /\
    totalCount result = length (extractLinks "see [[b]] and [[b]]").
Proof.
  apply (getLinks_outgoing_after_create "A" "see [[b]] and [[b]]" [] 2000
           vault_b vault_ab
           (new_note "/srv/knowledge-vault" "A" "see [[b]] and [[b]]" [] 2000) 100).
  - vm_compute. reflexivity.
  - intros link Hin. vm_compute in Hin.
    destruct Hin as [<- | [<- | []]]; discriminate.
  - reflexivity.
  - right. vm_compute. lia.
Defined.

(** X8.  After a [createNote] that returned, every link of the text shows
    among the incoming links of its target as a link back to the new
    note, of the same type and with the same context, when the limit is
    one LIMIT takes and cuts nothing. *)
Theorem getLinks_incoming_after_create (title content : string)
  (tags : list string) (now : Z) (w w' : world) (note : Note) (limit : Z)
  (link : NoteLink) :
  createNote title content tags now w = (Ok note, w') ->
  In link (extractLinks content) ->
  Sql.limit_ok limit = true ->
  unbounded limit (length (select_incoming (link_to link) (db w'))) ->
  exists result,
    getLinks (link_to link) incoming limit w' = (Ok result, w') /\
    In {| link_to := note_id note; link_type_of := link_type_of link;
          link_context := link_context link |} (graph_links result).
Proof.
  intros H Hin Hok Hlimit.
  apply createNote_cases in H.
  destruct H as [(p & Hr & _) | [(_ & _ & _ & [[Hr _] | [Hr _]]) | H]];
    try discriminate.
  destruct H as (_ & _ & _ & _ & _ & _ & _ & _ & [[Hr Hl] | [Hr _]]);
    [| discriminate].
  injection Hr as ->. cbn [new_note note_id].
  rewrite getLinks_unfold, Hok. eexists. split; [reflexivity |].
  cbn [graph_links selected]. rewrite limit_rows_unbounded by exact Hlimit.
  unfold select_incoming.
  change {| link_to := slug title; link_type_of := link_type_of link;
            link_context := link_context link |}
    with (incoming_link (reference_row (slug title) link)).
  apply in_map. apply filter_In. split.
  - rewrite Hl. apply in_or_app. right. apply in_or_app. left.
    now apply in_map.
  - apply String.eqb_refl.
Qed.

Lemma getLinks_incoming_after_create_example :
  exists result,
    getLinks "b" incoming 100 vault_ab = (Ok result, vault_ab) /\
    In {| link_to := "a"; link_type_of := reference; link_context := "[[b]]" |}
      (graph_links result).
Proof.
  apply (getLinks_incoming_after_create "A" "see [[b]] and [[b]]" [] 2000
           vault_b vault_ab
           (new_note "/srv/knowledge-vault" "A" "see [[b]] and [[b]]" [] 2000) 100
           {| link_to := "b"; link_type_of := reference; link_context := "[[b]]" |}).
  - vm_compute. reflexivity.
  - vm_compute. left. reflexivity.
  - reflexivity.
  - right. vm_compute. lia.
Defined.

(** X9.  [getLinks] never writes.  With a limit that is not a 64-bit
    integer it throws SQLITE_MISMATCH.  With a limit that LIMIT takes it
    returns; [totalCount] is then the number of links returned, which a
    limit that is not negative bounds -- it is the size of the page, not
    of the whole set of links --, every link returned is one of the
    selected rows, and with a limit that cuts nothing the direction
    [both] gives the outgoing links together with the incoming ones. *)
Theorem getLinks_page (noteId : string) (dir : direction) (limit : Z) (w : world) :
  snd (getLinks noteId dir limit w) = w /\
  (limit < - 2 ^ 63 \/ 2 ^ 63 <= limit ->
   fst (getLinks noteId dir limit w) = Throw SQLITE_MISMATCH) /\
  (Sql.limit_ok limit = true ->
   exists result,
     fst (getLinks noteId dir limit w) = Ok result /\
     totalCount result = length (graph_links result) /\
     (0 <= limit -> (totalCount result <= Z.to_nat limit)%nat) /\
     (forall link, In link (graph_links result) ->
        In link (selected dir noteId (db w))) /\
     (dir = both ->
      unbounded limit (length (selected both noteId (db w))) ->
      Permutation.Permutation (graph_links result)
        (select_outgoing noteId (db w) ++ select_incoming noteId (db w)))).
Proof.
  rewrite getLinks_unfold. cbn [fst snd]. split; [reflexivity |]. split.
  - intros Hout. replace (Sql.limit_ok limit) with false; [reflexivity |].
    symmetry. unfold Sql.limit_ok. apply andb_false_iff.
    destruct Hout as [H | H]; [left; apply Z.ltb_ge | right; apply Z.ltb_ge]; lia.
  - intros ->. eexists. split; [reflexivity |].
    cbn [totalCount graph_links]. split; [reflexivity |].
    split; [apply limit_rows_length |].
    split; [intros link; apply limit_rows_In |].
    intros -> Hlimit. now rewrite limit_rows_unbounded.
Qed.

Lemma getLinks_page_example :
  fst (getLinks "a" outgoing (10 ^ 19) vault_ab) = Throw SQLITE_MISMATCH /\
  exists result,
    fst (getLinks "a" both 3 vault_ab) = Ok result /\
    totalCount result = length (graph_links result) /\
    (0 <= 3 -> (totalCount result <= Z.to_nat 3)%nat) /\
    (forall link, In link (graph_links result) ->
       In link (selected both "a" (db vault_ab))) /\
    (both = both ->
     unbounded 3 (length (selected both "a" (db vault_ab))) ->
     Permutation.Permutation (graph_links result)
       (select_outgoing "a" (db vault_ab) ++ select_incoming "a" (db vault_ab))).
Proof.
  split.
  - apply (proj1 (proj2 (getLinks_page "a" outgoing (10 ^ 19) vault_ab))).
    right. vm_compute. discriminate.
  - apply (proj2 (proj2 (getLinks_page "a" both 3 vault_ab))). reflexivity.
Defined.

(** X10.  [toolQueryGraph] never writes.  Without a note id (or with an
    empty one) it returns no link, whatever limit the request names.
    When the request names no limit it returns, with at most a hundred
    links; when it names a note and a limit that LIMIT takes it
    returns, and when it names a note and a limit that is not a 64-bit
    integer it throws SQLITE_MISMATCH. *)
Theorem toolQueryGraph_defaults (request : GraphQueryRequest) (w : world) :
  snd (toolQueryGraph request w) = w /\
  (truthy (graph_noteId request) = false ->
   fst (toolQueryGraph request w) = Ok {| graph_links := []; totalCount := 0 |}) /\
  (graph_limit request = None ->
   exists result,
     fst (toolQueryGraph request w) = Ok result /\
     (totalCount result <= 100)%nat) /\
  (forall limit,
     truthy (graph_noteId request) = true ->
     graph_limit request = Some limit ->
     (Sql.limit_ok limit = true ->
      exists result, fst (toolQueryGraph request w) = Ok result) /\
     (limit < - 2 ^ 63 \/ 2 ^ 63 <= limit ->
      fst (toolQueryGraph request w) = Throw SQLITE_MISMATCH)).
Proof.
  unfold toolQueryGraph. destruct (truthy (graph_noteId request)) eqn:Hid;
    cbn [negb].
  - rewrite getLinks_unfold. cbn [fst snd]. split; [reflexivity |].
    split; [discriminate |]. split.
    + intros ->. change (default 100 None) with 100.
      change (Sql.limit_ok 100) with true. cbv iota.
      eexists. split; [reflexivity |]. cbn [totalCount].
      apply (limit_rows_length 100). lia.
    + intros limit _ ->. change (default 100 (Some limit)) with limit. split.
      * intros ->. eexists. reflexivity.
      * intros Hout. replace (Sql.limit_ok limit) with false; [reflexivity |].
        symmetry. unfold Sql.limit_ok. apply andb_false_iff.
        destruct Hout as [H | H];
          [left; apply Z.ltb_ge | right; apply Z.ltb_ge]; lia.
  - cbn [fst snd]. split; [reflexivity |]. split; [reflexivity |]. split.
    + intros _. eexists. split; [reflexivity |]. cbn. lia.
    + intros limit H. discriminate H.
Qed.

Lemma toolQueryGraph_defaults_example :
  fst (toolQueryGraph
         {| graph_noteId := None; graph_direction := None;
            graph_limit := Some (10 ^ 19) |} vault_ab)
  = Ok {| graph_links := []; totalCount := 0 |} /\
  (exists result,
     fst (toolQueryGraph
            {| graph_noteId := Some "a"; graph_direction := Some both;
               graph_limit := None |} vault_ab) = Ok result /\
     (totalCount result <= 100)%nat) /\
  fst (toolQueryGraph
         {| graph_noteId := Some "a"; graph_direction := None;
            graph_limit := Some (10 ^ 19) |} vault_ab)
  = Throw SQLITE_MISMATCH.
Proof.
  split; [| split].
  - apply (proj1 (proj2 (toolQueryGraph_defaults
                           {| graph_noteId := None; graph_direction := None;
                              graph_limit := Some (10 ^ 19) |} vault_ab))).
    reflexivity.
  - apply (proj1 (proj2 (proj2 (toolQueryGraph_defaults
                                  {| graph_noteId := Some "a";
                                     graph_direction := Some both;
                                     graph_limit := None |} vault_ab)))).
    reflexivity.
  - apply (proj2 (proj2 (proj2 (toolQueryGraph_defaults
                                  {| graph_noteId := Some "a";
                                     graph_direction := None;
                                     graph_limit := Some (10 ^ 19) |} vault_ab)))
             (10 ^ 19)); [reflexivity | reflexivity |].
    right. vm_compute. discriminate.
Defined.

(** X11.  When [listNotes] returns, it has written nothing; the records
    come newest first by their [modified] stamp; their ids are the ids
    of the rows of [notes], each as often as it is there; and every
    record has an empty content and no links. *)
Theorem listNotes_newest_first (w w' : world) (listed : list Note) :
  listNotes w = (Ok listed, w') ->
  w' = w /\
  newest_first (map note_modified listed) /\
  Permutation.Permutation (map note_id listed) (map col_id (notes (db w))) /\
  forall n, In n listed -> note_content n = "" /\ note_links n = [].
Proof.
  rewrite listNotes_unfold.
  destruct (light_notes _) as [l |] eqn:E; [| discriminate].
  intros [= <- <-]. apply light_notes_spec in E as (Hid & Hmod & Hlight).
  split; [reflexivity |]. split; [| split].
  - unfold newest_first. rewrite Hmod. apply StronglySorted_map.
    apply order_by_modified_sorted.
  - rewrite Hid. apply Permutation.Permutation_map, order_by_modified_perm.
  - intros n Hn. rewrite Forall_forall in Hlight. apply Hlight.
    now apply list_elem_of_In.
Qed.

Lemma listNotes_newest_first_example :
  vault_ab = vault_ab /\
  newest_first (map note_modified listed_ab) /\
  Permutation.Permutation (map note_id listed_ab)
    (map col_id (notes (db vault_ab))) /\
  forall n, In n listed_ab -> note_content n = "" /\ note_links n = [].
Proof.
  apply (listNotes_newest_first vault_ab vault_ab listed_ab).
  vm_compute. reflexivity.
Defined.

(** X12.  After an [updateNote] that returned, run at a time later than
    the [modified] stamp of every other note, the first record of
    [listNotes] is the updated note. *)
Theorem listNotes_updated_first (noteId : string) (updates : NoteUpdates)
  (now : Z) (w w' w'' : world) (note : Note) (listed : list Note) :
  updateNote noteId updates now w = (Ok note, w') ->
  (forall row, In row (notes (db w)) -> col_id row <> noteId ->
     col_modified row < now) ->
  listNotes w' = (Ok listed, w'') ->
  exists first rest,
    listed = first :: rest /\ note_id first = noteId /\ note_modified first = now.
Proof.
  intros Hup Holder Hlist.
  destruct (updateNote_Ok_read _ _ _ _ _ _ Hup) as [before Hread].
  destruct (updateNote_cases _ _ _ _ _ _ _ Hread Hup) as (_ & _ & Hnotes & _).
  apply readNote_Some in Hread as (row & tags & Hsel & _ & ->).
  rewrite listNotes_unfold in Hlist.
  destruct (light_notes _) as [l |] eqn:E; [| discriminate].
  injection Hlist as <- <-.
  set (updated := merge (note_of_row row tags) updates now) in *.
  set (upd := updated_row (note_title updated) (note_content updated)
                (JSON.stringify (note_tags updated)) now).
  assert (Hrows : notes (db w') =
                  map (fun r => if Sql.has_id noteId r then upd r else r)
                    (notes (db w))) by (rewrite Hnotes; reflexivity).
  assert (Hin : In (upd row) (notes (db w'))).
  { rewrite Hrows. apply in_map_iff. exists row.
    unfold Sql.select_note in Hsel. apply find_some in Hsel as [Hin Hid].
    now rewrite Hid. }
  destruct (order_by_modified (notes (db w'))) as [| x rest] eqn:Eo.
  { pose proof (order_by_modified_perm (notes (db w'))) as Hp. rewrite Eo in Hp.
    apply Permutation.Permutation_nil in Hp. rewrite Hp in Hin. contradiction. }
  apply order_by_modified_head in Eo as [Hx Hmax].
  specialize (Hmax _ Hin). cbn [upd updated_row col_modified] in Hmax.
  cbn [light_notes] in E.
  destruct (JSON.parse _) as [xtags |]; [| discriminate].
  destruct (light_notes rest) as [lrest |]; [| discriminate].
  injection E as <-. exists (light_note x xtags), lrest.
  split; [reflexivity |]. cbn [light_note note_id note_modified].
  rewrite Hrows in Hx. apply in_map_iff in Hx as (r & <- & Hr).
  destruct (Sql.has_id noteId r) eqn:Er.
  - split; [| reflexivity]. cbn [upd updated_row col_id]. now apply has_id_eq.
  - exfalso.
    assert (col_id r <> noteId).
    { intros Heq. unfold Sql.has_id in Er. rewrite Heq, String.eqb_refl in Er.
      discriminate. }
    specialize (Holder r Hr H). lia.
Qed.

Lemma listNotes_updated_first_example :
  exists first rest,
    listed_b_first = first :: rest /\
    note_id first = "b" /\ note_modified first = 3000.
Proof.
  apply (listNotes_updated_first "b" no_change 3000 vault_ab
           (after (updateNote "b" no_change 3000) vault_ab)
           (after (updateNote "b" no_change 3000) vault_ab)
           (merge note_b no_change 3000) listed_b_first).
  - vm_compute. reflexivity.
  - intros row Hin Hid. vm_compute in Hin.
    destruct Hin as [<- | [<- | []]]; [now destruct Hid | reflexivity].
  - vm_compute. reflexivity.
Defined.

(** X13.  [deleteNote] of an id that [readNote] does not find returns
    [false] and changes nothing; after a [deleteNote] that found the
    note, [readNote] finds nothing and a second [deleteNote] returns
    [false]. *)
Theorem deleteNote_twice (noteId : string) (w : world) :
  (readNote noteId w = (Ok None, w) -> deleteNote noteId w = (Ok false, w)) /\
  (forall before,
     readNote noteId w = (Ok (Some before), w) ->
     exists w',
       deleteNote noteId w = (Ok true, w') /\
       readNote noteId w' = (Ok None, w') /\
       deleteNote noteId w' = (Ok false, w')).
Proof.
  assert (Hmissing : forall v, readNote noteId v = (Ok None, v) ->
                               deleteNote noteId v = (Ok false, v)).
  { intros v Hv. unfold deleteNote. now rewrite bind_unfold, Hv. }
  split; [apply Hmissing |].
  intros before Hread.
  destruct (deleteNote_found _ _ _ Hread) as (w' & Hdel & Hdb & _).
  exists w'. split; [exact Hdel |].
  assert (Hgone : readNote noteId w' = (Ok None, w')).
  { rewrite readNote_unfold. unfold Sql.select_note. rewrite Hdb.
    cbn [notes Sql.delete_fts Sql.delete_note with_fts].
    destruct (List.find _ _) as [x |] eqn:E; [| reflexivity].
    apply find_some in E as [Hin Hx]. apply filter_In in Hin as [_ Hin].
    now rewrite Hx in Hin. }
  split; [exact Hgone | now apply Hmissing].
Qed.

Lemma deleteNote_twice_example :
  exists w',
    deleteNote "a" vault_a = (Ok true, w') /\
    readNote "a" w' = (Ok None, w') /\
    deleteNote "a" w' = (Ok false, w').
Proof.
  apply (proj2 (deleteNote_twice "a" vault_a)
           note_a).
  vm_compute. reflexivity.
Defined.

(** X14.  [deleteNote] of a note leaves every other note as it was: the
    rows of [notes] with another id are all kept, and [readNote] of
    another id returns what it returned before. *)
Theorem deleteNote_keeps_other_notes (noteId other : string) (w : world)
  (before : Note) :
  readNote noteId w = (Ok (Some before), w) ->
  other <> noteId ->
  exists w',
    deleteNote noteId w = (Ok true, w') /\
    notes (db w') =
      List.filter (fun r => negb (Sql.has_id noteId r)) (notes (db w)) /\
    fst (readNote other w') = fst (readNote other w).
Proof.
  intros Hread Hne.
  destruct (deleteNote_found _ _ _ Hread) as (w' & Hdel & Hdb & _).
  exists w'. split; [exact Hdel |]. rewrite Hdb.
  split; [reflexivity |].
  rewrite !readNote_unfold. cbn [fst]. unfold Sql.select_note. rewrite Hdb.
  cbn [notes Sql.delete_fts Sql.delete_note with_fts].
  rewrite find_filter_other; [reflexivity |].
  intros x Hx. apply has_id_eq in Hx. apply negb_true_iff.
  unfold Sql.has_id. apply String.eqb_neq. congruence.
Qed.

Lemma deleteNote_keeps_other_notes_example :
  exists w',
    deleteNote "a" vault_ab = (Ok true, w') /\
    notes (db w') =
      List.filter (fun r => negb (Sql.has_id "a" r)) (notes (db vault_ab)) /\
    fst (readNote "b" w') = fst (readNote "b" vault_ab).
Proof.
  apply (deleteNote_keeps_other_notes "a" "b" vault_ab
           note_a_linked).
  - vm_compute. reflexivity.
  - discriminate.
Defined.

(** X15.  [deleteNote] of a note that [readNote] finds returns [true]
    whether or not the mirror file can be removed: when the file system
    refuses the path, the files are left as they are and the note is
    deleted all the same; otherwise no file is left at the path. *)
Theorem deleteNote_mirror_best_effort (noteId : string) (w : world)
  (before : Note) :
  readNote noteId w = (Ok (Some before), w) ->
  exists w',
    deleteNote noteId w = (Ok true, w') /\
    Sql.id_exists noteId (db w') = false /\
    ((note_path before ∈ faulty (disk w)) -> files (disk w') = files (disk w)) /\
    ((note_path before ∉ faulty (disk w)) ->
     files (disk w') !! note_path before = None).
Proof.
  intros Hread.
  destruct (deleteNote_found_disk _ _ _ Hread) as (w' & Hdel & Hdb & Hfiles).
  exists w'. split; [exact Hdel |]. split; [| split].
  - unfold Sql.id_exists. rewrite Hdb.
    cbn [notes Sql.delete_fts Sql.delete_note with_fts].
    rewrite find_existsb.
    destruct (List.find _ _) as [x |] eqn:E; [| reflexivity].
    apply find_some in E as [Hin Hx]. apply filter_In in Hin as [_ Hin].
    now rewrite Hx in Hin.
  - intros Hf. rewrite Hfiles. now rewrite bool_decide_eq_true_2.
  - intros Hf. rewrite Hfiles. rewrite bool_decide_eq_false_2 by exact Hf.
    apply lookup_delete_eq.
Qed.

Lemma deleteNote_mirror_best_effort_example :
  exists w',
    deleteNote "a" vault_a_readonly = (Ok true, w') /\
    Sql.id_exists "a" (db w') = false /\
    (("/srv/knowledge-vault/A.md" ∈ faulty (disk vault_a_readonly)) ->
     files (disk w') = files (disk vault_a_readonly)) /\
    (("/srv/knowledge-vault/A.md" ∉ faulty (disk vault_a_readonly)) ->
     files (disk w') !! "/srv/knowledge-vault/A.md" = None).
Proof.
  apply (deleteNote_mirror_best_effort "a" vault_a_readonly
           note_a).
  vm_compute. reflexivity.
Defined.

(** X16.  An [updateNote] whose new content is the empty string stores
    the empty content, but takes the links from the old content: the
    returned record has content [""] and the links of the old text,
    [readNote] then returns the empty content, and every link of the
    old text has its reference row in [links]. *)
Theorem updateNote_empty_content_keeps_old_links (noteId : string)
  (updates : NoteUpdates) (now : Z) (w w' : world) (before note : Note) :
  readNote noteId w = (Ok (Some before), w) ->
  upd_content updates = Some "" ->
  updateNote noteId updates now w = (Ok note, w') ->
  note_content note = "" /\
  note_links note = extractLinks (note_content before) /\
  (exists stored,
     readNote noteId w' = (Ok (Some stored), w') /\ note_content stored = "") /\
  forall link, In link (extractLinks (note_content before)) ->
    In (reference_row noteId link) (links (db w')).
Proof.
  intros Hread Hempty Hup.
  destruct (updateNote_Ok_stored _ _ _ _ _ _ _ Hread Hup)
    as (-> & row & tags & Hsel & -> & Hstored).
  assert (Hc : note_content (merge (note_of_row row tags) updates now) = "").
  { cbn [merge note_content]. now rewrite Hempty. }
  assert (Hl : note_links (merge (note_of_row row tags) updates now) =
               extractLinks (note_content (note_of_row row tags))).
  { cbn [merge note_links]. now rewrite Hempty. }
  split; [exact Hc |]. split; [exact Hl |]. split.
  - eexists. split; [exact Hstored |].
    cbn [note_of_row note_content updated_row col_content]. exact Hc.
  - intros link Hin.
    destruct (updateNote_cases _ _ _ _ _ _ _ Hread Hup)
      as (_ & _ & _ & [(Hr & _) | (_ & _ & _ & [[_ Hlinks] | [Hr _]])]);
      try discriminate.
    rewrite Hlinks, Hl.
    replace (note_id (merge (note_of_row row tags) updates now)) with noteId
      by (symmetry; apply (select_note_id _ _ _ Hsel)).
    apply in_or_app. right. apply in_or_app. left. now apply in_map.
Qed.

Lemma updateNote_empty_content_keeps_old_links_example :
  note_content (merge note_a_linked (content_only "") 3000) = "" /\
  note_links (merge note_a_linked (content_only "") 3000) =
    extractLinks (note_content note_a_linked) /\
  (exists stored,
     readNote "a" vault_ab_emptied = (Ok (Some stored), vault_ab_emptied) /\
     note_content stored = "") /\
  forall link, In link (extractLinks (note_content note_a_linked)) ->
    In (reference_row "a" link) (links (db vault_ab_emptied)).
Proof.
  apply (updateNote_empty_content_keeps_old_links "a" (content_only "") 3000
           vault_ab vault_ab_emptied note_a_linked
           (merge note_a_linked (content_only "") 3000)).
  - vm_compute. reflexivity.
  - reflexivity.
  - vm_compute. reflexivity.
Defined.

(** X17.  An [updateNote] that names a path writes the mirror file at
    that path, with the text of the returned record, and leaves the
    stored path as it was: [readNote] still returns the old path, and
    the file at the old path, when it is another one, is not touched. *)
Theorem updateNote_path_not_stored (noteId path : string)
  (updates : NoteUpdates) (now : Z) (w w' : world) (before note : Note) :
  readNote noteId w = (Ok (Some before), w) ->
  upd_path updates = Some path ->
  updateNote noteId updates now w = (Ok note, w') ->
  note_path note = path /\
  files (disk w') !! path = Some (formatNoteAsMarkdown note) /\
  (exists stored,
     readNote noteId w' = (Ok (Some stored), w') /\
     note_path stored = note_path before) /\
  (path <> note_path before ->
   files (disk w') !! note_path before = files (disk w) !! note_path before).
Proof.
  intros Hread Hpath Hup.
  destruct (updateNote_Ok_stored _ _ _ _ _ _ _ Hread Hup)
    as (Hnote & row & tags & Hsel & Hbefore & Hstored).
  assert (Hp : note_path (merge before updates now) = path).
  { cbn [merge note_path]. now rewrite Hpath. }
  destruct (updateNote_cases _ _ _ _ _ _ _ Hread Hup)
    as (_ & _ & _ & [(Hr & _) | (_ & Hdisk & _)]); [subst; discriminate |].
  cbn zeta in Hdisk. rewrite Hp in Hdisk. subst note.
  split; [exact Hp |]. split; [| split].
  - rewrite Hdisk. cbn [files]. apply lookup_insert_eq.
  - eexists. split; [exact Hstored |]. subst before. reflexivity.
  - intros Hne. rewrite Hdisk. cbn [files]. now apply lookup_insert_ne.
Qed.

Lemma updateNote_path_not_stored_example :
  note_path (merge note_a (path_only "/tmp/elsewhere.md") 3000) =
    "/tmp/elsewhere.md" /\
  files (disk (after (updateNote "a" (path_only "/tmp/elsewhere.md") 3000)
                 vault_a)) !! "/tmp/elsewhere.md" =
    Some (formatNoteAsMarkdown
            (merge note_a (path_only "/tmp/elsewhere.md") 3000)) /\
  (exists stored,
     readNote "a" (after (updateNote "a" (path_only "/tmp/elsewhere.md") 3000)
                     vault_a) =
       (Ok (Some stored),
        after (updateNote "a" (path_only "/tmp/elsewhere.md") 3000) vault_a) /\
     note_path stored = note_path note_a) /\
  ("/tmp/elsewhere.md" <> note_path note_a ->
   files (disk (after (updateNote "a" (path_only "/tmp/elsewhere.md") 3000)
                  vault_a)) !! note_path note_a =
     files (disk vault_a) !! note_path note_a).
Proof.
  apply (updateNote_path_not_stored "a" "/tmp/elsewhere.md"
           (path_only "/tmp/elsewhere.md") 3000 vault_a
           (after (updateNote "a" (path_only "/tmp/elsewhere.md") 3000) vault_a)
           note_a (merge note_a (path_only "/tmp/elsewhere.md") 3000)).
  - vm_compute. reflexivity.
  - reflexivity.
  - vm_compute. reflexivity.
Defined.

(** X18.  [toolWriteNote] with a note id that is in no row of [notes]
    creates nothing: whatever title and content the request carries, it
    throws [NoteNotFound] for that id and leaves the store as it was. *)
Theorem toolWriteNote_unknown_id (request : NoteWriteRequest) (noteId : string)
  (now : Z) (w : world) :
  req_noteId request = Some noteId ->
  noteId <> "" ->
  Sql.id_exists noteId (db w) = false ->
  toolWriteNote request now w = (Throw (NoteNotFound noteId), w).
Proof.
  intros Hid Hne Hnew. unfold toolWriteNote. rewrite Hid.
  assert (Ht : truthy (Some noteId) = true) by now destruct noteId.
  rewrite Ht. change (default "" (Some noteId)) with noteId. unfold updateNote.
  rewrite bind_unfold, readNote_unfold.
  destruct (Sql.select_note noteId (db w)) as [row |] eqn:E; [| reflexivity].
  apply select_note_exists in E. congruence.
Qed.

Lemma toolWriteNote_unknown_id_example :
  toolWriteNote (write_request "zzz" "Z" "text") 3000 vault_a =
  (Throw (NoteNotFound "zzz"), vault_a).
Proof.
  apply (toolWriteNote_unknown_id (write_request "zzz" "Z" "text") "zzz" 3000
           vault_a).
  - reflexivity.
  - discriminate.
  - vm_compute. reflexivity.
Defined.

(** X19.  After a [createNote] that returned, [toolReadNote] with the
    path of the returned record and no id finds the note: it returns
    what [readNote] returns for the id of the record. *)
Theorem toolReadNote_by_path_after_create (title content : string)
  (tags : list string) (now : Z) (w w' : world) (note : Note) :
  createNote title content tags now w = (Ok note, w') ->
  toolReadNote (path_request (note_path note)) w' = readNote (note_id note) w' /\
  readNote (note_id note) w' =
    (Ok (Some (note_of_row (row_of_note note) tags)), w').
Proof.
  intros H.
  destruct (createNote_Ok_inv _ _ _ _ _ _ _ H) as (Hnote & _ & Hpath & _).
  destruct (readNote_created _ _ _ _ _ _ _ H) as (_ & Hread).
  destruct (createNote_cases _ _ _ _ _ _ _ H)
    as [(p & Hr & _) | [(_ & _ & _ & [[Hr _] | [Hr _]])
                       | (_ & _ & _ & _ & _ & _ & Hnotes & _)]];
    try discriminate.
  assert (Hid : note_id note = slug title) by (rewrite Hnote; reflexivity).
  rewrite Hid. split; [| exact Hread].
  unfold toolReadNote, path_request. cbn [read_noteId read_path truthy].
  change (default "" (Some (note_path note))) with (note_path note).
  replace (Str.is_empty (note_path note)) with false
    by (rewrite Hnote; symmetry; apply note_path_not_empty).
  cbn [negb]. rewrite bind_unfold. unfold fetch, select_id_by_path.
  rewrite Hnotes. rewrite <- Hnote.
  rewrite (find_app_fresh _ _ (row_of_note note) Hpath)
    by (cbn [row_of_note col_path]; apply String.eqb_refl).
  cbn [option_map row_of_note col_id]. now rewrite Hid.
Qed.

Lemma toolReadNote_by_path_after_create_example :
  toolReadNote (path_request (note_path (new_note "/srv/knowledge-vault" "A"
                                           "first text" ["x"] 1000))) vault_a =
    readNote (note_id (new_note "/srv/knowledge-vault" "A" "first text" ["x"]
                         1000)) vault_a /\
  readNote (note_id (new_note "/srv/knowledge-vault" "A" "first text" ["x"]
                       1000)) vault_a =
    (Ok (Some (note_of_row
                 (row_of_note (new_note "/srv/knowledge-vault" "A" "first text"
                                 ["x"] 1000)) ["x"])), vault_a).
Proof.
  apply (toolReadNote_by_path_after_create "A" "first text" ["x"] 1000
           fresh_vault vault_a).
  vm_compute. reflexivity.
Defined.

(** X20.  When the directory can be listed, [scanAndIndexVault] does not
    throw, whatever happens to the single files, and the store only
    grows: the vault path, the paths the file system refuses and the
    foreign-key setting are kept, no file goes away, and the rows of
    [notes] are the old ones followed by at most one new row for each
    Markdown file of the listing. *)
Theorem scanAndIndexVault_only_grows
  (readdir : string -> outcome (list string)) (clock : string -> Z)
  (override : option string) (w : world) (listed : list string) :
  readdir (or_else override (vaultPath w)) = Ok listed ->
  exists w',
    Scan.scanAndIndexVault readdir clock override w = (Ok tt, w') /\
    grows_by (length (List.filter Scan.is_markdown listed)) w w'.
Proof.
  intros H. rewrite (scanAndIndexVault_unfold _ _ _ _ _ H).
  apply forEach_try_catch_grows.
Qed.

Lemma scanAndIndexVault_only_grows_example :
  exists w',
    Scan.scanAndIndexVault listing_a noon None fresh_vault = (Ok tt, w') /\
    grows_by (length (List.filter Scan.is_markdown
                        ["A.md"; "knowledge.db"; "notes.txt"]))
      fresh_vault w'.
Proof.
  apply (scanAndIndexVault_only_grows listing_a noon None fresh_vault
           ["A.md"; "knowledge.db"; "notes.txt"]).
  reflexivity.
Defined.

(** X21.  A scan in which every Markdown file of the listing is at the
    path of a stored note changes nothing, whether or not the files can
    be read; the other files of the listing are not looked at. *)
Theorem scanAndIndexVault_skips_indexed
  (readdir : string -> outcome (list string)) (clock : string -> Z)
  (override : option string) (w : world) (listed : list string) :
  readdir (or_else override (vaultPath w)) = Ok listed ->
  (forall file, In file listed -> Scan.is_markdown file = true ->
     select_id_by_path (Path.join (or_else override (vaultPath w)) file) (db w)
     <> None) ->
  Scan.scanAndIndexVault readdir clock override w = (Ok tt, w).
Proof.
  intros H Hindexed. rewrite (scanAndIndexVault_unfold _ _ _ _ _ H).
  apply forEach_try_catch_skip. intros file Hin.
  apply filter_In in Hin as [Hin Hmd]. now apply Hindexed.
Qed.

Lemma scanAndIndexVault_skips_indexed_example :
  Scan.scanAndIndexVault listing_a noon None vault_a = (Ok tt, vault_a).
Proof.
  apply (scanAndIndexVault_skips_indexed listing_a noon None vault_a
           ["A.md"; "knowledge.db"; "notes.txt"]).
  - reflexivity.
  - intros file [<- | [<- | [<- | []]]] Hmd; vm_compute in Hmd |- *;
      discriminate.
Defined.

(** X22.  The scan rewrites the file it imports.  For a listing whose
    only Markdown file is a file of the vault that is not yet the path
    of a note and has no front matter, the scan leaves at the path of
    that file a heading with the name of the file, an empty line, and
    then the text the file had -- also when the note itself cannot be
    stored. *)
Theorem scanAndIndexVault_rewrites_file
  (readdir : string -> outcome (list string)) (clock : string -> Z)
  (w : world) (listed : list string) (name content : string) :
  readdir (vaultPath w) = Ok listed ->
  List.filter Scan.is_markdown listed = [name +:+ ".md"] ->
  name <> "" ->
  (forall c, In c (list_ascii_of_string name) -> c <> "/"%char) ->
  files (disk w) !! Path.join (vaultPath w) (name +:+ ".md") = Some content ->
  Frontmatter.parseFrontmatter content = no_frontmatter ->
  (vaultPath w ∉ faulty (disk w)) ->
  (Path.join (vaultPath w) (name +:+ ".md") ∉ faulty (disk w)) ->
  select_id_by_path (Path.join (vaultPath w) (name +:+ ".md")) (db w) = None ->
  exists w',
    Scan.scanAndIndexVault readdir clock None w = (Ok tt, w') /\
    files (disk w') !! Path.join (vaultPath w) (name +:+ ".md") =
      Some ("# " +:+ name +:+ nl +:+ nl +:+ content).
Proof.
  intros Hdir Hmd Hne Hplain Hfile Hparse Hvault Hok Hnew.
  rewrite (scan_plain_file readdir clock w listed name content) by assumption.
  eexists. split; [reflexivity |].
  destruct (createNote name content [] (clock (name +:+ ".md")) w)
    as [r w1] eqn:E. cbn [snd].
  destruct (createNote_cases _ _ _ _ _ _ _ E)
    as [(p & _ & Hp & [-> | ->] & _)
       | [(_ & _ & -> & _)
         | (_ & _ & _ & _ & Hdisk & _)]].
  - contradiction.
  - contradiction.
  - cbn [with_files disk files]. rewrite lookup_insert_eq.
    now rewrite formatNoteAsMarkdown_untagged.
  - rewrite Hdisk. cbn [files]. rewrite lookup_insert_eq.
    now rewrite formatNoteAsMarkdown_untagged.
Qed.

Lemma scanAndIndexVault_rewrites_file_example :
  exists w',
    Scan.scanAndIndexVault listing_todo noon None
      (vault_with_file "todo.md" "buy milk") = (Ok tt, w') /\
    files (disk w') !!
      Path.join (vaultPath (vault_with_file "todo.md" "buy milk"))
        ("todo" +:+ ".md") =
      Some ("# " +:+ "todo" +:+ nl +:+ nl +:+ "buy milk").
Proof.
  apply (scanAndIndexVault_rewrites_file listing_todo noon
           (vault_with_file "todo.md" "buy milk")
           ["todo.md"; "knowledge.db"] "todo" "buy milk").
  - reflexivity.
  - reflexivity.
  - discriminate.
  - intros c Hc. vm_compute in Hc.
    destruct Hc as [<- | [<- | [<- | [<- | []]]]]; discriminate.
  - vm_compute. reflexivity.
  - vm_compute. reflexivity.
  - vm_compute. intros H. discriminate H.
  - vm_compute. intros H. discriminate H.
  - vm_compute. reflexivity.
Defined.

(** X23.  The scan imports a new file of the vault without front matter
    as a note called after the file, when the id of that name is free
    and the links of the text can be stored: [readNote] then returns
    the name as title, the text of the file as content, the path of the
    file and no tag; and a second scan of the same listing changes
    nothing. *)
Theorem scanAndIndexVault_imports_once
  (readdir : string -> outcome (list string)) (clock clock' : string -> Z)
  (w : world) (listed : list string) (name content : string) :
  readdir (vaultPath w) = Ok listed ->
  List.filter Scan.is_markdown listed = [name +:+ ".md"] ->
  name <> "" ->
  (forall c, In c (list_ascii_of_string name) -> c <> "/"%char) ->
  files (disk w) !! Path.join (vaultPath w) (name +:+ ".md") = Some content ->
  Frontmatter.parseFrontmatter content = no_frontmatter ->
  (vaultPath w ∉ faulty (disk w)) ->
  (Path.join (vaultPath w) (name +:+ ".md") ∉ faulty (disk w)) ->
  select_id_by_path (Path.join (vaultPath w) (name +:+ ".md")) (db w) = None ->
  Sql.id_exists (slug name) (db w) = false ->
  (foreign_keys (db w) = true ->
   forall link, In link (extractLinks content) ->
     link_to link = slug name \/ Sql.id_exists (link_to link) (db w) = true) ->
  exists w' stored,
    Scan.scanAndIndexVault readdir clock None w = (Ok tt, w') /\
    readNote (slug name) w' = (Ok (Some stored), w') /\
    note_title stored = name /\
    note_content stored = content /\
    note_path stored = Path.join (vaultPath w) (name +:+ ".md") /\
    note_tags stored = [] /\
    Scan.scanAndIndexVault readdir clock' None w' = (Ok tt, w').
Proof.
  intros Hdir Hmd Hne Hplain Hfile Hparse Hvault Hok Hnew Hid Hlinks.
  rewrite (scan_plain_file readdir clock w listed name content) by assumption.
  destruct (createNote_returns name content [] (clock (name +:+ ".md")) w
              Hvault Hok Hid (select_id_by_path_fresh _ _ Hnew) Hlinks)
    as [w' Hcreate].
  rewrite Hcreate. cbn [snd].
  destruct (readNote_created _ _ _ _ _ _ _ Hcreate) as (_ & Hread).
  exists w'. eexists. split; [reflexivity |]. split; [exact Hread |].
  repeat split.
  destruct (createNote_cases _ _ _ _ _ _ _ Hcreate)
    as [(p & Hr & _) | [(_ & _ & _ & [[Hr _] | [Hr _]])
                       | (_ & _ & _ & Hv & _ & _ & Hnotes & _)]];
    try discriminate.
  apply (scanAndIndexVault_skips_plain readdir clock' w' listed).
  - now rewrite Hv.
  - rewrite Hmd. intros file [<- | []]. rewrite Hv.
    unfold select_id_by_path. rewrite Hnotes.
    rewrite (find_app_fresh _ _
               (row_of_note (new_note (vaultPath w) name content []
                               (clock (name +:+ ".md"))))
               (select_id_by_path_fresh _ _ Hnew))
      by apply String.eqb_refl.
    discriminate.
Qed.

Lemma scanAndIndexVault_imports_once_example :
  exists w' stored,
    Scan.scanAndIndexVault listing_todo noon None
      (vault_with_file "todo.md" "buy milk") = (Ok tt, w') /\
    readNote (slug "todo") w' = (Ok (Some stored), w') /\
    note_title stored = "todo" /\
    note_content stored = "buy milk" /\
    note_path stored =
      Path.join (vaultPath (vault_with_file "todo.md" "buy milk"))
        ("todo" +:+ ".md") /\
    note_tags stored = [] /\
    Scan.scanAndIndexVault listing_todo noon None w' = (Ok tt, w').
Proof.
  apply (scanAndIndexVault_imports_once listing_todo noon noon
           (vault_with_file "todo.md" "buy milk")
           ["todo.md"; "knowledge.db"] "todo" "buy milk").
  - reflexivity.
  - reflexivity.
  - discriminate.
  - intros c Hc. vm_compute in Hc.
    destruct Hc as [<- | [<- | [<- | [<- | []]]]]; discriminate.
  - vm_compute. reflexivity.
  - vm_compute. reflexivity.
  - vm_compute. intros H. discriminate H.
  - vm_compute. intros H. discriminate H.
  - vm_compute. reflexivity.
  - vm_compute. reflexivity.
  - intros _ link Hin. vm_compute in Hin. destruct Hin.
Defined.





(** X26.  A note that has just been created is found: after a
    [createNote] that returned, a search without tags for a query FTS5
    accepts and that the entries with the title and the content of the
    note match, with a limit that LIMIT takes and that cuts nothing,
    has a result with the id and the title of the note. *)
Theorem search_finds_created_note (hits : string -> fts_row -> bool)
  (rank : string -> list fts_row -> fts_row -> QArith_base.Q)
  (fits : string -> bool)
  (title content : string) (tags : list string) (now : Z) (w w' : world)
  (note : Note) (query : string) (limit : Z) :
  createNote title content tags now w = (Ok note, w') ->
  Fts5.query_ok query = true ->
  fits query = true ->
  (forall entry, fts_title entry = title -> fts_content entry = content ->
     hits query entry = true) ->
  Sql.limit_ok limit = true ->
  unbounded limit (length (joined hits query (db w'))) ->
  exists results r,
    search hits rank fits query None limit w' = (Ok results, w') /\
    In r results /\
    res_noteId r = note_id note /\ res_title r = title /\
    res_preview r = Str.prefix 200 content +:+ "...".
Proof.
  intros H Hq Hfits Hhits Hok Hlimit.
  destruct (createNote_cases _ _ _ _ _ _ _ H)
    as [(p & Hr & _) | [(_ & _ & _ & [[Hr _] | [Hr _]])
                       | (_ & _ & _ & _ & _ & _ & Hnotes & Hfts & [[Hr _] | [Hr _]])]];
    try discriminate.
  injection Hr as ->.
  rewrite insert_or_replace_fts_appends in Hfts.
  set (entry := {| rowid := Sql.next_rowid (notes_fts (db w));
                   fts_id := slug title; fts_title := title;
                   fts_content := content |}) in *.
  set (row := row_of_note (new_note (vaultPath w) title content tags now)) in *.
  assert (Hin : In (entry, row) (joined hits query (db w'))).
  { apply joined_In. rewrite Hfts, Hnotes. repeat split.
    - apply in_or_app. right. now left.
    - now apply Hhits.
    - apply in_or_app. right. now left. }
  assert (Hsearch : search hits rank fits query None limit w' =
                    (Ok (map (result_of_row rank query (notes_fts (db w')))
                           (order_by_rank rank query (notes_fts (db w'))
                              (joined hits query (db w')))), w')).
  { rewrite search_without_tags.
    unfold select_rows. rewrite Hok, Hq, Hfits. cbn [negb andb].
    rewrite limit_rows_unbounded; [reflexivity |].
    now rewrite (Permutation.Permutation_length (order_by_rank_perm _ _ _ _)). }
  eexists. exists (result_of_row rank query (notes_fts (db w')) (entry, row)).
  split; [exact Hsearch |]. split; [| repeat split].
  apply in_map.
  eapply Permutation.Permutation_in;
    [apply Permutation.Permutation_sym, order_by_rank_perm | exact Hin].
Qed.

Lemma search_finds_created_note_example :
  exists results r,
    search exact_hits flat_rank short_query "first text" None 50 vault_a =
      (Ok results, vault_a) /\
    In r results /\
    res_noteId r =
      note_id (new_note "/srv/knowledge-vault" "A" "first text" ["x"] 1000) /\
    res_title r = "A" /\
    res_preview r = Str.prefix 200 "first text" +:+ "...".
Proof.
  apply (search_finds_created_note exact_hits flat_rank short_query
           "A" "first text" ["x"]
           1000 fresh_vault vault_a
           (new_note "/srv/knowledge-vault" "A" "first text" ["x"] 1000)
           "first text" 50).
  - vm_compute. reflexivity.
  - reflexivity.
  - reflexivity.
  - intros entry _ Hc. unfold exact_hits. rewrite Hc. apply String.eqb_refl.
  - reflexivity.
  - right. vm_compute. lia.
Defined.

(** X27.  A deleted note is never found again: after a [deleteNote] that
    found the note, no search, whatever its query, tags and limit,
    returns a result with the id of the note. *)
Theorem search_never_returns_deleted (hits : string -> fts_row -> bool)
  (rank : string -> list fts_row -> fts_row -> QArith_base.Q)
  (fits : string -> bool)
  (noteId : string) (w : world) (before : Note) :
  readNote noteId w = (Ok (Some before), w) ->
  exists w',
    deleteNote noteId w = (Ok true, w') /\
    forall query tags limit results w'',
      search hits rank fits query tags limit w' = (Ok results, w'') ->
      forall r, In r results -> res_noteId r <> noteId.
Proof.
  intros Hread.
  destruct (deleteNote_found _ _ _ Hread) as (w' & Hdel & Hdb & _).
  exists w'. split; [exact Hdel |].
  intros query tags limit results w'' Hsearch r Hr Hid.
  apply search_Ok_rows in Hsearch
    as (_ & _ & rows & -> & _ & _ & Hjoined & _).
  apply in_map_iff in Hr as ([entry row] & <- & Hin).
  apply Hjoined, joined_In in Hin as (_ & _ & Hn & _).
  cbn [result_of_row res_noteId snd] in Hid.
  rewrite Hdb in Hn. cbn [notes Sql.delete_fts Sql.delete_note with_fts] in Hn.
  apply filter_In in Hn as [_ Hn].
  unfold Sql.has_id in Hn. rewrite Hid, String.eqb_refl in Hn. discriminate.
Qed.

Lemma search_never_returns_deleted_example :
  exists w',
    deleteNote "a" vault_a = (Ok true, w') /\
    forall query tags limit results w'',
      search exact_hits flat_rank short_query query tags limit w' = (Ok results, w'') ->
      forall r, In r results -> res_noteId r <> "a".
Proof.
  apply (search_never_returns_deleted exact_hits flat_rank short_query "a" vault_a note_a).
  vm_compute. reflexivity.
Defined.

(** X28.  The text [formatNoteAsMarkdown] writes for a note has no front
    matter for [parseFrontmatter]: whatever the title and the tags of
    the note, parsing its mirror text gives no title and no tag. *)
Theorem parseFrontmatter_of_mirror_text (note : Note) :
  Frontmatter.parseFrontmatter (formatNoteAsMarkdown note) = no_frontmatter.
Proof.
  destruct (formatNoteAsMarkdown_heading note) as [rest ->].
  now apply parseFrontmatter_no_dash.
Qed.

(** X29.  [parseFrontmatter] reads back a front matter of a title and a
    bracketed list of tags: for a title on one line, without a colon
    and without white space around it, and for one tag or more, each
    without a comma, a closing bracket or a line feed and such that the
    clean-up leaves it alone, the text that opens with that front
    matter gives the title and the tags, whatever follows it. *)
Theorem parseFrontmatter_reads_header (title : string) (tag : string)
  (tags : list string) (body : string) :
  plain_title title ->
  (forall t, In t (tag :: tags) -> plain_tag t) ->
  Frontmatter.parseFrontmatter (with_frontmatter title (tag :: tags) body) =
  {| Frontmatter.title := Some title; Frontmatter.tags := tag :: tags |}.
Proof.
  intros Htitle Htags.
  assert (Hnl : forall c, In c (list_ascii_of_string title) ->
                          c <> Frontmatter.newline).
  { intros c Hc ->. destruct Htitle as (_ & _ & H).
    destruct (H _ Hc) as [Hterm _]. discriminate Hterm. }
  assert (Hjnl : forall c,
             In c (list_ascii_of_string (Str.join ", " (tag :: tags))) ->
             c <> Frontmatter.newline).
  { apply join_tags_chars; [discriminate | discriminate |].
    intros t Ht c Hc. destruct (Htags t Ht) as (_ & _ & H).
    now destruct (H c Hc) as (_ & _ & ?). }
  assert (Hjbr : forall c,
             In c (list_ascii_of_string (Str.join ", " (tag :: tags))) ->
             c <> "]"%char).
  { apply join_tags_chars; [discriminate | discriminate |].
    intros t Ht c Hc. destruct (Htags t Ht) as (_ & _ & H).
    now destruct (H c Hc) as (_ & ? & _). }
  destruct (join_tags_not_empty tag tags) as (c & g & Hgroup).
  { destruct (Htags tag) as (H & _); [now left | exact H]. }
  unfold Frontmatter.parseFrontmatter.
  rewrite (with_frontmatter_lines title (tag :: tags) body Hnl Hjnl).
  change (String.eqb "---" "---") with true. cbv iota.
  assert (Hheader :
            Frontmatter.header_lines
              (("title: " +:+ title)
                 :: ("tags: [" +:+ Str.join ", " (tag :: tags) +:+ "]")
                 :: "---" :: Str.split Frontmatter.newline body) =
            Some ["title: " +:+ title;
                  "tags: [" +:+ Str.join ", " (tag :: tags) +:+ "]"]).
  { rewrite !append_cons, !append_nil. reflexivity. }
  rewrite Hheader.
  change (Str.join (String Frontmatter.newline "")
            ["title: " +:+ title;
             "tags: [" +:+ Str.join ", " (tag :: tags) +:+ "]"])
    with (("title: " +:+ title) +:+ String Frontmatter.newline
            ("tags: [" +:+ Str.join ", " (tag :: tags) +:+ "]")).
  cbv zeta.
  rewrite search_title_line by exact Htitle.
  rewrite (search_tags_line title _ c g Htitle Hgroup Hjbr).
  cbn [option_map]. f_equal.
  - f_equal. now destruct Htitle as (_ & H & _).
  - rewrite split_join_tags.
    + apply clean_tags_of_split. intros x Hx.
      now destruct (Htags x Hx) as (_ & H & _).
    + intros x Hx ch Hc. destruct (Htags x Hx) as (_ & _ & H).
      now destruct (H ch Hc) as (? & _ & _).
Qed.

Lemma parseFrontmatter_reads_header_example :
  Frontmatter.parseFrontmatter
    (with_frontmatter "Shopping list" ["home"; "to do"] "buy milk") =
  {| Frontmatter.title := Some "Shopping list";
     Frontmatter.tags := ["home"; "to do"] |}.
Proof.
  apply (parseFrontmatter_reads_header "Shopping list" "home" ["to do"]
           "buy milk").
  - split; [discriminate |]. split; [reflexivity |].
    intros c Hc. vm_compute in Hc.
    repeat (destruct Hc as [<- | Hc]; [split; [reflexivity | discriminate] |]).
    destruct Hc.
  - intros t [<- | [<- | []]].
    + split; [discriminate |]. split; [reflexivity |].
      intros c Hc. vm_compute in Hc.
      repeat (destruct Hc as [<- | Hc]; [repeat split; discriminate |]).
      destruct Hc.
    + split; [discriminate |]. split; [reflexivity |].
      intros c Hc. vm_compute in Hc.
      repeat (destruct Hc as [<- | Hc]; [repeat split; discriminate |]).
      destruct Hc.
Defined.

(** X30.  A file whose front matter names a title is imported under that
    title, not under its own name.  When the note of that title can be
    created and its path is not the path of the file, the scan leaves
    the file as it was and does not record its path, so that the file
    counts as new at every later scan; a second scan tries the import
    again and stores nothing. *)
Theorem scanAndIndexVault_titled_file_stays_new
  (readdir : string -> outcome (list string)) (clock clock' : string -> Z)
  (w w1 : world) (listed : list string) (file content title : string)
  (note : Note) :
  readdir (vaultPath w) = Ok listed ->
  List.filter Scan.is_markdown listed = [file] ->
  files (disk w) !! Path.join (vaultPath w) file = Some content ->
  (Path.join (vaultPath w) file ∉ faulty (disk w)) ->
  select_id_by_path (Path.join (vaultPath w) file) (db w) = None ->
  Frontmatter.title (Frontmatter.parseFrontmatter content) = Some title ->
  title <> "" ->
  createNote title content (Frontmatter.tags (Frontmatter.parseFrontmatter content))
    (clock file) w = (Ok note, w1) ->
  note_path note <> Path.join (vaultPath w) file ->
  Scan.scanAndIndexVault readdir clock None w = (Ok tt, w1) /\
  files (disk w1) !! Path.join (vaultPath w) file = Some content /\
  select_id_by_path (Path.join (vaultPath w) file) (db w1) = None /\
  exists w2,
    Scan.scanAndIndexVault readdir clock' None w1 = (Ok tt, w2) /\
    db w2 = db w1.
Proof.
  intros Hdir Hmd Hfile Hok Hnew Htitle Hne Hcreate Hpath.
  assert (Hor : or_else (Some title) (Scan.basename_md file) = title).
  { destruct title; [contradiction | reflexivity]. }
  destruct (createNote_cases _ _ _ _ _ _ _ Hcreate)
    as [(p & Hr & _) | [(_ & _ & _ & [[Hr _] | [Hr _]])
                       | (Hvault & _ & _ & Hv & Hdisk & _ & Hnotes & _
                          & [[Hr _] | [Hr _]])]];
    try discriminate.
  injection Hr as ->.
  assert (Hfile1 : files (disk w1) !! Path.join (vaultPath w) file = Some content).
  { rewrite Hdisk. cbn [files]. rewrite lookup_insert_ne; [exact Hfile |].
    exact Hpath. }
  assert (Hnew1 : select_id_by_path (Path.join (vaultPath w) file) (db w1) = None).
  { apply select_id_by_path_None. rewrite Hnotes, existsb_app.
    rewrite (select_id_by_path_fresh _ _ Hnew). cbn [existsb orb].
    rewrite orb_false_r. apply String.eqb_neq.
    cbn [row_of_note col_path]. exact Hpath. }
  split; [| split; [exact Hfile1 | split; [exact Hnew1 |]]].
  - rewrite (scan_one_file readdir clock w listed file content) by assumption.
    now rewrite Htitle, Hor, Hcreate.
  - rewrite (scan_one_file readdir clock' w1 listed file content);
      rewrite ?Hv; try assumption.
    2:{ rewrite Hdisk. exact Hok. }
    rewrite Htitle, Hor. eexists. split; [reflexivity |].
    destruct (createNote title content
                (Frontmatter.tags (Frontmatter.parseFrontmatter content))
                (clock' file) w1) as [r w2] eqn:E. cbn [snd].
    destruct (createNote_cases _ _ _ _ _ _ _ E)
      as [(_ & _ & _ & _ & ->)
         | [(_ & _ & -> & _)
           | (_ & _ & Hid & _)]]; [reflexivity | reflexivity |].
    exfalso.
    destruct (readNote_created _ _ _ _ _ _ _ Hcreate) as (_ & Hread).
    apply readNote_Some in Hread as (row & _ & Hsel & _).
    apply select_note_exists in Hsel. congruence.
Qed.

Lemma scanAndIndexVault_titled_file_stays_new_example :
  Scan.scanAndIndexVault listing_todo noon None vault_with_titled_file =
    (Ok tt, after (createNote "Groceries" titled_text ["home"] 5000)
              vault_with_titled_file) /\
  files (disk (after (createNote "Groceries" titled_text ["home"] 5000)
                 vault_with_titled_file))
    !! Path.join (vaultPath vault_with_titled_file) "todo.md" =
    Some titled_text /\
  select_id_by_path (Path.join (vaultPath vault_with_titled_file) "todo.md")
    (db (after (createNote "Groceries" titled_text ["home"] 5000)
           vault_with_titled_file)) = None /\
  exists w2,
    Scan.scanAndIndexVault listing_todo noon None
      (after (createNote "Groceries" titled_text ["home"] 5000)
         vault_with_titled_file) = (Ok tt, w2) /\
    db w2 =
    db (after (createNote "Groceries" titled_text ["home"] 5000)
          vault_with_titled_file).
Proof.
  apply (scanAndIndexVault_titled_file_stays_new listing_todo noon noon
           vault_with_titled_file
           (after (createNote "Groceries" titled_text ["home"] 5000)
              vault_with_titled_file)
           ["todo.md"; "knowledge.db"] "todo.md" titled_text "Groceries"
           (new_note (vaultPath vault_with_titled_file) "Groceries" titled_text
              ["home"] 5000)).
  - reflexivity.
  - reflexivity.
  - vm_compute. reflexivity.
  - vm_compute. intros H. discriminate H.
  - vm_compute. reflexivity.
  - vm_compute. reflexivity.
  - discriminate.
  - vm_compute. reflexivity.
  - vm_compute. discriminate.
Defined.
